(** * The master's HTTP request layer (src/master/http.cpp)

    A shallow embedding of the three request families of the master:
    scheduler call dispatch, resource-operation admission and the
    machine maintenance lifecycle.  The master's in-memory state is a
    record that every handler threads explicitly; a handler returns the
    state it leaves behind together with its response, or aborts when
    one of the source's CHECKs fails.

    A handler that waits for the registrar or for the apply of an
    operation takes the answer it will get as an argument, and its
    continuation runs on the state its checks have seen: one request is
    one step of the master.  What the master sends to the allocator,
    the registrar, agents and frameworks is kept as a list of events in
    the state. *)

From stdpp Require Import gmap strings list fin_maps.

Local Open Scope string_scope.
Set Warnings "-clear-no-such-hyp".

(** ** Futures, responses and requests (libprocess) *)

(** The states of a [process::Future]. *)
Inductive Future (A : Type) : Type :=
  | Pending
  | Ready (a : A)
  | Failed (failure : string)
  | Discarded.
Arguments Pending {A}.
Arguments Ready {A} a.
Arguments Failed {A} failure.
Arguments Discarded {A}.

(** [Future::then]: the continuation runs on a ready future only. *)
Definition future_then {A B} (f : A → B) (x : Future A) : Future B :=
  match x with
  | Ready a => Ready (f a)
  | Pending => Pending
  | Failed e => Failed e
  | Discarded => Discarded
  end.

(** [Future::repair]: the handler runs on a failed future only. *)
Definition future_repair {A} (g : string → A) (x : Future A) : Future A :=
  match x with
  | Failed e => Ready (g e)
  | other => other
  end.

Inductive ContentType := JSON | PROTOBUF.
Inductive BodyType := BODY | PIPE.

(** A [Try<T>]: an error message or a value. *)
Inductive Try (A : Type) : Type :=
  | TryError (error : string)
  | TrySome (a : A).
Arguments TryError {A} error.
Arguments TrySome {A} a.

(** A [Result<T>]: nothing, a value, or an error message. *)
Inductive Result (A : Type) : Type :=
  | ResultNone
  | ResultSome (a : A)
  | ResultError (error : string).
Arguments ResultNone {A}.
Arguments ResultSome {A} a.
Arguments ResultError {A} error.

(** A [Pipe] is created per call; its two ends are all the handler uses. *)
Inductive Pipe := NewPipe.
Inductive PipeReader := pipe_reader (p : Pipe).
Inductive PipeWriter := pipe_writer (p : Pipe).

Record Response := mkResponse {
  status : nat;
  body : string;
  type : BodyType;
  headers : gmap string string;
  reader : option PipeReader
}.

Definition response (code : nat) (msg : string) : Response :=
  mkResponse code msg BODY ∅ None.

Definition dquote : string := String (Ascii.ascii_of_nat 34) EmptyString.

Definition OK : Response := response 200 EmptyString.
Definition Accepted : Response := response 202 EmptyString.
Definition BadRequest (msg : string) : Response := response 400 msg.
Definition Unauthorized (realm msg : string) : Response :=
  mkResponse 401 msg BODY
    {[ "WWW-authenticate" := "Basic realm=" +:+ dquote +:+ realm +:+ dquote ]} None.
Definition Forbidden (msg : string) : Response := response 403 msg.
Definition MethodNotAllowed (msg : string) : Response := response 405 msg.
Definition NotAcceptable (msg : string) : Response := response 406 msg.
Definition Conflict (msg : string) : Response := response 409 msg.
Definition UnsupportedMediaType (msg : string) : Response := response 415 msg.
Definition NotImplemented : Response := response 501 EmptyString.
Definition ServiceUnavailable (msg : string) : Response := response 503 msg.

Record Request := mkRequest {
  method : string;
  req_headers : gmap string string;
  req_body : string
}.

(** ** Data model (mesos.proto, master.hpp, machine.hpp) *)

Abbreviation FrameworkID := string (only parsing).
Abbreviation SlaveID := string (only parsing).
Abbreviation OfferID := string (only parsing).
Abbreviation UPID := string (only parsing).

Record MachineID := mkMachineID { hostname : string; ip : string }.

Global Instance MachineID_eq_dec : EqDecision MachineID.
Proof. solve_decision. Defined.

Global Instance MachineID_countable : Countable MachineID :=
  inj_countable' (λ id, (hostname id, ip id)) (λ p, mkMachineID p.1 p.2)
    (λ id, match id with mkMachineID _ _ => eq_refl end).

Record DiskInfo := mkDiskInfo { persistence : option string; volume : option string }.

(** One [Resource] message.  The quantity is kept as a number of units;
    how quantities add up and cancel is left to the resource algebra
    below. *)
Record Resource := mkResource {
  name : string;
  amount : N;
  role : option string;
  reservation : option string;
  disk : option DiskInfo
}.

Global Instance DiskInfo_eq_dec : EqDecision DiskInfo.
Proof. solve_decision. Defined.
Global Instance Resource_eq_dec : EqDecision Resource.
Proof. solve_decision. Defined.

(** [Resources] wraps a repeated field of [Resource]. *)
Abbreviation Resources := (list Resource) (only parsing).

(** [Offer::Operation], restricted to the four types the operator
    endpoints build. *)
Inductive Operation :=
  | RESERVE (resources : Resources)
  | UNRESERVE (resources : Resources)
  | CREATE (volumes : Resources)
  | DESTROY (volumes : Resources).

(** The arithmetic of [Resources] (common/resources.cpp) is not part of
    this file; the handlers use it through this interface. *)
Class ResourceAlgebra := {
  res_add : Resources → Resources → Resources;          (* operator+= *)
  res_sub : Resources → Resources → Resources;          (* operator-= *)
  res_eqb : Resources → Resources → bool;               (* operator== *)
  res_apply : Resources → Operation → option Resources  (* Resources::apply, a Try *)
}.

Record Offer := mkOffer {
  offer_id : OfferID;
  offer_framework_id : FrameworkID;
  offer_slave_id : SlaveID;
  offer_resources : Resources
}.

Record Framework := mkFramework {
  connected : bool;
  fw_principal : option string;
  fw_offers : list OfferID
}.

Record Slave := mkSlave {
  pid : UPID;
  machineId : MachineID;
  checkpointedResources : Resources;
  slave_offers : list Offer   (* hashset<Offer*>, in iteration order *)
}.

Inductive Mode := UP | DRAINING | DOWN.

Global Instance Mode_eq_dec : EqDecision Mode.
Proof. solve_decision. Defined.

Record Unavailability := mkUnavailability { start : Z; duration : option Z }.

Record MachineInfo := mkMachineInfo {
  id : MachineID;
  mode : Mode;
  unavailability : option Unavailability
}.

Record Machine := mkMachine {
  info : MachineInfo;
  machine_slaves : gset SlaveID
}.

Record Window := mkWindow {
  machine_ids : list MachineID;
  window_unavailability : Unavailability
}.

Record Schedule := mkSchedule { windows : list Window }.

Record Credential := mkCredential { principal : string; secret : string }.

(** The request handed to the authorizer by the teardown endpoint
    ([ACL::ShutdownFramework]); [None] stands for the entity ANY. *)
Record ShutdownFramework := mkShutdownFramework {
  acl_principals : option string;
  acl_framework_principals : option string
}.

Inductive RegistrarOperation :=
  | UpdateSchedule (schedule : Schedule)
  | StartMaintenance (ids : list MachineID)
  | StopMaintenance (ids : list MachineID).

(** What the master emits towards its collaborators, in order. *)
Inductive Event :=
  | RecoverResources (f : FrameworkID) (s : SlaveID) (r : Resources)
  | RescindResourceOffer (f : FrameworkID) (o : OfferID)
  | ShutdownMessage (to : UPID) (message : string)
  | ApplyOperation (s : SlaveID) (op : Operation)
  | RegistrarApply (op : RegistrarOperation).

Record Master := mkMaster {
  elected : bool;
  recovered : option (Future unit);
  authenticate_frameworks : bool;                  (* flags *)
  credentials : option (list Credential);
  authorizer : option (ShutdownFramework → bool);
  frameworks : gmap FrameworkID Framework;         (* frameworks.registered *)
  slaves : gmap SlaveID Slave;                     (* slaves.registered *)
  offers : gmap OfferID Offer;
  machines : gmap MachineID Machine;
  schedules : list Schedule;                       (* maintenance.schedules *)
  sent : list Event
}.

Definition set_frameworks (f : gmap FrameworkID Framework) (m : Master) : Master :=
  mkMaster (elected m) (recovered m) (authenticate_frameworks m) (credentials m)
    (authorizer m) f (slaves m) (offers m) (machines m) (schedules m) (sent m).
Definition set_slaves (s : gmap SlaveID Slave) (m : Master) : Master :=
  mkMaster (elected m) (recovered m) (authenticate_frameworks m) (credentials m)
    (authorizer m) (frameworks m) s (offers m) (machines m) (schedules m) (sent m).
Definition set_offers (o : gmap OfferID Offer) (m : Master) : Master :=
  mkMaster (elected m) (recovered m) (authenticate_frameworks m) (credentials m)
    (authorizer m) (frameworks m) (slaves m) o (machines m) (schedules m) (sent m).
Definition set_machines (ms : gmap MachineID Machine) (m : Master) : Master :=
  mkMaster (elected m) (recovered m) (authenticate_frameworks m) (credentials m)
    (authorizer m) (frameworks m) (slaves m) (offers m) ms (schedules m) (sent m).
Definition set_schedules (ss : list Schedule) (m : Master) : Master :=
  mkMaster (elected m) (recovered m) (authenticate_frameworks m) (credentials m)
    (authorizer m) (frameworks m) (slaves m) (offers m) (machines m) ss (sent m).
Definition emit (e : Event) (m : Master) : Master :=
  mkMaster (elected m) (recovered m) (authenticate_frameworks m) (credentials m)
    (authorizer m) (frameworks m) (slaves m) (offers m) (machines m) (schedules m)
    (sent m ++ [e]).

(** What a handler leaves behind: the new state with the future of its
    response, an abort of the process (a failed CHECK, LOG(FATAL)), or
    nothing the language defines (an index past the end of a vector). *)
Inductive Outcome :=
  | Responded (m : Master) (r : Future Response)
  | Aborted (why : string)
  | Undefined (why : string).

Definition respond (m : Master) (r : Response) : Outcome := Responded m (Ready r).


(** ** Scheduler call dispatch *)

Inductive CallType :=
  | SUBSCRIBE | TEARDOWN | ACCEPT | DECLINE | REVIVE | SUPPRESS | KILL
  | SHUTDOWN | ACKNOWLEDGE | RECONCILE | MESSAGE | REQUEST | UNKNOWN.

Global Instance CallType_eq_dec : EqDecision CallType.
Proof. solve_decision. Defined.

Record Call := mkCall {
  call_type : CallType;
  framework_id : FrameworkID;
  call_payload : string
}.

Record HttpConnection := mkHttpConnection {
  writer : PipeWriter;
  contentType : ContentType
}.

(** Parsing, validation and content negotiation are collaborators of
    the handler (protobuf, stout, libprocess, master/validation). *)
Class SchedulerWire := {
  V1Call : Type;
  JSONValue : Type;
  APPLICATION_JSON : string;
  APPLICATION_PROTOBUF : string;
  ParseFromString : string → option V1Call;
  JSON_parse : string → Try JSONValue;
  protobuf_parse : JSONValue → Try V1Call;
  devolve : V1Call → Call;
  validate : Call → option string;
  acceptsMediaType : Request → string → bool;
  stringify : ContentType → string
}.

(** The master's own call handlers (master.cpp); each one is a
    fire-and-forget mutation of the master's state. *)
Class MasterActions := {
  subscribe : HttpConnection → Call → Master → Master;
  removeFramework : FrameworkID → Master → Master;
  accept : FrameworkID → Call → Master → Master;
  decline : FrameworkID → Call → Master → Master;
  revive : FrameworkID → Master → Master;
  suppress : FrameworkID → Master → Master;
  kill : FrameworkID → Call → Master → Master;
  shutdown : FrameworkID → Call → Master → Master;
  acknowledge : FrameworkID → Call → Master → Master;
  reconcile : FrameworkID → Call → Master → Master;
  message : FrameworkID → Call → Master → Master;
  master_request : FrameworkID → Call → Master → Master   (* Master::request *)
}.

(** Modelled from the spec: [Master::getFramework] is not in this file;
    a framework "exists" when it is in the registered frameworks. *)
Definition getFramework (m : Master) (frameworkId : FrameworkID) : option Framework :=
  frameworks m !! frameworkId.

Definition isReady {A} (f : Future A) : bool :=
  match f with Ready _ => true | _ => false end.

Section Scheduler.
Context `{SchedulerWire} `{MasterActions}.

(** The body of the request turned into a call, by its declared
    content type (lines 744-779). *)
Definition decode_call (request : Request) : Response + Call :=
  match req_headers request !! "Content-Type" with
  | None => inl (BadRequest "Expecting 'Content-Type' to be present")
  | Some contentType =>
    if decide (contentType = APPLICATION_PROTOBUF) then
      match ParseFromString (req_body request) with
      | None => inl (BadRequest "Failed to parse body into Call protobuf")
      | Some v1Call => inr (devolve v1Call)
      end
    else if decide (contentType = APPLICATION_JSON) then
      match JSON_parse (req_body request) with
      | TryError e => inl (BadRequest ("Failed to parse body into JSON: " +:+ e))
      | TrySome value =>
        match protobuf_parse value with
        | TryError e =>
          inl (BadRequest ("Failed to convert JSON into Call protobuf: " +:+ e))
        | TrySome v1Call => inr (devolve v1Call)
        end
      end
    else
      inl (UnsupportedMediaType
             ("Expecting 'Content-Type' of " +:+ APPLICATION_JSON +:+ " or " +:+
              APPLICATION_PROTOBUF))
  end.

(** The streaming 200 response of a subscription. *)
Definition ok_pipe (responseContentType : ContentType) (pipe : Pipe) : Response :=
  mkResponse 200 EmptyString PIPE
    {[ "Content-Type" := stringify responseContentType ]}
    (Some (pipe_reader pipe)).

(** Lines 788-878: the call is routed by its type. *)
Definition dispatch (m : Master) (request : Request) (call : Call) : Outcome :=
  if decide (call_type call = SUBSCRIBE) then
    let negotiated :=
      if acceptsMediaType request APPLICATION_JSON then Some JSON
      else if acceptsMediaType request APPLICATION_PROTOBUF then Some PROTOBUF
      else None in
    match negotiated with
    | None =>
      respond m (NotAcceptable
        ("Expecting 'Accept' to allow '" +:+ APPLICATION_PROTOBUF +:+ "' or '" +:+
         APPLICATION_JSON +:+ "'"))
    | Some responseContentType =>
      let pipe := NewPipe in
      let ok := ok_pipe responseContentType pipe in
      let http := mkHttpConnection (pipe_writer pipe) responseContentType in
      Responded (subscribe http call m) (Ready ok)
    end
  else
    match getFramework m (framework_id call) with
    | None => respond m (BadRequest "Framework cannot be found")
    | Some framework =>
      if negb (connected framework) then
        respond m (Forbidden "Framework is not subscribed")
      else
        let fid := framework_id call in
        match call_type call with
        | TEARDOWN => respond (removeFramework fid m) Accepted
        | ACCEPT => respond (accept fid call m) Accepted
        | DECLINE => respond (decline fid call m) Accepted
        | REVIVE => respond (revive fid m) Accepted
        | SUPPRESS => respond (suppress fid m) Accepted
        | KILL => respond (kill fid call m) Accepted
        | SHUTDOWN => respond (shutdown fid call m) Accepted
        | ACKNOWLEDGE => respond (acknowledge fid call m) Accepted
        | RECONCILE => respond (reconcile fid call m) Accepted
        | MESSAGE => respond (message fid call m) Accepted
        | REQUEST => respond (master_request fid call m) Accepted
        | SUBSCRIBE | UNKNOWN => Aborted "Unexpected call"
        end
    end.

(** [Master::Http::scheduler]. *)
Definition scheduler (m : Master) (request : Request) : Outcome :=
  if negb (elected m) then
    respond m (ServiceUnavailable "Not the leading master")
  else
    match recovered m with
    | None => Aborted "CHECK_SOME(master->recovered)"
    | Some recovery =>
      if negb (isReady recovery) then
        respond m (ServiceUnavailable "Master has not finished recovery")
      else if authenticate_frameworks m then
        respond m (Unauthorized "Mesos master"
          "HTTP schedulers are not supported when authentication is required")
      else if decide (method request ≠ "POST") then
        respond m (MethodNotAllowed
          ("Expecting a 'POST' request, received '" +:+ method request +:+ "'"))
      else
        match decode_call request with
        | inl rejected => respond m rejected
        | inr call =>
          match validate call with
          | Some error =>
            respond m (BadRequest ("Failed to validate Scheduler::Call: " +:+ error))
          | None => dispatch m request call
          end
        end
    end.

(** A request that passes every check before dispatch and carries
    the call [call]. *)
Definition valid_call (m : Master) (request : Request) (call : Call) : Prop :=
  elected m = true ∧
  (∃ recovery, recovered m = Some recovery ∧ isReady recovery = true) ∧
  authenticate_frameworks m = false ∧
  method request = "POST" ∧
  decode_call request = inr call ∧
  validate call = None.

End Scheduler.

(** ** Operator endpoints: authentication and resource operations *)

(** Decoding and validation used by the operator endpoints (stout,
    libprocess, master/validation). *)
Class OperatorWire := {
  JSON_Value : Type;
  query_decode : string → Try (gmap string string);
  JSON_parse_array : string → Try (list JSON_Value);
  protobuf_parse_Resource : JSON_Value → Try Resource;
  base64_decode : string → Try string;
  split : string → string → nat → list string;
  validate_reserve : Resources → option string → option string;
  validate_unreserve : Resources → bool → option string;
  validate_create : Resources → Resources → option string;
  validate_destroy : Resources → Resources → option string
}.

Definition clear_disk (resource : Resource) : Resource :=
  mkResource (name resource) (amount resource) (role resource)
    (reservation resource) None.

(** [removeDiskInfos] (lines 895-904). *)
Definition removeDiskInfos (resources : Resources) : Resources :=
  clear_disk <$> resources.

(** Modelled from the spec: [Resources::flatten] is not in this file;
    flattening strips the role and the reservation info. *)
Definition flatten (resources : Resources) : Resources :=
  (λ resource, mkResource (name resource) (amount resource) None None (disk resource))
    <$> resources.

(** Modelled from the spec: [Master::removeOffer] with [rescind] set is
    not in this file; the offer leaves the entity store (the master's
    offers, its agent and its framework) and the owning framework is
    told that it is rescinded. *)
Definition removeOffer (offer : Offer) (m : Master) : Master :=
  let without := filter (λ o, offer_id o ≠ offer_id offer) in
  let m := set_frameworks
    (alter (λ f, mkFramework (connected f) (fw_principal f)
                   (filter (λ o, o ≠ offer_id offer) (fw_offers f)))
       (offer_framework_id offer) (frameworks m)) m in
  let m := set_slaves
    (alter (λ s, mkSlave (pid s) (machineId s) (checkpointedResources s)
                   (without (slave_offers s)))
       (offer_slave_id offer) (slaves m)) m in
  let m := emit (RescindResourceOffer (offer_framework_id offer) (offer_id offer)) m in
  set_offers (delete (offer_id offer) (offers m)) m.

(** Modelled from the spec: [Master::apply] is not in this file; the
    operation is submitted for application against the agent, and the
    call settles later. *)
Definition master_apply (slaveId : SlaveID) (operation : Operation) (m : Master) : Master :=
  emit (ApplyOperation slaveId operation) m.

Section Operations.
Context `{ResourceAlgebra}.

(** The state of the rescission loop of [_operation]. *)
Record Rescission := mkRescission {
  required : Resources;
  recovered_resources : Resources;
  master : Master
}.

(** One offer of the loop (lines 2674-2700): [inl] when the loop
    breaks, [inr] when it goes on to the next offer. *)
Definition rescind_offer (operation : Operation) (offer : Offer) (st : Rescission)
  : Rescission + Rescission :=
  if res_eqb (required st) (res_sub (required st) (offer_resources offer)) then
    inr st
  else
    let recovered := res_add (recovered_resources st) (offer_resources offer) in
    let required := res_sub (required st) (offer_resources offer) in
    let m := emit (RecoverResources (offer_framework_id offer) (offer_slave_id offer)
                     (offer_resources offer)) (master st) in
    let m := removeOffer offer m in
    let st := mkRescission required recovered m in
    match res_apply recovered operation with
    | Some updatedRecovered => inl st
    | None => inr st
    end.

(** The loop over the agent's offers; [inl] when it stopped at a
    [break], [inr] when it ran out of offers. *)
Fixpoint rescind (operation : Operation) (offers : list Offer) (st : Rescission)
  : Rescission + Rescission :=
  match offers with
  | [] => inr st
  | offer :: rest =>
    match rescind_offer operation offer st with
    | inl done => inl done
    | inr st => rescind operation rest st
    end
  end.

Definition after_loop (loop : Rescission + Rescission) : Rescission :=
  match loop with inl st | inr st => st end.

(** [Master::Http::_operation]; [applied] is what the future returned by
    [master->apply] settles to. *)
Definition _operation (m : Master) (slaveId : SlaveID) (required : Resources)
    (operation : Operation) (applied : Future unit) : Outcome :=
  match slaves m !! slaveId with
  | None => respond m (BadRequest "No slave found with specified ID")
  | Some slave =>
    let st := after_loop
      (rescind operation (slave_offers slave) (mkRescission required [] m)) in
    Responded (master_apply slaveId operation (master st))
      (future_repair Conflict (future_then (λ _, OK) applied))
  end.

Context `{OperatorWire}.

(** [Master::Http::authenticate]; [None] when the source reads element 1
    of a vector that has fewer than two elements. *)
Definition authenticate (m : Master) (request : Request) : option (Result Credential) :=
  match credentials m with
  | None => Some ResultNone
  | Some stored =>
    match req_headers request !! "Authorization" with
    | None => Some (ResultError "Missing 'Authorization' request header")
    | Some authorization =>
      match split authorization " " 2 !! 1%nat with
      | None => None
      | Some encoded =>
        match base64_decode encoded with
        | TryError e =>
          Some (ResultError ("Failed to decode 'Authorization' header: " +:+ e))
        | TrySome decoded =>
          match split decoded ":" 2 with
          | [username; password] =>
            match find (λ credential,
                     bool_decide (principal credential = username) &&
                     bool_decide (secret credential = password)) stored with
            | Some credential => Some (ResultSome credential)
            | None =>
              Some (ResultError ("Could not authenticate '" +:+ username +:+ "'"))
            end
          | _ => Some (ResultError "Malformed 'Authorization' request header")
          end
        end
      end
    end
  end.

Definition isSome {A} (r : Result A) : bool :=
  match r with ResultSome _ => true | _ => false end.

(** The [Resources] built from a parsed JSON array, one [+=] each. *)
Fixpoint parse_resources (param : string) (values : list JSON_Value)
    (resources : Resources) : Response + Resources :=
  match values with
  | [] => inr resources
  | value :: rest =>
    match protobuf_parse_Resource value with
    | TryError e =>
      inl (BadRequest ("Error in parsing '" +:+ param +:+ "' query parameter: " +:+ e))
    | TrySome resource => parse_resources param rest (res_add resources [resource])
    end
  end.

(** The steps the four resource endpoints share, in the order of the
    source: method, credentials, form body, agent, resource list.  The
    rest of the endpoint is the continuation [k]. *)
Definition operator_request (m : Master) (request : Request) (param : string)
    (k : SlaveID → Slave → Result Credential → Resources → Outcome) : Outcome :=
  if decide (method request ≠ "POST") then respond m (BadRequest "Expecting POST")
  else
    match authenticate m request with
    | None => Undefined "split(authorization)[1]"
    | Some (ResultError e) => respond m (Unauthorized "Mesos master" e)
    | Some credential =>
      match query_decode (req_body request) with
      | TryError e => respond m (BadRequest ("Unable to decode query string: " +:+ e))
      | TrySome values =>
        match values !! "slaveId" with
        | None => respond m (BadRequest "Missing 'slaveId' query parameter")
        | Some slaveId =>
          match slaves m !! slaveId with
          | None => respond m (BadRequest "No slave found with specified ID")
          | Some slave =>
            match values !! param with
            | None =>
              respond m (BadRequest ("Missing '" +:+ param +:+ "' query parameter"))
            | Some array =>
              match JSON_parse_array array with
              | TryError e =>
                respond m (BadRequest
                  ("Error in parsing '" +:+ param +:+ "' query parameter: " +:+ e))
              | TrySome parsed =>
                match parse_resources param parsed [] with
                | inl rejected => respond m rejected
                | inr resources => k slaveId slave credential resources
                end
              end
            end
          end
        end
      end
    end.

(** [Master::Http::createVolumes]. *)
Definition createVolumes (m : Master) (request : Request) (applied : Future unit)
  : Outcome :=
  operator_request m request "volumes" (λ slaveId slave credential volumes,
    let operation := CREATE volumes in
    match validate_create volumes (checkpointedResources slave) with
    | Some error => respond m (BadRequest ("Invalid CREATE operation: " +:+ error))
    | None => _operation m slaveId (removeDiskInfos volumes) operation applied
    end).

(** [Master::Http::destroyVolumes]. *)
Definition destroyVolumes (m : Master) (request : Request) (applied : Future unit)
  : Outcome :=
  operator_request m request "volumes" (λ slaveId slave credential volumes,
    let operation := DESTROY volumes in
    match validate_destroy volumes (checkpointedResources slave) with
    | Some error => respond m (BadRequest ("Invalid DESTROY operation: " +:+ error))
    | None => _operation m slaveId volumes operation applied
    end).

(** [Master::Http::reserve]. *)
Definition reserve (m : Master) (request : Request) (applied : Future unit)
  : Outcome :=
  operator_request m request "resources" (λ slaveId slave credential resources,
    let operation := RESERVE resources in
    let principal :=
      match credential with
      | ResultSome c => Some (principal c)
      | _ => None
      end in
    match validate_reserve resources principal with
    | Some error => respond m (BadRequest ("Invalid RESERVE operation: " +:+ error))
    | None => _operation m slaveId (flatten resources) operation applied
    end).

(** [Master::Http::unreserve]. *)
Definition unreserve (m : Master) (request : Request) (applied : Future unit)
  : Outcome :=
  operator_request m request "resources" (λ slaveId slave credential resources,
    let operation := UNRESERVE resources in
    match validate_unreserve resources (isSome credential) with
    | Some error => respond m (BadRequest ("Invalid UNRESERVE operation: " +:+ error))
    | None => _operation m slaveId resources operation applied
    end).

Context `{MasterActions}.

(** [Master::Http::_teardown]. *)
Definition _teardown (m : Master) (id : FrameworkID) : Outcome :=
  match getFramework m id with
  | None => respond m (BadRequest ("No framework found with ID " +:+ id))
  | Some framework => respond (removeFramework id m) OK
  end.

(** [Master::Http::teardown]; the authorizer's future is taken as
    settled to its boolean. *)
Definition teardown (m : Master) (request : Request) : Outcome :=
  if decide (method request ≠ "POST") then respond m (BadRequest "Expecting POST")
  else
    match authenticate m request with
    | None => Undefined "split(authorization)[1]"
    | Some (ResultError e) => respond m (Unauthorized "Mesos master" e)
    | Some credential =>
      match query_decode (req_body request) with
      | TryError e => respond m (BadRequest ("Unable to decode query string: " +:+ e))
      | TrySome values =>
        match values !! "frameworkId" with
        | None => respond m (BadRequest "Missing 'frameworkId' query parameter")
        | Some id =>
          match getFramework m id with
          | None => respond m (BadRequest "No framework found with specified ID")
          | Some framework =>
            match authorizer m with
            | None => _teardown m id
            | Some authorize =>
              let shutdown := mkShutdownFramework
                (match credential with
                 | ResultSome c => Some (principal c)
                 | _ => None
                 end)
                (fw_principal framework) in
              if negb (authorize shutdown) then
                respond m (Unauthorized "Mesos master" EmptyString)
              else _teardown m id
            end
          end
        end
      end
    end.

End Operations.

(** ** Machine maintenance lifecycle *)

(** Decoding and rendering used by the maintenance endpoints. *)
Class MaintenanceWire := {
  JSON_Object : Type;
  JSON_Array : Type;
  JSON_parse_Object : string → Try JSON_Object;
  JSON_parse_Array : string → Try JSON_Array;
  protobuf_parse_Schedule : JSON_Object → Try Schedule;
  protobuf_parse_MachineIDs : JSON_Array → Try (list MachineID);
  validation_machines : list MachineID → Try unit;
  stringify_MachineID : MachineID → string;
  JSON_protobuf_Schedule : Schedule → string
}.

(** A default-constructed [Machine], as [machines[id]] creates one for
    an absent key. *)
Definition default_machine : Machine :=
  mkMachine (mkMachineInfo (mkMachineID EmptyString EmptyString) UP None) ∅.

(** [machines[id]] read. *)
Definition machine_at (id : MachineID) (ms : gmap MachineID Machine) : Machine :=
  default default_machine (ms !! id).

(** [machines[id]] updated in place. *)
Definition update_machine (f : Machine → Machine) (id : MachineID)
    (ms : gmap MachineID Machine) : gmap MachineID Machine :=
  <[ id := f (machine_at id ms) ]> ms.

Definition set_mode (md : Mode) (machine : Machine) : Machine :=
  mkMachine (mkMachineInfo (id (info machine)) md (unavailability (info machine)))
    (machine_slaves machine).

Definition set_unavailability (u : option Unavailability) (machine : Machine) : Machine :=
  mkMachine (mkMachineInfo (id (info machine)) (mode (info machine)) u)
    (machine_slaves machine).

(** [machines[id].info.CopyFrom(info)]. *)
Definition set_info (i : MachineInfo) (machine : Machine) : Machine :=
  mkMachine i (machine_slaves machine).

(** The mode a machine is in; machines the master does not track are up. *)
Definition mode_of (id : MachineID) (m : Master) : Mode :=
  match machines m !! id with
  | Some machine => mode (info machine)
  | None => UP
  end.

(** Modelled from the spec: [Master::updateUnavailability] is not in
    this file; the machine's unavailability is replaced by the given
    one, or cleared. *)
Definition updateUnavailability (id : MachineID) (u : option Unavailability)
    (m : Master) : Master :=
  set_machines (update_machine (set_unavailability u) id (machines m)) m.

(** Modelled from the spec: [Master::removeSlave] is not in this file;
    the agent leaves the entity store: the registered agents and the
    agents of its machine. *)
Definition removeSlave (slaveId : SlaveID) (slave : Slave) (m : Master) : Master :=
  let m := set_slaves (delete slaveId (slaves m)) m in
  set_machines
    (alter (λ machine, mkMachine (info machine) (machine_slaves machine ∖ {[ slaveId ]}))
       (machineId slave) (machines m)) m.

(** The machines a schedule names, window by window. *)
Definition scheduled (schedule : Schedule) : list MachineID :=
  w ← windows schedule; machine_ids w.

(** Modelled from the spec: [maintenance::validation::schedule] is not
    in this file; a schedule only moves machines between UP and
    DRAINING, so no machine that is already DOWN may appear in it. *)
Definition validation_schedule (schedule : Schedule)
    (ms : gmap MachineID Machine) : Try unit :=
  match find (λ id, bool_decide (mode (info (machine_at id ms)) = DOWN))
          (scheduled schedule) with
  | Some id => TryError "Machine is DOWN and cannot be scheduled"
  | None => TrySome tt
  end.

(** Lines 2204-2209: the machines of the new schedule with their
    unavailability. *)
Definition collect_updated (schedule : Schedule) : gmap MachineID Unavailability :=
  foldl (λ updated window,
           foldl (λ updated id, <[ id := window_unavailability window ]> updated)
             updated (machine_ids window))
    ∅ (windows schedule).

(** Lines 2213-2224, one known machine. *)
Definition update_known (updated : gmap MachineID Unavailability) (m : Master)
    (id : MachineID) : Master :=
  match updated !! id with
  | Some u => updateUnavailability id (Some u) m
  | None =>
    let m := set_machines (update_machine (set_mode UP) id (machines m)) m in
    updateUnavailability id None m
  end.

(** Lines 2228-2238, one machine of one window. *)
Definition save_machine (window : Window) (m : Master) (id : MachineID) : Master :=
  let info := mkMachineInfo id DRAINING None in
  let m := set_machines (update_machine (set_info info) id (machines m)) m in
  updateUnavailability id (Some (window_unavailability window)) m.

(** The continuation of the schedule update (lines 2189-2245), run with
    the registrar's answer. *)
Definition maintenanceSchedule_then (schedule : Schedule) (result : bool)
    (m : Master) : Outcome :=
  if negb result then Aborted "CHECK(result)"
  else
    let updated := collect_updated schedule in
    let known := (map_to_list (machines m)).*1 in
    let m := foldl (update_known updated) m known in
    let m := foldl (λ m window, foldl (save_machine window) m (machine_ids window))
               m (windows schedule) in
    let m := set_schedules [] m in
    let m := set_schedules (schedules m ++ [schedule]) m in
    respond m OK.

(** Lines 2289-2301 and 2390-2402: every machine must be known and in
    the mode [expected]. *)
Fixpoint check_machines `{MaintenanceWire} (expected : Mode) (complaint : string)
    (ids : list MachineID) (m : Master) : option Response :=
  match ids with
  | [] => None
  | id :: rest =>
    match machines m !! id with
    | None =>
      Some (BadRequest ("Machine '" +:+ stringify_MachineID id +:+
                        "' is not part of a maintenance schedule"))
    | Some machine =>
      if decide (mode (info machine) ≠ expected) then
        Some (BadRequest ("Machine '" +:+ stringify_MachineID id +:+ complaint))
      else check_machines expected complaint rest m
    end
  end.

(** Lines 2322-2337: the agents of one machine; [None] when
    [CHECK_NOTNULL(slave)] fails. *)
Fixpoint shutdown_slaves (slaveIds : list SlaveID) (m : Master) : option Master :=
  match slaveIds with
  | [] => Some m
  | slaveId :: rest =>
    match slaves m !! slaveId with
    | None => None
    | Some slave =>
      let m := emit (ShutdownMessage (pid slave) "Operator initiated 'Machine DOWN'") m in
      shutdown_slaves rest (removeSlave slaveId slave m)
    end
  end.

(** Lines 2316-2339. *)
Fixpoint shutdown_machines (ids : list MachineID) (m : Master) : option Master :=
  match ids with
  | [] => Some m
  | machineId :: rest =>
    match machines m !! machineId with
    | None => shutdown_machines rest m
    | Some machine =>
      match shutdown_slaves (elements (machine_slaves machine)) m with
      | None => None
      | Some m => shutdown_machines rest m
      end
    end
  end.

Definition mark (md : Mode) (m : Master) (id : MachineID) : Master :=
  set_machines (update_machine (set_mode md) id (machines m)) m.

(** The continuation of machine-down (lines 2305-2347). *)
Definition machineDown_then (ids : list MachineID) (result : bool) (m : Master)
  : Outcome :=
  if negb result then Aborted "CHECK(result)"
  else
    match shutdown_machines ids m with
    | None => Aborted "CHECK_NOTNULL(slave)"
    | Some m => respond (foldl (mark DOWN) m ids) OK
    end.

(** [DeleteSubrange(k, 1)] on a repeated field. *)
Definition DeleteSubrange {A} (k : nat) (l : list A) : list A := delete k l.

(** Lines 2427-2431: [k] counts down from the size of the window. *)
Fixpoint delete_machines (updated : gset MachineID) (k : nat)
    (ids : list MachineID) : list MachineID :=
  match k with
  | O => ids
  | S k =>
    let ids :=
      match ids !! k with
      | Some id => if decide (id ∈ updated) then DeleteSubrange k ids else ids
      | None => ids
      end in
    delete_machines updated k ids
  end.

(** Lines 2423-2437: [j] counts down from the number of windows. *)
Fixpoint delete_windows (updated : gset MachineID) (j : nat)
    (ws : list Window) : list Window :=
  match j with
  | O => ws
  | S j =>
    let ws :=
      match ws !! j with
      | Some window =>
        let window :=
          mkWindow (delete_machines updated (length (machine_ids window))
                      (machine_ids window))
            (window_unavailability window) in
        if decide (length (machine_ids window) = 0%nat)
        then DeleteSubrange j ws
        else <[ j := window ]> ws
      | None => ws
      end in
    delete_windows updated j ws
  end.

(** Lines 2420-2445: the list of schedules, front to back. *)
Fixpoint delete_schedules (updated : gset MachineID) (ss : list Schedule)
  : list Schedule :=
  match ss with
  | [] => []
  | schedule :: rest =>
    let schedule :=
      mkSchedule (delete_windows updated (length (windows schedule))
                    (windows schedule)) in
    if decide (length (windows schedule) = 0%nat)
    then delete_schedules updated rest
    else schedule :: delete_schedules updated rest
  end.

(** Lines 2412-2417, one machine. *)
Definition reactivate (st : Master * gset MachineID) (id : MachineID)
  : Master * gset MachineID :=
  let m := mark UP st.1 id in
  let m := set_machines (update_machine (set_unavailability None) id (machines m)) m in
  (m, {[ id ]} ∪ st.2).

(** The continuation of machine-up (lines 2406-2448). *)
Definition machineUp_then (ids : list MachineID) (result : bool) (m : Master)
  : Outcome :=
  if negb result then Aborted "CHECK(result)"
  else
    let '(m, updated) := foldl reactivate (m, ∅) ids in
    respond (set_schedules (delete_schedules updated (schedules m)) m) OK.

Section Maintenance.
Context `{MaintenanceWire}.

(** [Master::Http::maintenanceSchedule]; [result] is the registrar's
    answer to the update. *)
Definition maintenanceSchedule (m : Master) (request : Request) (result : bool)
  : Outcome :=
  if decide (method request ≠ "GET" ∧ method request ≠ "POST") then
    respond m (BadRequest ("Expecting GET or POST, got '" +:+ method request +:+ "'"))
  else if decide (method request = "GET") then
    let schedule :=
      match schedules m with
      | [] => mkSchedule []
      | front :: _ => front
      end in
    respond m (response 200 (JSON_protobuf_Schedule schedule))
  else
    match JSON_parse_Object (req_body request) with
    | TryError e => respond m (BadRequest e)
    | TrySome jsonSchedule =>
      match protobuf_parse_Schedule jsonSchedule with
      | TryError e => respond m (BadRequest e)
      | TrySome schedule =>
        match validation_schedule schedule (machines m) with
        | TryError e => respond m (BadRequest e)
        | TrySome _ =>
          maintenanceSchedule_then schedule result
            (emit (RegistrarApply (UpdateSchedule schedule)) m)
        end
      end
    end.

(** The requests of machine-down and machine-up up to the registrar
    call (lines 2265-2301 and 2367-2402). *)
Definition machine_request (expected : Mode) (complaint : string) (m : Master)
    (request : Request) : Response + list MachineID :=
  if decide (method request ≠ "POST") then
    inl (BadRequest ("Expecting POST, got '" +:+ method request +:+ "'"))
  else
    match JSON_parse_Array (req_body request) with
    | TryError e => inl (BadRequest e)
    | TrySome jsonIds =>
      match protobuf_parse_MachineIDs jsonIds with
      | TryError e => inl (BadRequest e)
      | TrySome ids =>
        match validation_machines ids with
        | TryError e => inl (BadRequest e)
        | TrySome _ =>
          match check_machines expected complaint ids m with
          | Some rejected => inl rejected
          | None => inr ids
          end
        end
      end
    end.

Definition not_draining : string :=
  "' is not in DRAINING mode and cannot be brought down".
Definition not_down : string :=
  "' is not in DOWN mode and cannot be brought up".

(** [Master::Http::machineDown]. *)
Definition machineDown (m : Master) (request : Request) (result : bool) : Outcome :=
  match machine_request DRAINING not_draining m request with
  | inl rejected => respond m rejected
  | inr ids =>
    machineDown_then ids result (emit (RegistrarApply (StartMaintenance ids)) m)
  end.

(** [Master::Http::machineUp]. *)
Definition machineUp (m : Master) (request : Request) (result : bool) : Outcome :=
  match machine_request DOWN not_down m request with
  | inl rejected => respond m rejected
  | inr ids =>
    machineUp_then ids result (emit (RegistrarApply (StopMaintenance ids)) m)
  end.

End Maintenance.

(** ** Concrete collaborators and states

    Small instances of the interfaces above, on which the handlers run
    by computation. *)

Module Example.

Definition parse_call (body : string) : option Call :=
  let id := String.substring 1 (String.length body - 1) body in
  if String.prefix "S" body then Some (mkCall SUBSCRIBE id EmptyString)
  else if String.prefix "T" body then Some (mkCall TEARDOWN id EmptyString)
  else if String.prefix "K" body then Some (mkCall KILL id EmptyString)
  else None.

Definition wire : SchedulerWire := {|
  V1Call := Call;
  JSONValue := string;
  APPLICATION_JSON := "application/json";
  APPLICATION_PROTOBUF := "application/x-protobuf";
  ParseFromString := parse_call;
  JSON_parse := TrySome;
  protobuf_parse := λ value,
    match parse_call value with
    | Some call => TrySome call
    | None => TryError "not a call"
    end;
  devolve := λ call, call;
  validate := λ _, None;
  acceptsMediaType := λ request mediaType,
    match req_headers request !! "Accept" with
    | None => true
    | Some accepted => bool_decide (accepted = mediaType)
    end;
  stringify := λ contentType,
    match contentType with
    | JSON => "application/json"
    | PROTOBUF => "application/x-protobuf"
    end
|}.

Definition actions : MasterActions := {|
  subscribe := λ http call m,
    set_frameworks (<[ framework_id call := mkFramework true None [] ]> (frameworks m)) m;
  removeFramework := λ id m, set_frameworks (delete id (frameworks m)) m;
  accept := λ _ _ m, m;
  decline := λ _ _ m, m;
  revive := λ _ m, m;
  suppress := λ _ m, m;
  kill := λ _ _ m, m;
  shutdown := λ _ _ m, m;
  acknowledge := λ _ _ m, m;
  reconcile := λ _ _ m, m;
  message := λ _ _ m, m;
  master_request := λ _ _ m, m
|}.

(** A leading, recovered master with one connected and one
    disconnected framework. *)
Definition leader : Master :=
  mkMaster true (Some (Ready tt)) false None None
    {[ "connected" := mkFramework true None [];
       "disconnected" := mkFramework false None [] ]}
    ∅ ∅ ∅ [] [].

Definition post (contentType body : string) (accepts : option string) : Request :=
  mkRequest "POST"
    (match accepts with
     | Some a => {[ "Content-Type" := contentType; "Accept" := a ]}
     | None => {[ "Content-Type" := contentType ]}
     end)
    body.

End Example.

(** A resource algebra over scalar quantities: two resources add up
    and cancel when they agree on everything but the amount. *)
Module Scalars.

Definition same_kind (a b : Resource) : bool :=
  bool_decide (name a = name b ∧ role a = role b ∧
               reservation a = reservation b ∧ disk a = disk b).

Definition with_amount (n : N) (r : Resource) : Resource :=
  mkResource (name r) n (role r) (reservation r) (disk r).

Fixpoint add1 (rs : Resources) (r : Resource) : Resources :=
  match rs with
  | [] => if (amount r =? 0)%N then [] else [r]
  | x :: rest =>
    if same_kind x r then with_amount (amount x + amount r) x :: rest
    else x :: add1 rest r
  end.

Fixpoint sub1 (rs : Resources) (r : Resource) : Resources :=
  match rs with
  | [] => []
  | x :: rest =>
    if same_kind x r then
      if (amount x <=? amount r)%N then rest
      else with_amount (amount x - amount r) x :: rest
    else x :: sub1 rest r
  end.

Definition contains (rs : Resources) (r : Resource) : bool :=
  existsb (λ x, same_kind x r && (amount r <=? amount x)%N) rs.

Definition add (a b : Resources) : Resources := foldl add1 a b.
Definition sub (a b : Resources) : Resources := foldl sub1 a b.

Definition convert (rs consumed produced : Resources) : option Resources :=
  if forallb (contains rs) consumed then Some (add (sub rs consumed) produced)
  else None.

Definition algebra : ResourceAlgebra := {|
  res_add := add;
  res_sub := sub;
  res_eqb := λ a b, bool_decide (a = b);
  res_apply := λ rs operation,
    match operation with
    | RESERVE resources => convert rs (flatten resources) resources
    | UNRESERVE resources => convert rs resources (flatten resources)
    | CREATE volumes => convert rs (removeDiskInfos volumes) volumes
    | DESTROY volumes => convert rs volumes (removeDiskInfos volumes)
    end
|}.

End Scalars.

Module Agent.

Definition cpus (n : N) : Resource := mkResource "cpus" n None None None.
Definition mem (n : N) : Resource := mkResource "mem" n None None None.

Definition A : Offer := mkOffer "A" "framework" "agent" [cpus 2].
Definition B : Offer := mkOffer "B" "framework" "agent" [cpus 2].
Definition C : Offer := mkOffer "C" "framework" "agent" [cpus 2].
Definition M : Offer := mkOffer "M" "framework" "agent" [mem 64].

(** The reservation of four cpus for the role [ads]. *)
Definition wanted : Resources :=
  [mkResource "cpus" 4 (Some "ads") (Some "ops") None].

(** One agent holding the offers [A], [B] and [C]. *)
Definition master : Master :=
  mkMaster true (Some (Ready tt)) false None None
    {[ "framework" := mkFramework true None ["A"; "B"; "C"] ]}
    {[ "agent" := mkSlave "slave(1)@10.0.0.1:5051" (mkMachineID "host1" "10.0.0.1")
                    [] [A; B; C] ]}
    {[ "A" := A; "B" := B; "C" := C ]}
    ∅ [] [].

End Agent.

(** Form bodies, tokens and credentials for the operator endpoints. *)
Module Forms.

(** The text before the first [delim] and the text after it. *)
Fixpoint split_first (delim : Ascii.ascii) (s token : string) : list string :=
  match s with
  | EmptyString => [token]
  | String c rest =>
    if Ascii.eqb c delim then [token; rest]
    else split_first delim rest (token +:+ String c EmptyString)
  end.

Fixpoint split_all (delim : Ascii.ascii) (s token : string) : list string :=
  match s with
  | EmptyString => [token]
  | String c rest =>
    if Ascii.eqb c delim then token :: split_all delim rest EmptyString
    else split_all delim rest (token +:+ String c EmptyString)
  end.

(** [strings::split(s, delims, n)] for one delimiter: at most two
    tokens when [n] is 2, every token otherwise. *)
Definition split_tokens (s delims : string) (n : nat) : list string :=
  match delims with
  | String d EmptyString =>
    if (n =? 2)%nat then split_first d s EmptyString else split_all d s EmptyString
  | _ => [s]
  end.

Definition decode (body : string) : Try (gmap string string) :=
  TrySome (list_to_map
    (omap (λ pair,
             match split_tokens pair "=" 2 with
             | [key; value] => Some (key, value)
             | _ => None
             end)
       (split_tokens body "&" 0))).

(** A stand-in for base64 that is the identity on text and has no
    decoding for text that starts with a tilde. *)
Definition decode64 (s : string) : Try string :=
  if String.prefix "~" s then TryError "not base64" else TrySome s.

Definition volume : Resource :=
  mkResource "disk" 64 (Some "ads") (Some "ops")
    (Some (mkDiskInfo (Some "id1") (Some "data"))).

Definition parse_array (s : string) : Try (list Resource) :=
  if decide (s = "wanted") then TrySome Agent.wanted
  else if decide (s = "volume") then TrySome [volume]
  else TryError "not an array".

Definition wire : OperatorWire := {|
  JSON_Value := Resource;
  query_decode := decode;
  JSON_parse_array := parse_array;
  protobuf_parse_Resource := TrySome;
  base64_decode := decode64;
  split := split_tokens;
  validate_reserve := λ _ _, None;
  validate_unreserve := λ _ _, None;
  validate_create := λ _ _, None;
  validate_destroy := λ _ _, None
|}.

Definition form (authorization : option string) (body : string) : Request :=
  mkRequest "POST"
    (match authorization with
     | Some a => {[ "Authorization" := a ]}
     | None => ∅
     end)
    body.

(** The agent's master with one stored credential. *)
Definition secured : Master :=
  mkMaster true (Some (Ready tt)) false (Some [mkCredential "ops" "secret"]) None
    (frameworks Agent.master) (slaves Agent.master) (offers Agent.master) ∅ [] [].

(** The agent's master without credentials and with an authorizer
    that lets nobody shut a framework down. *)
Definition guarded : Master :=
  mkMaster true (Some (Ready tt)) false None (Some (λ _, false))
    (frameworks Agent.master) (slaves Agent.master) (offers Agent.master) ∅ [] [].

End Forms.

(** Machines, schedules and request bodies for the maintenance
    endpoints. *)
Module Cluster.

Definition machine (host : string) : MachineID := mkMachineID host EmptyString.

Definition M1 : MachineID := machine "m1".
Definition M2 : MachineID := machine "m2".
Definition M3 : MachineID := machine "m3".

Definition u1 : Unavailability := mkUnavailability 100 (Some 50%Z).
Definition u2 : Unavailability := mkUnavailability 200 None.

Definition old_schedule : Schedule := mkSchedule [mkWindow [M1; M2] u1].
Definition new_schedule : Schedule := mkSchedule [mkWindow [M2; M3] u2].

Definition wire : MaintenanceWire := {|
  JSON_Object := Schedule;
  JSON_Array := list MachineID;
  JSON_parse_Object := λ body,
    if decide (body = "new") then TrySome new_schedule
    else TryError "not a schedule";
  JSON_parse_Array := λ body, TrySome (machine <$> Forms.split_tokens body "," 0);
  protobuf_parse_Schedule := TrySome;
  protobuf_parse_MachineIDs := TrySome;
  validation_machines := λ _, TrySome tt;
  stringify_MachineID := hostname;
  JSON_protobuf_Schedule := λ _, "{}"
|}.

Definition known (id : MachineID) (md : Mode) (agents : gset SlaveID) : Machine :=
  mkMachine (mkMachineInfo id md (Some u1)) agents.

(** [M1] and [M2] are draining under the old schedule; one agent runs
    on [M1]. *)
Definition draining : Master :=
  mkMaster true (Some (Ready tt)) false None None ∅
    {[ "agent" := mkSlave "slave(1)@10.0.0.1:5051" M1 [] [] ]}
    ∅
    {[ M1 := known M1 DRAINING {[ "agent" ]}; M2 := known M2 DRAINING ∅ ]}
    [old_schedule] [].

(** [M1] has been brought down and its agent removed. *)
Definition down : Master :=
  mkMaster true (Some (Ready tt)) false None None ∅ ∅ ∅
    {[ M1 := known M1 DOWN ∅; M2 := known M2 DRAINING ∅ ]}
    [mkSchedule [mkWindow [M1] u1; mkWindow [M2] u1]] [].

Definition post (body : string) : Request := mkRequest "POST" ∅ body.

End Cluster.

Module Volumes.

Definition has_disk (resource : Resource) : bool :=
  match disk resource with
  | Some _ => true
  | None => false
  end.

(** The scalar algebra, with a CREATE that applies only to volumes
    that carry their DiskInfo; the space is taken from the resources
    without it. *)
Definition algebra : ResourceAlgebra := {|
  res_add := Scalars.add;
  res_sub := Scalars.sub;
  res_eqb := λ a b, bool_decide (a = b);
  res_apply := λ rs operation,
    match operation with
    | CREATE volumes =>
      if forallb has_disk volumes
      then Scalars.convert rs (removeDiskInfos volumes) volumes
      else None
    | other => @res_apply Scalars.algebra rs other
    end
|}.

(** The disk space that [Forms.volume] is made of. *)
Definition space : Resource := mkResource "disk" 64 (Some "ads") (Some "ops") None.

Definition free : Offer := mkOffer "D" "framework" "agent" [space].

(** One agent whose disk space is offered to a framework. *)
Definition master : Master :=
  mkMaster true (Some (Ready tt)) false None None
    {[ "framework" := mkFramework true None ["D"] ]}
    {[ "agent" := mkSlave "slave(1)@10.0.0.1:5051" (mkMachineID "host1" "10.0.0.1")
                    [] [free] ]}
    {[ "D" := free ]}
    ∅ [] [].

End Volumes.

(** ** Vocabulary of the properties *)

(** An offer is outstanding when the master holds it and its agent
    lists it. *)
Definition outstanding (o : Offer) (m : Master) : Prop :=
  offers m !! offer_id o = Some o ∧
  ∃ slave, slaves m !! offer_slave_id o = Some slave ∧ o ∈ slave_offers slave.

(** The offer with this id has been rescinded to some framework. *)
Definition told_rescinded (oid : OfferID) (m : Master) : Prop :=
  ∃ f, RescindResourceOffer f oid ∈ sent m.

(** What rescinding [offer] does to the state of the loop. *)
Definition rescinding `{ResourceAlgebra} (offer : Offer) (st : Rescission) : Rescission :=
  mkRescission
    (res_sub (required st) (offer_resources offer))
    (res_add (recovered_resources st) (offer_resources offer))
    (removeOffer offer
       (emit (RecoverResources (offer_framework_id offer) (offer_slave_id offer)
                (offer_resources offer)) (master st))).

(** The overlap test of the loop: rescinding [offer] would take
    something off what is still required. *)
Definition contributes `{ResourceAlgebra} (offer : Offer) (st : Rescission) : bool :=
  negb (res_eqb (required st) (res_sub (required st) (offer_resources offer))).

(** The request gets through the steps the resource endpoints share:
    it is a POST, authentication does not fail, the form names a
    registered agent and the list under [param] parses to [resources]. *)
Definition passes `{ResourceAlgebra} `{OperatorWire} (m : Master) (request : Request)
    (param : string) (slaveId : SlaveID) (slave : Slave)
    (credential : Result Credential) (resources : Resources) : Prop :=
  method request = "POST" ∧
  authenticate m request = Some credential ∧
  (∀ e, credential ≠ ResultError e) ∧
  ∃ values array parsed,
    query_decode (req_body request) = TrySome values ∧
    values !! "slaveId" = Some slaveId ∧
    slaves m !! slaveId = Some slave ∧
    values !! param = Some array ∧
    JSON_parse_array array = TrySome parsed ∧
    parse_resources param parsed [] = inr resources.

(** The four endpoints that submit a resource operation. *)
Definition resource_endpoints `{ResourceAlgebra} `{OperatorWire}
  : list (Master → Request → Future unit → Outcome) :=
  [createVolumes; destroyVolumes; reserve; unreserve].

(** The response, if the handler has answered with one. *)
Definition answered (o : Outcome) : option Response :=
  match o with
  | Responded _ (Ready r) => Some r
  | _ => None
  end.

(** The state the handler leaves, if it has not aborted. *)
Definition state_after (o : Outcome) : option Master :=
  match o with
  | Responded m _ => Some m
  | _ => None
  end.

(** A window with the reactivated machines taken out, unless nothing
    is left of it. *)
Definition pruned_window (updated : gset MachineID) (window : Window) : option Window :=
  let ids := filter (λ id, id ∉ updated) (machine_ids window) in
  if decide (length ids = 0%nat) then None
  else Some (mkWindow ids (window_unavailability window)).

(** A schedule with every window pruned, unless nothing is left of it. *)
Definition pruned_schedule (updated : gset MachineID) (schedule : Schedule)
  : option Schedule :=
  let ws := omap (pruned_window updated) (windows schedule) in
  if decide (length ws = 0%nat) then None else Some (mkSchedule ws).

(** The machine is tracked, in mode [md], with unavailability [u]. *)
Definition machine_is (id : MachineID) (md : Mode) (u : option Unavailability)
    (m : Master) : Prop :=
  ∃ machine, machines m !! id = Some machine ∧
             mode (info machine) = md ∧ unavailability (info machine) = u.

(** The window whose unavailability a machine ends up with: the last
    window of the schedule that names it. *)
Definition window_of (schedule : Schedule) (id : MachineID) : option Window :=
  last (filter (λ w, id ∈ machine_ids w) (windows schedule)).

(** What the schedule update makes of a machine it already knew. *)
Definition known_after (updated : gmap MachineID Unavailability) (id : MachineID)
    (machine : Machine) : Machine :=
  match updated !! id with
  | Some u => set_unavailability (Some u) machine
  | None => set_unavailability None (set_mode UP machine)
  end.

(** What the schedule update makes of a machine that [window] names. *)
Definition saved (id : MachineID) (window : Window) (machine : Machine) : Machine :=
  mkMachine (mkMachineInfo id DRAINING (Some (window_unavailability window)))
    (machine_slaves machine).

(** The body of a POST parses to [schedule]. *)
Definition posts `{MaintenanceWire} (request : Request) (schedule : Schedule) : Prop :=
  method request = "POST" ∧
  ∃ jsonSchedule, JSON_parse_Object (req_body request) = TrySome jsonSchedule ∧
                  protobuf_parse_Schedule jsonSchedule = TrySome schedule.

Definition machine_down_message : string := "Operator initiated 'Machine DOWN'".

(** The agent runs on the machine, as far as the master knows. *)
Definition located (slaveId : SlaveID) (id : MachineID) (m : Master) : Prop :=
  ∃ machine, machines m !! id = Some machine ∧ slaveId ∈ machine_slaves machine.

(** Every agent that runs on a machine is registered, and on that
    machine. *)
Definition agents_registered (m : Master) : Prop :=
  ∀ id slaveId, located slaveId id m →
    ∃ slave, slaves m !! slaveId = Some slave ∧ machineId slave = id.

(** Between [m] and [m'] the agent, registered in [m], was told to shut
    down and was removed. *)
Definition shut_down (slaveId : SlaveID) (m m' : Master) : Prop :=
  slaves m' !! slaveId = None ∧
  ∃ slave, slaves m !! slaveId = Some slave ∧
           ShutdownMessage (pid slave) machine_down_message ∈ sent m'.

(** How the master's state moves while agents are shut down: agents
    only leave, messages only accumulate, an agent leaves its machine
    only by being shut down, and no machine changes its mode. *)
Definition advanced (m m' : Master) : Prop :=
  (∀ slaveId, slaves m' !! slaveId = None ∨ slaves m' !! slaveId = slaves m !! slaveId) ∧
  (∀ e, e ∈ sent m → e ∈ sent m') ∧
  (∀ id slaveId, located slaveId id m → located slaveId id m' ∨ shut_down slaveId m m') ∧
  (∀ id, info <$> machines m' !! id = info <$> machines m !! id).

(** The body of a POST parses to the list of machines [ids]. *)
Definition lists `{MaintenanceWire} (request : Request) (ids : list MachineID) : Prop :=
  method request = "POST" ∧
  ∃ jsonIds, JSON_parse_Array (req_body request) = TrySome jsonIds ∧
             protobuf_parse_MachineIDs jsonIds = TrySome ids.

(** The machine is unknown to the master or in another mode than
    [expected]. *)
Definition not_in_mode (expected : Mode) (id : MachineID) (m : Master) : Prop :=
  ∀ machine, machines m !! id = Some machine → mode (info machine) ≠ expected.

(** The two moves that leave the order UP, DRAINING, DOWN, UP: back
    from DOWN to DRAINING, and from UP straight to DOWN. *)
Definition skips_a_step (before after : Mode) : Prop :=
  (before = DOWN ∧ after = DRAINING) ∨ (before = UP ∧ after = DOWN).

(** The three endpoints that write machine modes. *)
Definition maintenance_endpoints `{MaintenanceWire}
  : list (Master → Request → bool → Outcome) :=
  [maintenanceSchedule; machineDown; machineUp].

(** The configured authorizer turns down the shutdown that the request
    asks for: that of the framework it names, on behalf of [principal]
    ([None] when the request carries no authenticated principal). *)
Definition shutdown_denied `{OperatorWire} (m : Master) (request : Request)
    (principal : option string) : Prop :=
  ∃ authorize values id framework,
    authorizer m = Some authorize ∧
    query_decode (req_body request) = TrySome values ∧
    values !! "frameworkId" = Some id ∧
    getFramework m id = Some framework ∧
    authorize (mkShutdownFramework principal (fw_principal framework)) = false.

(** The three moves of the cycle UP, DRAINING, DOWN, UP. *)
Definition follows_the_cycle (before after : Mode) : Prop :=
  (before = UP ∧ after = DRAINING) ∨
  (before = DRAINING ∧ after = DOWN) ∨
  (before = DOWN ∧ after = UP).

(** The two endpoints that an operator moves listed machines with. *)
Definition machine_endpoints `{MaintenanceWire}
  : list (Master → Request → bool → Outcome) :=
  [machineDown; machineUp].

(** ** Reporting endpoints and their helpers *)

(** *** Maintenance status (lines 2468-2525) *)

Section MaintenanceStatus.
(** [mesos::master::InverseOfferStatus], which the endpoint only copies. *)
Context {InverseOfferStatus : Type}.

Record DrainingMachine := mkDrainingMachine {
  draining_id : MachineID;
  draining_statuses : list InverseOfferStatus
}.

Record ClusterStatus := mkClusterStatus {
  draining_machines : list DrainingMachine;
  down_machines : list MachineID
}.

(** Lines 2498-2506: what the allocator holds for the agents of one
    machine. *)
Definition unwrap_statuses
    (result : gmap SlaveID (gmap FrameworkID InverseOfferStatus))
    (machine : Machine) : list InverseOfferStatus :=
  slave ← elements (machine_slaves machine);
  match result !! slave with
  | Some statuses => (map_to_list statuses).*2
  | None => []
  end.

(** Lines 2490-2520, one machine of the master. *)
Definition add_machine
    (result : gmap SlaveID (gmap FrameworkID InverseOfferStatus))
    (status : ClusterStatus) (entry : MachineID * Machine) : ClusterStatus :=
  match mode (info entry.2) with
  | DRAINING =>
    mkClusterStatus
      (draining_machines status ++
         [mkDrainingMachine entry.1 (unwrap_statuses result entry.2)])
      (down_machines status)
  | DOWN => mkClusterStatus (draining_machines status) (down_machines status ++ [entry.1])
  | UP => status
  end.

(** The [ClusterStatus] built by the continuation (lines 2485-2521). *)
Definition cluster_status
    (result : gmap SlaveID (gmap FrameworkID InverseOfferStatus))
    (m : Master) : ClusterStatus :=
  foldl (add_machine result) (mkClusterStatus [] []) (map_to_list (machines m)).

(** [Master::Http::maintenanceStatus]; [result] is what the allocator
    answers to [getInverseOfferStatuses], [render] is the body that
    [OK] makes of [JSON::protobuf(status)] and the jsonp parameter. The
    headers that libprocess adds to a JSON answer are not modelled. *)
Definition maintenanceStatus (render : ClusterStatus → string) (m : Master)
    (request : Request)
    (result : gmap SlaveID (gmap FrameworkID InverseOfferStatus)) : Outcome :=
  if decide (method request ≠ "GET") then
    respond m (BadRequest ("Expecting GET, got '" +:+ method request +:+ "'"))
  else
    respond m (response 200 (render (cluster_status result m))).

End MaintenanceStatus.
Arguments DrainingMachine : clear implicits.
Arguments ClusterStatus : clear implicits.

(** *** Observe (lines 1166-1259) *)

Definition HOSTS_KEY : string := "hosts".
Definition LEVEL_KEY : string := "level".
Definition MONITOR_KEY : string := "monitor".

(** Decoding used by the observe endpoint (libprocess, stout). *)
Class FormWire := {
  form_decode : string → Try (gmap string string);   (* http::query::decode *)
  http_decode : string → Try string;                 (* http::decode *)
  strings_split : string → string → list string;     (* strings::split, no limit *)
  strings_upper : string → string                    (* strings::upper *)
}.

(** The values of the JSON object that observe sends back. *)
Inductive ObservedValue :=
  | ObservedString (s : string)
  | ObservedArray (l : list string)
  | ObservedBoolean (b : bool).

Section Observe.
Context `{FormWire}.

(** [getFormValue]. *)
Definition getFormValue (key : string) (values : gmap string string) : Try string :=
  match values !! key with
  | None => TryError ("Missing value for '" +:+ key +:+ "'.")
  | Some value =>
    match http_decode value with
    | TryError e => TryError e
    | TrySome decodedValue =>
      if decide (decodedValue = EmptyString) then
        TryError ("Empty string for '" +:+ key +:+ "'.")
      else TrySome decodedValue
    end
  end.

(** The JSON object of lines 1223-1256, or the rejection. *)
Definition observed (body : string) : Response + gmap string ObservedValue :=
  match form_decode body with
  | TryError e => inl (BadRequest ("Unable to decode query string: " +:+ e))
  | TrySome values =>
    match getFormValue MONITOR_KEY values with
    | TryError e => inl (BadRequest e)
    | TrySome monitor =>
      let response : gmap string ObservedValue :=
        <[ MONITOR_KEY := ObservedString monitor ]> ∅ in
      match getFormValue HOSTS_KEY values with
      | TryError e => inl (BadRequest e)
      | TrySome hostsString =>
        let hosts := strings_split hostsString "," in
        let response := <[ HOSTS_KEY := ObservedArray hosts ]> response in
        match getFormValue LEVEL_KEY values with
        | TryError e => inl (BadRequest e)
        | TrySome level =>
          let isHealthy := bool_decide (strings_upper level = "OK") in
          inr (<[ "isHealthy" := ObservedBoolean isHealthy ]> response)
        end
      end
    end
  end.

(** [Master::Http::observe]; [render] turns the JSON object into the
    body of the response. The headers that libprocess adds to a JSON
    answer are not modelled. *)
Definition observe (render : gmap string ObservedValue → string) (m : Master)
    (request : Request) : Outcome :=
  match observed (req_body request) with
  | inl rejected => respond m rejected
  | inr object => respond m (response 200 (render object))
  end.

End Observe.

(** *** Tasks, their order and their summaries (lines 1621-1764, 2027-2128) *)

Inductive TaskState :=
  | TASK_STAGING | TASK_STARTING | TASK_RUNNING | TASK_FINISHED
  | TASK_KILLED | TASK_FAILED | TASK_LOST | TASK_ERROR.

Global Instance TaskState_eq_dec : EqDecision TaskState.
Proof. solve_decision. Defined.

Abbreviation TaskID := string (only parsing).

Record TaskInfo := mkTaskInfo { taskinfo_slave_id : SlaveID }.

Section Tasks.
(** The timestamp of a task status is a double; the code only compares
    two of them with [<] or [>]. *)
Context {Timestamp : Type}.

(** A [Task], with the timestamps of its statuses. *)
Record Task := mkTask {
  task_slave_id : SlaveID;
  task_state : TaskState;
  statuses : list Timestamp
}.

(** The task fields of a [Framework] (master.hpp). *)
Record FrameworkTasks := mkFrameworkTasks {
  pendingTasks : gmap TaskID TaskInfo;
  tasks : gmap TaskID Task;
  completedTasks : list Task
}.

Context (less : Timestamp → Timestamp → bool).

(** [TaskComparator::ascending]. *)
Definition ascending (lhs rhs : Task) : bool :=
  let lhsSize := length (statuses lhs) in
  let rhsSize := length (statuses rhs) in
  if (lhsSize =? 0)%nat && (rhsSize =? 0)%nat then false
  else if (lhsSize =? 0)%nat then true
  else if (rhsSize =? 0)%nat then false
  else
    match statuses lhs, statuses rhs with
    | l0 :: _, r0 :: _ => less l0 r0
    | _, _ => false
    end.

(** [TaskComparator::descending]; [a > b] on timestamps is [b < a]. *)
Definition descending (lhs rhs : Task) : bool :=
  let lhsSize := length (statuses lhs) in
  let rhsSize := length (statuses rhs) in
  if (lhsSize =? 0)%nat && (rhsSize =? 0)%nat then false
  else if (rhsSize =? 0)%nat then true
  else if (lhsSize =? 0)%nat then false
  else
    match statuses lhs, statuses rhs with
    | l0 :: _, r0 :: _ => less r0 l0
    | _, _ => false
    end.

End Tasks.
Arguments Task : clear implicits.
Arguments FrameworkTasks : clear implicits.

(** [size_t] arithmetic, 64 bits wide. *)
Definition size_add (a b : N) : N := ((a + b) mod 2 ^ 64)%N.

(** The loop of lines 2119-2122: [count] elements from index [i] on. *)
Fixpoint slice {A} (i count : nat) (l : list A) : list A :=
  match count with
  | O => []
  | S count =>
    match l !! i with
    | Some x => x :: slice (S i) count l
    | None => []
    end
  end.

(** Lines 2116-2122 of [Master::Http::tasks]: the tasks from [offset]
    up to [min(offset + limit, tasks.size())]. *)
Definition page {A} (offset limit : N) (sorted : list A) : list A :=
  let last := N.min (size_add offset limit) (N.of_nat (length sorted)) in
  slice (N.to_nat offset) (N.to_nat (last - offset)) sorted.

(** [TaskStateSummary]. *)
Record TaskStateSummary := mkTaskStateSummary {
  staging : N;
  starting : N;
  running : N;
  finished : N;
  killed : N;
  failed : N;
  lost : N;
  error : N
}.

(** [TaskStateSummary::EMPTY]. *)
Definition EMPTY : TaskStateSummary := mkTaskStateSummary 0 0 0 0 0 0 0 0.

(** [++counter] on a [size_t]. *)
Definition increment (n : N) : N := size_add n 1.

(** The counter of a summary that stands for [state]. *)
Definition counter (state : TaskState) (s : TaskStateSummary) : N :=
  match state with
  | TASK_STAGING => staging s
  | TASK_STARTING => starting s
  | TASK_RUNNING => running s
  | TASK_FINISHED => finished s
  | TASK_KILLED => killed s
  | TASK_FAILED => failed s
  | TASK_LOST => lost s
  | TASK_ERROR => error s
  end.

(** [summary.staging++] (lines 1732-1733). *)
Definition count_staging (s : TaskStateSummary) : TaskStateSummary :=
  mkTaskStateSummary (increment (staging s)) (starting s) (running s) (finished s)
    (killed s) (failed s) (lost s) (error s).

(** [TaskStateSummary::count]. *)
Definition count {Timestamp} (task : Task Timestamp) (s : TaskStateSummary)
  : TaskStateSummary :=
  match task_state task with
  | TASK_STAGING =>
    mkTaskStateSummary (increment (staging s)) (starting s) (running s) (finished s)
      (killed s) (failed s) (lost s) (error s)
  | TASK_STARTING =>
    mkTaskStateSummary (staging s) (increment (starting s)) (running s) (finished s)
      (killed s) (failed s) (lost s) (error s)
  | TASK_RUNNING =>
    mkTaskStateSummary (staging s) (starting s) (increment (running s)) (finished s)
      (killed s) (failed s) (lost s) (error s)
  | TASK_FINISHED =>
    mkTaskStateSummary (staging s) (starting s) (running s) (increment (finished s))
      (killed s) (failed s) (lost s) (error s)
  | TASK_KILLED =>
    mkTaskStateSummary (staging s) (starting s) (running s) (finished s)
      (increment (killed s)) (failed s) (lost s) (error s)
  | TASK_FAILED =>
    mkTaskStateSummary (staging s) (starting s) (running s) (finished s)
      (killed s) (increment (failed s)) (lost s) (error s)
  | TASK_LOST =>
    mkTaskStateSummary (staging s) (starting s) (running s) (finished s)
      (killed s) (failed s) (increment (lost s)) (error s)
  | TASK_ERROR =>
    mkTaskStateSummary (staging s) (starting s) (running s) (finished s)
      (killed s) (failed s) (lost s) (increment (error s))
  end.

(** [summaries[key]]: the entry, default-constructed when absent. *)
Definition summary_at {K} `{Countable K} (key : K) (summaries : gmap K TaskStateSummary)
  : TaskStateSummary :=
  default EMPTY (summaries !! key).

Section Summaries.
Context {Timestamp : Type}.

Record SlaveFrameworkMapping := mkSlaveFrameworkMapping {
  slavesToFrameworks : gmap SlaveID (gset FrameworkID);
  frameworksToSlaves : gmap FrameworkID (gset SlaveID)
}.

(** The two inserts of lines 1634-1635 (and 1639-1640, 1644-1645). *)
Definition relate (frameworkId : FrameworkID) (mapping : SlaveFrameworkMapping)
    (slaveId : SlaveID) : SlaveFrameworkMapping :=
  mkSlaveFrameworkMapping
    (<[ slaveId := {[ frameworkId ]} ∪ default ∅ (slavesToFrameworks mapping !! slaveId) ]>
       (slavesToFrameworks mapping))
    (<[ frameworkId :=
          {[ slaveId ]} ∪ default ∅ (frameworksToSlaves mapping !! frameworkId) ]>
       (frameworksToSlaves mapping)).

(** Lines 1630-1647, one framework. *)
Definition map_framework (mapping : SlaveFrameworkMapping)
    (entry : FrameworkID * FrameworkTasks Timestamp) : SlaveFrameworkMapping :=
  let mapping :=
    foldl (λ mapping taskInfo, relate entry.1 mapping (taskinfo_slave_id taskInfo))
      mapping (map_to_list (pendingTasks entry.2)).*2 in
  let mapping :=
    foldl (λ mapping task, relate entry.1 mapping (task_slave_id task))
      mapping (map_to_list (tasks entry.2)).*2 in
  foldl (λ mapping task, relate entry.1 mapping (task_slave_id task))
    mapping (completedTasks entry.2).

(** The constructor of [SlaveFrameworkMapping]. *)
Definition slaveFrameworkMapping
    (frameworks : gmap FrameworkID (FrameworkTasks Timestamp)) : SlaveFrameworkMapping :=
  foldl map_framework (mkSlaveFrameworkMapping ∅ ∅) (map_to_list frameworks).

(** [SlaveFrameworkMapping::frameworks]. *)
Definition mapping_frameworks (mapping : SlaveFrameworkMapping) (slaveId : SlaveID)
  : gset FrameworkID :=
  match slavesToFrameworks mapping !! slaveId with
  | Some found => found
  | None => ∅
  end.

(** [SlaveFrameworkMapping::slaves]. *)
Definition mapping_slaves (mapping : SlaveFrameworkMapping) (frameworkId : FrameworkID)
  : gset SlaveID :=
  match frameworksToSlaves mapping !! frameworkId with
  | Some found => found
  | None => ∅
  end.

Record TaskStateSummaries := mkTaskStateSummaries {
  frameworkTaskSummaries : gmap FrameworkID TaskStateSummary;
  slaveTaskSummaries : gmap SlaveID TaskStateSummary
}.

(** One task accounted for on both sides, by [update] (lines 1732-1733,
    1737-1738, 1742-1743). *)
Definition account (frameworkId : FrameworkID) (slaveId : SlaveID)
    (update : TaskStateSummary → TaskStateSummary) (summaries : TaskStateSummaries)
  : TaskStateSummaries :=
  mkTaskStateSummaries
    (<[ frameworkId := update (summary_at frameworkId (frameworkTaskSummaries summaries)) ]>
       (frameworkTaskSummaries summaries))
    (<[ slaveId := update (summary_at slaveId (slaveTaskSummaries summaries)) ]>
       (slaveTaskSummaries summaries)).

(** Lines 1728-1745, one framework. *)
Definition summarize_framework (summaries : TaskStateSummaries)
    (entry : FrameworkID * FrameworkTasks Timestamp) : TaskStateSummaries :=
  let summaries :=
    foldl (λ summaries taskInfo,
             account entry.1 (taskinfo_slave_id taskInfo) count_staging summaries)
      summaries (map_to_list (pendingTasks entry.2)).*2 in
  let summaries :=
    foldl (λ summaries task, account entry.1 (task_slave_id task) (count task) summaries)
      summaries (map_to_list (tasks entry.2)).*2 in
  foldl (λ summaries task, account entry.1 (task_slave_id task) (count task) summaries)
    summaries (completedTasks entry.2).

(** The constructor of [TaskStateSummaries]. *)
Definition taskStateSummaries
    (frameworks : gmap FrameworkID (FrameworkTasks Timestamp)) : TaskStateSummaries :=
  foldl summarize_framework (mkTaskStateSummaries ∅ ∅) (map_to_list frameworks).

(** [TaskStateSummaries::framework]. *)
Definition summaries_framework (summaries : TaskStateSummaries)
    (frameworkId : FrameworkID) : TaskStateSummary :=
  match frameworkTaskSummaries summaries !! frameworkId with
  | Some found => found
  | None => EMPTY
  end.

(** [TaskStateSummaries::slave]. *)
Definition summaries_slave (summaries : TaskStateSummaries) (slaveId : SlaveID)
  : TaskStateSummary :=
  match slaveTaskSummaries summaries !! slaveId with
  | Some found => found
  | None => EMPTY
  end.

End Summaries.
Arguments SlaveFrameworkMapping : clear implicits.
Arguments TaskStateSummaries : clear implicits.

(** ** Vocabulary of the further properties *)

(** The status codes the scheduler endpoint can answer with. *)
Definition scheduler_statuses : list nat :=
  [503; 401; 405; 400; 415; 406; 403; 200; 202]%nat.

(** The principal of an authentication result, if it carries one. *)
Definition principal_of (credential : Result Credential) : option string :=
  match credential with
  | ResultSome c => Some (principal c)
  | _ => None
  end.

(** The decoded user and password of the Authorization header. *)
Definition presented `{OperatorWire} (request : Request) (username password : string)
  : Prop :=
  ∃ authorization encoded decoded,
    req_headers request !! "Authorization" = Some authorization ∧
    split authorization " " 2 !! 1%nat = Some encoded ∧
    base64_decode encoded = TrySome decoded ∧
    split decoded ":" 2 = [username; password].

(** The form carries [key] with a value that decodes to the
    non-empty [decoded]. *)
Definition supplied `{FormWire} (key : string) (values : gmap string string)
    (decoded : string) : Prop :=
  ∃ value, values !! key = Some value ∧
           http_decode value = TrySome decoded ∧
           decoded ≠ EmptyString.

Section TaskVocabulary.
Context {Timestamp : Type}.

(** The tasks of a framework that the master still holds as [Task]s:
    the active ones and the completed ones. *)
Definition held (framework : FrameworkTasks Timestamp) : list (Task Timestamp) :=
  ((map_to_list (tasks framework)).*2 ++ completedTasks framework)%list.

(** The launches of a framework that are still pending. *)
Definition pending (framework : FrameworkTasks Timestamp) : list TaskInfo :=
  (map_to_list (pendingTasks framework)).*2.

(** The framework has a pending, active or completed task on the agent. *)
Definition runs_on (framework : FrameworkTasks Timestamp) (slaveId : SlaveID) : Prop :=
  (∃ taskInfo, taskInfo ∈ pending framework ∧ taskinfo_slave_id taskInfo = slaveId) ∨
  (∃ task, task ∈ held framework ∧ task_slave_id task = slaveId).

(** How many of the framework's tasks are in [state]; a pending launch
    counts as staging. *)
Definition tasks_in (state : TaskState) (framework : FrameworkTasks Timestamp) : nat :=
  ((if decide (state = TASK_STAGING) then length (pending framework) else 0)
   + length (filter (λ task, task_state task = state) (held framework)))%nat.

(** The same, for the tasks of the framework on one agent. *)
Definition tasks_in_on (state : TaskState) (slaveId : SlaveID)
    (framework : FrameworkTasks Timestamp) : nat :=
  ((if decide (state = TASK_STAGING)
    then length (filter (λ taskInfo, taskinfo_slave_id taskInfo = slaveId)
                   (pending framework))
    else 0)
   + length (filter (λ task, task_state task = state ∧ task_slave_id task = slaveId)
               (held framework)))%nat.

End TaskVocabulary.

(** The event tells the allocator or a framework about a rescinded
    offer. *)
Definition about_rescission (e : Event) : Prop :=
  match e with
  | RecoverResources _ _ _ | RescindResourceOffer _ _ => True
  | _ => False
  end.

(** ** Instances for the reporting endpoints *)

Module Reports.

(** An allocator answer for the agent of [Cluster.draining]. *)
Definition statuses : gmap SlaveID (gmap FrameworkID string) :=
  {[ "agent" := {[ "framework" := "accepted" ]} ]}.

(** A rendering that keeps the host names of the machines that are down. *)
Definition render (status : ClusterStatus string) : string :=
  String.concat "," (hostname <$> down_machines status).

Definition get : Request := mkRequest "GET" ∅ EmptyString.

(** Upper case of the ASCII letters. *)
Definition upper_ascii (c : Ascii.ascii) : Ascii.ascii :=
  let n := Ascii.nat_of_ascii c in
  if (97 <=? n)%nat && (n <=? 122)%nat then Ascii.ascii_of_nat (n - 32) else c.

Fixpoint upper (s : string) : string :=
  match s with
  | EmptyString => EmptyString
  | String c rest => String (upper_ascii c) (upper rest)
  end.

(** A decoding that is the identity on text and fails on text that
    starts with a percent sign. *)
Definition decode_text (s : string) : Try string :=
  if String.prefix "%" s then TryError "bad escape" else TrySome s.

Definition forms : FormWire := {|
  form_decode := Forms.decode;
  http_decode := decode_text;
  strings_split := λ s delims, Forms.split_tokens s delims 0;
  strings_upper := upper
|}.

(** The JSON object as text: its keys. *)
Definition keys (object : gmap string ObservedValue) : string :=
  String.concat "," (map_to_list object).*1.

Definition report : Request :=
  mkRequest "POST" ∅ "monitor=disk&hosts=a,b&level=ok".

End Reports.

(** * Properties *)

(** ** Scheduler call dispatch *)

Section SchedulerProperties.
Context `{SchedulerWire} `{MasterActions}.

Lemma scheduler_valid_call m request call :
  valid_call m request call → scheduler m request = dispatch m request call.
Proof.
  intros (He & (recovery & Hr & Hready) & Ha & Hm & Hd & Hv).
  unfold scheduler. rewrite He, Hr, Hready, Ha, Hd, Hv. simpl.
  destruct (decide (method request ≠ "POST")); [contradiction | reflexivity].
Qed.

(** C6: a validated call other than SUBSCRIBE whose framework id is not
    registered is answered 400 "Framework cannot be found", and one
    whose framework is registered but not connected is answered 403
    "Framework is not subscribed"; in both cases the master is left as
    it was. *)
Theorem scheduler_framework_check m request call :
  valid_call m request call →
  call_type call ≠ SUBSCRIBE →
  (getFramework m (framework_id call) = None →
     scheduler m request = respond m (BadRequest "Framework cannot be found") ∧
     status (BadRequest "Framework cannot be found") = 400%nat) ∧
  (∀ framework,
     getFramework m (framework_id call) = Some framework →
     connected framework = false →
     scheduler m request = respond m (Forbidden "Framework is not subscribed") ∧
     status (Forbidden "Framework is not subscribed") = 403%nat).
Proof.
  intros Hvalid Htype.
  rewrite (scheduler_valid_call _ _ _ Hvalid). unfold dispatch.
  destruct (decide (call_type call = SUBSCRIBE)) as [|_]; [contradiction|].
  split.
  - intros ->. split; reflexivity.
  - intros framework -> ->. split; reflexivity.
Qed.

(** C8: a valid SUBSCRIBE call is answered in JSON when the request
    accepts JSON, else in protobuf when it accepts protobuf, and both
    times the answer is a 200 whose body is the reading end of a pipe,
    returned whatever the subscription itself goes on to do; when the
    request accepts neither, the answer is 406 and the master is left as
    it was, the subscription never having been started. *)
Theorem scheduler_subscribe_negotiation m request call :
  valid_call m request call →
  call_type call = SUBSCRIBE →
  let streaming contentType :=
    scheduler m request =
      Responded (subscribe (mkHttpConnection (pipe_writer NewPipe) contentType) call m)
        (Ready (ok_pipe contentType NewPipe)) ∧
    status (ok_pipe contentType NewPipe) = 200%nat ∧
    type (ok_pipe contentType NewPipe) = PIPE ∧
    reader (ok_pipe contentType NewPipe) = Some (pipe_reader NewPipe) ∧
    headers (ok_pipe contentType NewPipe) !! "Content-Type" = Some (stringify contentType) in
  (acceptsMediaType request APPLICATION_JSON = true → streaming JSON) ∧
  (acceptsMediaType request APPLICATION_JSON = false →
   acceptsMediaType request APPLICATION_PROTOBUF = true → streaming PROTOBUF) ∧
  (acceptsMediaType request APPLICATION_JSON = false →
   acceptsMediaType request APPLICATION_PROTOBUF = false →
   ∃ rejected, scheduler m request = respond m rejected ∧ status rejected = 406%nat).
Proof.
  intros Hvalid Htype streaming. subst streaming.
  rewrite (scheduler_valid_call _ _ _ Hvalid). unfold dispatch.
  destruct (decide (call_type call = SUBSCRIBE)) as [_|]; [|contradiction].
  split; [|split].
  - intros ->. repeat split.
  - intros -> ->. repeat split.
  - intros -> ->. eexists. split; reflexivity.
Qed.

End SchedulerProperties.

Lemma scheduler_framework_check_witness :
  @scheduler Example.wire Example.actions Example.leader
    (Example.post "application/json" "Kunknown" None)
  = respond Example.leader (BadRequest "Framework cannot be found") ∧
  @scheduler Example.wire Example.actions Example.leader
    (Example.post "application/json" "Kdisconnected" None)
  = respond Example.leader (Forbidden "Framework is not subscribed").
Proof.
  split.
  - refine (proj1 (proj1 (@scheduler_framework_check Example.wire Example.actions
      Example.leader (Example.post "application/json" "Kunknown" None)
      (mkCall KILL "unknown" EmptyString) _ _) _)).
    + repeat split; try reflexivity. exists (Ready tt). split; reflexivity.
    + discriminate.
    + reflexivity.
  - refine (proj1 (proj2 (@scheduler_framework_check Example.wire Example.actions
      Example.leader (Example.post "application/json" "Kdisconnected" None)
      (mkCall KILL "disconnected" EmptyString) _ _) _ _ _)).
    + repeat split; try reflexivity. exists (Ready tt). split; reflexivity.
    + discriminate.
    + reflexivity.
    + reflexivity.
Defined.

Lemma scheduler_subscribe_negotiation_witness :
  status (ok_pipe (H:=Example.wire) PROTOBUF NewPipe) = 200%nat ∧
  ∃ rejected,
    @scheduler Example.wire Example.actions Example.leader
      (Example.post "application/json" "Snew" (Some "text/html"))
    = respond Example.leader rejected ∧ status rejected = 406%nat.
Proof.
  split.
  - refine (proj1 (proj2 (proj1 (proj2 (@scheduler_subscribe_negotiation
      Example.wire Example.actions Example.leader
      (Example.post "application/json" "Snew" (Some "application/x-protobuf"))
      (mkCall SUBSCRIBE "new" EmptyString) _ _)) _ _))).
    + repeat split; try reflexivity. exists (Ready tt). split; reflexivity.
    + reflexivity.
    + reflexivity.
    + reflexivity.
  - refine (proj2 (proj2 (@scheduler_subscribe_negotiation
      Example.wire Example.actions Example.leader
      (Example.post "application/json" "Snew" (Some "text/html"))
      (mkCall SUBSCRIBE "new" EmptyString) _ _)) _ _).
    + repeat split; try reflexivity. exists (Ready tt). split; reflexivity.
    + reflexivity.
    + reflexivity.
    + reflexivity.
Defined.

(** ** Resource-operation admission *)

Lemma elem_of_sent_emit e e' m : e ∈ sent (emit e' m) ↔ e ∈ sent m ∨ e = e'.
Proof. simpl. rewrite elem_of_app, list_elem_of_singleton. reflexivity. Qed.

Lemma removeOffer_offers offer m :
  offers (removeOffer offer m) = delete (offer_id offer) (offers m).
Proof. reflexivity. Qed.

Lemma removeOffer_sent offer m :
  sent (removeOffer offer m) =
  (sent m ++ [RescindResourceOffer (offer_framework_id offer) (offer_id offer)])%list.
Proof. reflexivity. Qed.

Lemma removeOffer_outstanding offer o m :
  offer_id o ≠ offer_id offer →
  outstanding o m → outstanding o (removeOffer offer m).
Proof.
  intros Hne [Ho (slave & Hs & Hin)]. split.
  - rewrite removeOffer_offers, lookup_delete_ne; [done | congruence].
  - unfold removeOffer. simpl.
    destruct (decide (offer_slave_id offer = offer_slave_id o)) as [Heq | Hother].
    + rewrite Heq, lookup_alter_eq, Hs. simpl. eexists. split; [done|].
      simpl. apply list_elem_of_filter. done.
    + rewrite lookup_alter_ne by done. eauto.
Qed.

Lemma removeOffer_told offer oid m :
  oid ≠ offer_id offer →
  told_rescinded oid (removeOffer offer m) → told_rescinded oid m.
Proof.
  intros Hne [f Hf]. rewrite removeOffer_sent, elem_of_app in Hf.
  destruct Hf as [Hf | Hf]; [by exists f|].
  apply list_elem_of_singleton in Hf. congruence.
Qed.

Section Admission.
Context `{ResourceAlgebra}.

Lemma rescind_offer_cases operation offer st :
  rescind_offer operation offer st =
    if contributes offer st then
      match res_apply (recovered_resources (rescinding offer st)) operation with
      | Some _ => inl (rescinding offer st)
      | None => inr (rescinding offer st)
      end
    else inr st.
Proof.
  unfold rescind_offer, contributes, rescinding.
  destruct (res_eqb _ _); simpl; [done|].
  destruct (res_apply _ _); done.
Qed.

Lemma rescinding_outstanding offer o st :
  offer_id o ≠ offer_id offer →
  outstanding o (master st) → outstanding o (master (rescinding offer st)).
Proof.
  intros Hne Ho. apply removeOffer_outstanding; [done|].
  destruct Ho as [? ?]. split; done.
Qed.

Lemma rescinding_told offer oid st :
  oid ≠ offer_id offer →
  told_rescinded oid (master (rescinding offer st)) → told_rescinded oid (master st).
Proof.
  intros Hne Ht. apply removeOffer_told in Ht; [|done].
  destruct Ht as [f Hf]. apply elem_of_sent_emit in Hf as [Hf | Hf]; [by exists f | done].
Qed.

(** Offers the loop does not visit are left alone. *)
Lemma rescind_untouched operation pending st o :
  offer_id o ∉ offer_id <$> pending →
  let st' := after_loop (rescind operation pending st) in
  (outstanding o (master st) → outstanding o (master st')) ∧
  (told_rescinded (offer_id o) (master st') → told_rescinded (offer_id o) (master st)).
Proof.
  revert st. induction pending as [| offer rest IH]; intros st Hnotin; simpl.
  - done.
  - rewrite fmap_cons, not_elem_of_cons in Hnotin. destruct Hnotin as [Hne Hrest].
    rewrite rescind_offer_cases.
    destruct (contributes offer st); [|by apply IH].
    destruct (res_apply _ _); simpl.
    + split; [by apply rescinding_outstanding | by apply rescinding_told].
    + destruct (IH (rescinding offer st) Hrest) as [IHo IHt]. split.
      * intros Ho. by apply IHo, rescinding_outstanding.
      * intros Ht. by eapply rescinding_told, IHt.
Qed.

Lemma rescind_app operation before rest st st1 :
  rescind operation before st = inr st1 →
  rescind operation (before ++ rest)%list st = rescind operation rest st1.
Proof.
  revert st. induction before as [| offer before IH]; intros st; simpl.
  - congruence.
  - destruct (rescind_offer operation offer st); [done | apply IH].
Qed.

(** C1: the loop passes over an offer that takes nothing off what is
    still required, leaving every part of its state as it was; and once
    it has rescinded an offer after which the operation applies to the
    recovered resources, it stops there: the offers that come later in
    the iteration are still outstanding and none of them has been
    rescinded. *)
Theorem rescission_skips_and_stops operation before offer after st st1 :
  rescind operation before st = inr st1 →
  (contributes offer st1 = false →
     rescind_offer operation offer st1 = inr st1 ∧
     rescind operation (before ++ offer :: after)%list st = rescind operation after st1) ∧
  (contributes offer st1 = true →
   is_Some (res_apply (recovered_resources (rescinding offer st1)) operation) →
     rescind operation (before ++ offer :: after)%list st = inl (rescinding offer st1) ∧
     ∀ o, o ∈ after →
          offer_id o ∉ offer_id <$> (before ++ [offer])%list →
          outstanding o (master st) →
          ¬ told_rescinded (offer_id o) (master st) →
          outstanding o (master (rescinding offer st1)) ∧
          ¬ told_rescinded (offer_id o) (master (rescinding offer st1))).
Proof.
  intros Hbefore. split.
  - intros Hskip.
    assert (rescind_offer operation offer st1 = inr st1) as Hoffer
      by (rewrite rescind_offer_cases, Hskip; done).
    split; [done|].
    rewrite (rescind_app _ _ _ _ _ Hbefore). simpl. by rewrite Hoffer.
  - intros Hcontributes [updatedRecovered Happly].
    assert (rescind operation (before ++ [offer])%list st = inl (rescinding offer st1)) as Hstop.
    { rewrite (rescind_app _ _ _ _ _ Hbefore). simpl.
      by rewrite rescind_offer_cases, Hcontributes, Happly. }
    split.
    + rewrite (rescind_app _ _ _ _ _ Hbefore). simpl.
      by rewrite rescind_offer_cases, Hcontributes, Happly.
    + intros o _ Hfresh Ho Hnot.
      destruct (rescind_untouched operation (before ++ [offer])%list st o Hfresh) as [Hkeep Htold].
      rewrite Hstop in Hkeep, Htold. simpl in Hkeep, Htold. split; [by apply Hkeep|].
      intros Ht. by apply Hnot, Htold.
Qed.

End Admission.

Lemma rescission_skips_and_stops_witness :
  let start := mkRescission (flatten Agent.wanted) [] Agent.master in
  @rescind Scalars.algebra (RESERVE Agent.wanted) [Agent.A; Agent.B; Agent.C] start
  = inl (@rescinding Scalars.algebra Agent.B (@rescinding Scalars.algebra Agent.A start)) ∧
  outstanding Agent.C
    (master (@rescinding Scalars.algebra Agent.B (@rescinding Scalars.algebra Agent.A start))).
Proof.
  intros start.
  destruct (@rescission_skips_and_stops Scalars.algebra (RESERVE Agent.wanted)
              [Agent.A] Agent.B [Agent.C] start
              (@rescinding Scalars.algebra Agent.A start) eq_refl) as [_ Hstop].
  destruct (Hstop eq_refl (mk_is_Some _ _ eq_refl)) as [Hloop Hafter].
  split; [exact Hloop|].
  refine (proj1 (Hafter Agent.C _ _ _ _)).
  - apply list_elem_of_singleton. reflexivity.
  - simpl. rewrite !not_elem_of_cons. repeat split; [discriminate.. | apply not_elem_of_nil].
  - split; [reflexivity|]. eexists. split; [reflexivity|]. simpl. rewrite !elem_of_cons. auto.
  - intros [f Hf]. exact (not_elem_of_nil _ Hf).
Defined.

Section AdmissionOutcome.
Context `{ResourceAlgebra}.

Lemma rescinding_gone offer st oid :
  (offers (master st) !! oid = None →
   offers (master (rescinding offer st)) !! oid = None) ∧
  (told_rescinded oid (master (rescinding offer st)) →
   told_rescinded oid (master st) ∨ offers (master (rescinding offer st)) !! oid = None).
Proof.
  unfold rescinding. simpl master. rewrite removeOffer_offers. simpl offers. split.
  - intros Hnone. destruct (decide (offer_id offer = oid)) as [-> | Hne].
    + apply lookup_delete_eq.
    + by rewrite lookup_delete_ne.
  - destruct (decide (oid = offer_id offer)) as [-> | Hne].
    + intros _. right. apply lookup_delete_eq.
    + intros Ht. left. by apply (rescinding_told offer oid st Hne).
Qed.

(** Whatever the loop has rescinded is gone from the master's offers
    when the loop ends. *)
Lemma rescind_gone operation pending st oid :
  let st' := after_loop (rescind operation pending st) in
  (offers (master st) !! oid = None → offers (master st') !! oid = None) ∧
  (told_rescinded oid (master st') →
   told_rescinded oid (master st) ∨ offers (master st') !! oid = None).
Proof.
  revert st. induction pending as [| offer rest IH]; intros st; simpl.
  - auto.
  - rewrite rescind_offer_cases. destruct (contributes offer st); [|apply IH].
    destruct (res_apply _ _); simpl; [apply rescinding_gone|].
    destruct (IH (rescinding offer st)) as [IHnone IHtold].
    destruct (rescinding_gone offer st oid) as [Hnone Htold]. split.
    + auto.
    + intros Ht. destruct (IHtold Ht) as [Hmid | Hgone]; [|by right].
      destruct (Htold Hmid) as [Hold | Hgone]; [by left | right; auto].
Qed.

(** C7: when the apply fails, the answer is 409 Conflict carrying the
    failure; when it succeeds, the answer is 200 OK; the state left
    behind is the same in both cases, and in it every offer the loop
    has rescinded is still gone from the master's offers. *)
Theorem operation_conflict_without_rollback m slaveId slave required operation :
  slaves m !! slaveId = Some slave →
  let st := after_loop
    (rescind operation (slave_offers slave) (mkRescission required [] m)) in
  let m' := master_apply slaveId operation (master st) in
  (∀ failure,
     _operation m slaveId required operation (Failed failure)
       = Responded m' (Ready (Conflict failure)) ∧
     status (Conflict failure) = 409%nat ∧ body (Conflict failure) = failure) ∧
  _operation m slaveId required operation (Ready tt) = Responded m' (Ready OK) ∧
  (∀ oid, told_rescinded oid m' → ¬ told_rescinded oid m → offers m' !! oid = None).
Proof.
  intros Hslave st m'. unfold _operation. rewrite Hslave. fold st. fold m'.
  split; [|split].
  - intros failure. repeat split.
  - reflexivity.
  - intros oid [f Hf] Hnot.
    assert (told_rescinded oid (master st)) as Ht.
    { exists f. subst m'. unfold master_apply in Hf.
      apply elem_of_sent_emit in Hf as [Hf | Hf]; [done | discriminate]. }
    destruct (rescind_gone operation (slave_offers slave)
                (mkRescission required [] m) oid) as [_ Hgone].
    destruct (Hgone Ht) as [Hold | Hnone]; [contradiction | exact Hnone].
Qed.

End AdmissionOutcome.

Lemma operation_conflict_without_rollback_witness :
  answered (@_operation Scalars.algebra Agent.master "agent" (flatten Agent.wanted)
              (RESERVE Agent.wanted) (Failed "registrar said no"))
  = Some (Conflict "registrar said no").
Proof.
  destruct (@operation_conflict_without_rollback Scalars.algebra Agent.master "agent"
              (mkSlave "slave(1)@10.0.0.1:5051" (mkMachineID "host1" "10.0.0.1")
                 [] [Agent.A; Agent.B; Agent.C])
              (flatten Agent.wanted) (RESERVE Agent.wanted) eq_refl) as [Hfail _].
  destruct (Hfail "registrar said no") as [-> _]. reflexivity.
Defined.

(** ** Operator endpoints *)

Section Endpoints.
Context `{ResourceAlgebra} `{OperatorWire}.

Lemma operator_request_passes m request param slaveId slave credential resources k :
  passes m request param slaveId slave credential resources →
  operator_request m request param k = k slaveId slave credential resources.
Proof.
  intros (Hpost & Hauth & Hok & values & array & parsed &
          Hdecode & Hid & Hslave & Hparam & Harray & Hparse).
  unfold operator_request.
  destruct (decide (method request ≠ "POST")); [contradiction|].
  rewrite Hauth.
  destruct credential as [| c | e]; [| | by destruct (Hok e)];
    by rewrite Hdecode, Hid, Hslave, Hparam, Harray, Hparse.
Qed.

(** The books of the loop: what is still required is what was
    required less the rescinded offers, what is recovered is their
    sum; the loop breaks only when the operation applies to what is
    recovered, and when it runs out of offers the operation did not
    apply after the last rescission. *)
Lemma rescind_accounts operation pending st :
  ∃ rescinded,
    rescinded `sublist_of` pending ∧
    required (after_loop (rescind operation pending st))
      = foldl res_sub (required st) (offer_resources <$> rescinded) ∧
    recovered_resources (after_loop (rescind operation pending st))
      = foldl res_add (recovered_resources st) (offer_resources <$> rescinded) ∧
    (∀ done, rescind operation pending st = inl done →
       is_Some (res_apply (recovered_resources done) operation)) ∧
    (∀ left, rescind operation pending st = inr left →
       rescinded = [] ∨ res_apply (recovered_resources left) operation = None).
Proof.
  revert st. induction pending as [| offer rest IH]; intros st.
  { exists []. simpl. split; [done|]. split; [done|]. split; [done|].
    split; [discriminate | by left]. }
  cbn [rescind]. rewrite rescind_offer_cases.
  destruct (contributes offer st).
  2:{ destruct (IH st) as (rescinded & Hsub & Hrest).
      exists rescinded. split; [by apply sublist_cons | done]. }
  destruct (res_apply (recovered_resources (rescinding offer st)) operation)
    as [updatedRecovered|] eqn:Happly.
  - exists [offer]. split; [apply sublist_skip, sublist_nil_l|].
    split; [done|]. split; [done|]. split.
    + intros done [= <-]. by rewrite Happly.
    + discriminate.
  - destruct (IH (rescinding offer st))
      as (rescinded & Hsub & Hrequired & Hrecovered & Hbreak & Hout).
    exists (offer :: rescinded). split; [by apply sublist_skip|].
    split; [done|]. split; [done|]. split; [done|].
    intros left Hleft. right. destruct (Hout left Hleft) as [-> | Hfailed]; [|done].
    rewrite Hleft in Hrecovered. simpl in Hrecovered. by rewrite Hrecovered.
Qed.

(** C9, as amended: what each endpoint hands to admission as the
    resources required to be free.  Create-volumes passes the requested
    volumes with every DiskInfo cleared and reserve passes the requested
    resources with role and reservation stripped, while destroy-volumes
    and unreserve pass the request's resources as they are; the
    operation itself always carries the resources as requested, and the
    loop starts from the set that was passed.  The overlap test of the
    loop reads what is still required of that set, which is the set
    less the offers rescinded so far.  The sufficiency test does not:
    it applies the operation, as requested, to what has been recovered
    so far, and the loop breaks exactly when that succeeds. *)
Theorem required_resources_per_endpoint m request applied slaveId slave credential rs :
  (passes m request "volumes" slaveId slave credential rs →
     (validate_create rs (checkpointedResources slave) = None →
        createVolumes m request applied
          = _operation m slaveId (removeDiskInfos rs) (CREATE rs) applied) ∧
     (validate_destroy rs (checkpointedResources slave) = None →
        destroyVolumes m request applied
          = _operation m slaveId rs (DESTROY rs) applied)) ∧
  (passes m request "resources" slaveId slave credential rs →
     (validate_reserve rs
        (match credential with ResultSome c => Some (principal c) | _ => None end) = None →
        reserve m request applied
          = _operation m slaveId (flatten rs) (RESERVE rs) applied) ∧
     (validate_unreserve rs (isSome credential) = None →
        unreserve m request applied
          = _operation m slaveId rs (UNRESERVE rs) applied)) ∧
  (∀ required operation,
     slaves m !! slaveId = Some slave →
     state_after (_operation m slaveId required operation applied)
       = Some (master_apply slaveId operation
                 (master (after_loop (rescind operation (slave_offers slave)
                                        (mkRescission required [] m)))))) ∧
  (∀ i r, rs !! i = Some r →
     removeDiskInfos rs !! i
       = Some (mkResource (name r) (amount r) (role r) (reservation r) None) ∧
     flatten rs !! i = Some (mkResource (name r) (amount r) None None (disk r))) ∧
  (∀ operation offer st,
     (contributes offer st = false → rescind_offer operation offer st = inr st) ∧
     (contributes offer st = true →
        required (rescinding offer st) = res_sub (required st) (offer_resources offer) ∧
        recovered_resources (rescinding offer st)
          = res_add (recovered_resources st) (offer_resources offer) ∧
        (is_Some (res_apply (recovered_resources (rescinding offer st)) operation) →
           rescind_offer operation offer st = inl (rescinding offer st)) ∧
        (res_apply (recovered_resources (rescinding offer st)) operation = None →
           rescind_offer operation offer st = inr (rescinding offer st)))) ∧
  (∀ passed operation, ∃ rescinded,
     let loop := rescind operation (slave_offers slave) (mkRescission passed [] m) in
     rescinded `sublist_of` slave_offers slave ∧
     required (after_loop loop)
       = foldl res_sub passed (offer_resources <$> rescinded) ∧
     recovered_resources (after_loop loop)
       = foldl res_add [] (offer_resources <$> rescinded) ∧
     (∀ done, loop = inl done →
        is_Some (res_apply (recovered_resources done) operation)) ∧
     (∀ left, loop = inr left →
        rescinded = [] ∨ res_apply (recovered_resources left) operation = None)).
Proof.
  split; [|split; [|split; [|split; [|split]]]].
  - intros Hpass. split; intros Hvalid.
    + unfold createVolumes. rewrite (operator_request_passes _ _ _ _ _ _ _ _ Hpass).
      by rewrite Hvalid.
    + unfold destroyVolumes. rewrite (operator_request_passes _ _ _ _ _ _ _ _ Hpass).
      by rewrite Hvalid.
  - intros Hpass. split; intros Hvalid.
    + unfold reserve. rewrite (operator_request_passes _ _ _ _ _ _ _ _ Hpass).
      by rewrite Hvalid.
    + unfold unreserve. rewrite (operator_request_passes _ _ _ _ _ _ _ _ Hpass).
      by rewrite Hvalid.
  - intros required operation Hslave. unfold _operation. by rewrite Hslave.
  - intros i r Hr. unfold removeDiskInfos, flatten.
    rewrite !list_lookup_fmap, Hr. done.
  - intros operation offer st. rewrite rescind_offer_cases. split.
    + by intros ->.
    + intros ->. split; [done|]. split; [done|]. split.
      * by intros [updatedRecovered ->].
      * by intros ->.
  - intros passed operation.
    destruct (rescind_accounts operation (slave_offers slave) (mkRescission passed [] m))
      as (rescinded & Hsub & Hrequired & Hrecovered & Hbreak & Hout).
    by exists rescinded.
Qed.

Lemma authenticate_without_credentials m request :
  credentials m = None → authenticate m request = Some ResultNone.
Proof. unfold authenticate. by intros ->. Qed.

Lemma parse_resources_rejected param values resources rejected :
  parse_resources param values resources = inl rejected → status rejected = 400%nat.
Proof.
  revert resources. induction values as [| value rest IH]; intros resources; simpl.
  - discriminate.
  - destruct (protobuf_parse_Resource value); [|apply IH].
    by intros [= <-].
Qed.

Lemma _operation_status m slaveId required operation applied r :
  answered (_operation m slaveId required operation applied) = Some r →
  status r ≠ 401%nat.
Proof.
  unfold _operation. destruct (slaves m !! slaveId).
  - destruct applied; simpl; try discriminate; by intros [= <-].
  - by intros [= <-].
Qed.

(** The shared steps answer 401 only when authentication has failed. *)
Lemma operator_request_status m request param k r :
  (∀ slaveId slave credential resources r',
     answered (k slaveId slave credential resources) = Some r' → status r' ≠ 401%nat) →
  answered (operator_request m request param k) = Some r →
  status r = 401%nat →
  ∃ e, authenticate m request = Some (ResultError e).
Proof.
  intros Hk. unfold operator_request.
  destruct (decide (method request ≠ "POST")); [by intros [= <-]|].
  destruct (authenticate m request) as [[| c | e] |]; [| | by eauto | discriminate].
  all: destruct (query_decode (req_body request)) as [| values]; [by intros [= <-]|].
  all: destruct (values !! "slaveId") as [slaveId|]; [|by intros [= <-]].
  all: destruct (slaves m !! slaveId) as [slave|]; [|by intros [= <-]].
  all: destruct (values !! param) as [array|]; [|by intros [= <-]].
  all: destruct (JSON_parse_array array) as [| parsed]; [by intros [= <-]|].
  all: destruct (parse_resources param parsed []) as [rejected | resources] eqn:Hparse.
  all: try (intros [= <-] Hstatus;
            apply parse_resources_rejected in Hparse; congruence).
  all: intros Hr Hstatus; by destruct (Hk _ _ _ _ _ Hr).
Qed.

Lemma operator_request_unauthorized m request param k e :
  method request = "POST" →
  authenticate m request = Some (ResultError e) →
  operator_request m request param k = respond m (Unauthorized "Mesos master" e).
Proof.
  intros Hpost Hauth. unfold operator_request.
  destruct (decide (method request ≠ "POST")); [contradiction|]. by rewrite Hauth.
Qed.

Lemma resource_endpoint_status endpoint m request applied r :
  endpoint ∈ resource_endpoints →
  answered (endpoint m request applied) = Some r →
  status r = 401%nat →
  ∃ e, authenticate m request = Some (ResultError e).
Proof.
  unfold resource_endpoints. rewrite !elem_of_cons, elem_of_nil.
  intros [-> | [-> | [-> | [-> | []]]]]; apply operator_request_status;
    intros slaveId slave credential resources r'; simpl.
  - destruct (validate_create _ _); [by intros [= <-] | apply _operation_status].
  - destruct (validate_destroy _ _); [by intros [= <-] | apply _operation_status].
  - destruct (validate_reserve _ _); [by intros [= <-] | apply _operation_status].
  - destruct (validate_unreserve _ _); [by intros [= <-] | apply _operation_status].
Qed.

Lemma resource_endpoint_unauthorized endpoint m request applied e :
  endpoint ∈ resource_endpoints →
  method request = "POST" →
  authenticate m request = Some (ResultError e) →
  endpoint m request applied = respond m (Unauthorized "Mesos master" e).
Proof.
  unfold resource_endpoints. rewrite !elem_of_cons, elem_of_nil.
  intros [-> | [-> | [-> | [-> | []]]]] Hpost Hauth;
    by apply operator_request_unauthorized.
Qed.

End Endpoints.

(** C9 as first stated, with the sufficiency test computed over the
    transformed resources, fails: create-volumes hands the loop the
    volume without its DiskInfo as the required set and the volume as
    requested in the operation; after the one offer is rescinded the
    loop breaks, because the operation as requested applies to what was
    recovered, although over the transformed resources it does not
    apply and the loop would not have stopped there. *)
Lemma sufficiency_test_reads_the_request :
  let start := mkRescission (removeDiskInfos [Forms.volume]) [] Volumes.master in
  let stopped := @rescinding Volumes.algebra Volumes.free start in
  @createVolumes Volumes.algebra Forms.wire Volumes.master
    (Forms.form None "slaveId=agent&volumes=volume") (Ready tt)
  = @_operation Volumes.algebra Volumes.master "agent"
      (removeDiskInfos [Forms.volume]) (CREATE [Forms.volume]) (Ready tt) ∧
  removeDiskInfos [Forms.volume] ≠ [Forms.volume] ∧
  @rescind Volumes.algebra (CREATE [Forms.volume]) [Volumes.free] start = inl stopped ∧
  recovered_resources stopped = [Volumes.space] ∧
  is_Some (@res_apply Volumes.algebra [Volumes.space] (CREATE [Forms.volume])) ∧
  @res_apply Volumes.algebra [Volumes.space] (CREATE (removeDiskInfos [Forms.volume]))
    = None ∧
  @rescind Volumes.algebra (CREATE (removeDiskInfos [Forms.volume])) [Volumes.free] start
    = inr stopped.
Proof.
  intros start stopped. split; [reflexivity|]. split; [discriminate|].
  split; [reflexivity|]. split; [reflexivity|]. split; [by eexists|].
  split; reflexivity.
Qed.

Lemma required_resources_per_endpoint_witness :
  @createVolumes Scalars.algebra Forms.wire Agent.master
    (Forms.form None "slaveId=agent&volumes=volume") (Ready tt)
  = @_operation Scalars.algebra Agent.master "agent"
      [mkResource "disk" 64 (Some "ads") (Some "ops") None] (CREATE [Forms.volume])
      (Ready tt).
Proof.
  refine (proj1 (proj1 (@required_resources_per_endpoint Scalars.algebra Forms.wire
    Agent.master (Forms.form None "slaveId=agent&volumes=volume") (Ready tt) "agent"
    (mkSlave "slave(1)@10.0.0.1:5051" (mkMachineID "host1" "10.0.0.1")
       [] [Agent.A; Agent.B; Agent.C])
    ResultNone [Forms.volume]) _) _).
  - split; [reflexivity|]. split; [reflexivity|]. split; [discriminate|].
    eexists _, "volume", [Forms.volume]. repeat split; reflexivity.
  - reflexivity.
Defined.

Section Authentication.
Context `{ResourceAlgebra} `{OperatorWire} `{MasterActions}.

Lemma _teardown_status m id r :
  answered (_teardown m id) = Some r → status r ≠ 401%nat.
Proof. unfold _teardown. destruct (getFramework m id); by intros [= <-]. Qed.

(** Teardown answers 401 when authentication has failed or when the
    authorizer has turned down the shutdown that this request asks
    for, and only then. *)
Lemma teardown_status m request r :
  answered (teardown m request) = Some r →
  status r = 401%nat →
  (∃ e, authenticate m request = Some (ResultError e)) ∨
  (∃ credential, authenticate m request = Some credential ∧
     shutdown_denied m request
       (match credential with ResultSome c => Some (principal c) | _ => None end)).
Proof.
  unfold teardown, shutdown_denied.
  destruct (decide (method request ≠ "POST")); [by intros [= <-]|].
  destruct (authenticate m request) as [[| c | e] |]; [| | by eauto | discriminate].
  all: destruct (query_decode (req_body request)) as [| values]; [by intros [= <-]|].
  all: destruct (values !! "frameworkId") as [id|] eqn:Hid; [|by intros [= <-]].
  all: destruct (getFramework m id) as [framework|] eqn:Hf; [|by intros [= <-]].
  all: destruct (authorizer m) as [authorize|];
         [|by intros Hr Hs; destruct (_teardown_status _ _ _ Hr)].
  all: match goal with |- context [negb (?f ?s)] => destruct (f s) eqn:Hdenied end.
  all: simpl; try by intros Hr Hs; destruct (_teardown_status _ _ _ Hr).
  all: intros _ _; right; eexists; split; [done|].
  all: by exists authorize, values, id, framework.
Qed.

(** C10, as amended: without credentials authentication yields no
    principal and no failure, the four resource endpoints never answer
    401, and teardown answers 401 only when an authorizer is configured
    and turns this request down: the shutdown of the framework that
    the request names, asked for by nobody in particular.  With
    credentials, authentication fails
    when the Authorization header is missing, when its second token
    does not decode, when the decoded text is not a user:password pair,
    and when no stored credential matches the pair; and whenever
    authentication fails on a POST, each of the five endpoints answers
    401 with the failure and leaves the master as it was. *)
Theorem authentication_gate m request applied :
  (credentials m = None →
     authenticate m request = Some ResultNone ∧
     (∀ endpoint r, endpoint ∈ resource_endpoints →
        answered (endpoint m request applied) = Some r → status r ≠ 401%nat) ∧
     (∀ r, answered (teardown m request) = Some r → status r = 401%nat →
        shutdown_denied m request None)) ∧
  (∀ stored, credentials m = Some stored →
     (req_headers request !! "Authorization" = None →
        authenticate m request
          = Some (ResultError "Missing 'Authorization' request header")) ∧
     (∀ authorization encoded,
        req_headers request !! "Authorization" = Some authorization →
        split authorization " " 2 !! 1%nat = Some encoded →
        (∀ e, base64_decode encoded = TryError e →
           authenticate m request
             = Some (ResultError ("Failed to decode 'Authorization' header: " +:+ e))) ∧
        (∀ decoded, base64_decode encoded = TrySome decoded →
           (length (split decoded ":" 2) ≠ 2%nat →
              authenticate m request
                = Some (ResultError "Malformed 'Authorization' request header")) ∧
           (∀ username password,
              split decoded ":" 2 = [username; password] →
              (∀ credential, credential ∈ stored →
                 ¬ (principal credential = username ∧ secret credential = password)) →
              authenticate m request
                = Some (ResultError ("Could not authenticate '" +:+ username +:+ "'")))))) ∧
  (∀ e, method request = "POST" →
     authenticate m request = Some (ResultError e) →
     status (Unauthorized "Mesos master" e) = 401%nat ∧
     teardown m request = respond m (Unauthorized "Mesos master" e) ∧
     ∀ endpoint, endpoint ∈ resource_endpoints →
       endpoint m request applied = respond m (Unauthorized "Mesos master" e)).
Proof.
  split; [|split].
  - intros Hnone. pose proof (authenticate_without_credentials m request Hnone) as Hauth.
    split; [done|]. split.
    + intros endpoint r Hin Hr Hs.
      destruct (resource_endpoint_status _ _ _ _ _ Hin Hr Hs) as [e He]. congruence.
    + intros r Hr Hs.
      destruct (teardown_status _ _ _ Hr Hs) as [[e He] | (credential & Hc & Hdenied)];
        [congruence|].
      rewrite Hauth in Hc. by injection Hc as <-.
  - intros stored Hstored. unfold authenticate. rewrite Hstored. split.
    + by intros ->.
    + intros authorization encoded -> ->. split.
      * by intros e ->.
      * intros decoded ->. split.
        -- intros Hlen. destruct (split decoded ":" 2) as [| a [| b [| c l]]]; try done.
        -- intros username password -> Hnomatch.
           destruct (find _ stored) as [credential|] eqn:Hfind; [|done].
           apply find_some in Hfind as [Hin Hmatch].
           apply andb_prop in Hmatch as [Hp Hs].
           apply bool_decide_eq_true in Hp, Hs.
           destruct (Hnomatch credential); [by apply list_elem_of_In | done].
  - intros e Hpost Hauth. split; [done|]. split.
    + unfold teardown. destruct (decide (method request ≠ "POST")); [contradiction|].
      by rewrite Hauth.
    + intros endpoint Hin. by apply resource_endpoint_unauthorized.
Qed.

End Authentication.

(** An Authorization header without a space has no second token:
    the source then reads past the end of the split vector, and no
    answer is defined. *)
Lemma authenticate_header_without_token :
  @authenticate Forms.wire Forms.secured (Forms.form (Some "Basic") EmptyString) = None ∧
  @reserve Scalars.algebra Forms.wire Forms.secured
    (Forms.form (Some "Basic") "slaveId=agent&resources=wanted") (Ready tt)
  = Undefined "split(authorization)[1]".
Proof. split; reflexivity. Qed.

(** C10 as first stated fails twice.  With teardown among the
    endpoints that never answer 401 without credentials: this master
    has no credentials, and its authorizer has the request answered 401
    all the same.  And with every request that lacks the Authorization
    header rejected as unauthorized: this master has credentials, the
    GET carries no header, authentication fails on it, and the
    endpoints answer 400 for the method before they authenticate. *)
Lemma unauthorized_not_by_credentials_alone :
  (credentials Forms.guarded = None ∧
   ∃ r, @teardown Forms.wire Example.actions Forms.guarded
          (Forms.form None "frameworkId=framework") = respond Forms.guarded r ∧
        status r = 401%nat) ∧
  (credentials Forms.secured = Some [mkCredential "ops" "secret"] ∧
   req_headers (mkRequest "GET" ∅ "slaveId=agent&resources=wanted") !! "Authorization"
     = None ∧
   @authenticate Forms.wire Forms.secured
     (mkRequest "GET" ∅ "slaveId=agent&resources=wanted")
     = Some (ResultError "Missing 'Authorization' request header") ∧
   ∃ r, @reserve Scalars.algebra Forms.wire Forms.secured
          (mkRequest "GET" ∅ "slaveId=agent&resources=wanted") (Ready tt)
          = respond Forms.secured r ∧
        @teardown Forms.wire Example.actions Forms.secured
          (mkRequest "GET" ∅ "frameworkId=framework") = respond Forms.secured r ∧
        status r = 400%nat).
Proof.
  split.
  - split; [reflexivity|]. eexists. split; reflexivity.
  - split; [reflexivity|]. split; [reflexivity|]. split; [reflexivity|].
    eexists. split; [reflexivity|]. split; reflexivity.
Qed.

Lemma authentication_gate_witness :
  @reserve Scalars.algebra Forms.wire Forms.secured
    (Forms.form (Some "Basic ops:wrong") "slaveId=agent&resources=wanted") (Ready tt)
  = respond Forms.secured (Unauthorized "Mesos master" "Could not authenticate 'ops'").
Proof.
  pose proof (@authentication_gate Scalars.algebra Forms.wire Example.actions
    Forms.secured (Forms.form (Some "Basic ops:wrong") "slaveId=agent&resources=wanted")
    (Ready tt)) as (_ & Hfails & Hrejects).
  destruct (Hfails [mkCredential "ops" "secret"] eq_refl) as [_ Hheader].
  destruct (Hheader "Basic ops:wrong" "ops:wrong" eq_refl eq_refl) as [_ Hdecoded].
  destruct (Hdecoded "ops:wrong" eq_refl) as [_ Hpair].
  refine (proj2 (proj2 (Hrejects _ eq_refl (Hpair "ops" "wrong" eq_refl _))) reserve _).
  - intros credential Hin [_ Hsecret].
    apply list_elem_of_singleton in Hin. subst credential. discriminate.
  - unfold resource_endpoints. rewrite !elem_of_cons. auto.
Defined.

(** ** Machine maintenance lifecycle *)

Lemma delete_machines_filter updated k (ids : list MachineID) :
  (k ≤ length ids)%nat →
  delete_machines updated k ids
    = (filter (λ id, id ∉ updated) (take k ids) ++ drop k ids)%list.
Proof.
  revert ids. induction k as [| k IH]; intros ids Hk; simpl.
  - done.
  - destruct (lookup_lt_is_Some_2 ids k ltac:(lia)) as [id Hid]. rewrite Hid.
    rewrite (take_S_r _ _ _ Hid), filter_app, <- (assoc_L (++)).
    destruct (decide (id ∈ updated)) as [Hin | Hout].
    + unfold DeleteSubrange. rewrite IH by (rewrite length_delete by eauto; lia).
      rewrite (delete_take_drop ids k).
      rewrite take_app_length' by (rewrite length_take; lia).
      rewrite drop_app_length' by (rewrite length_take; lia).
      rewrite filter_cons_False by (intros Hn; by apply Hn). done.
    + rewrite IH by lia. rewrite (drop_S _ _ _ Hid).
      rewrite filter_cons_True by done. done.
Qed.

Lemma delete_windows_omap updated j (ws : list Window) :
  (j ≤ length ws)%nat →
  delete_windows updated j ws
    = (omap (pruned_window updated) (take j ws) ++ drop j ws)%list.
Proof.
  revert ws. induction j as [| j IH]; intros ws Hj; simpl.
  - done.
  - destruct (lookup_lt_is_Some_2 ws j ltac:(lia)) as [window Hw]. rewrite Hw.
    rewrite (take_S_r _ _ _ Hw), omap_app, <- (assoc_L (++)). simpl.
    rewrite delete_machines_filter, firstn_all, drop_all, app_nil_r by done.
    unfold pruned_window.
    destruct (decide (length (filter (λ id, id ∉ updated) (machine_ids window)) = 0%nat)).
    + unfold DeleteSubrange. rewrite IH by (rewrite length_delete by eauto; lia).
      rewrite (delete_take_drop ws j).
      rewrite take_app_length' by (rewrite length_take; lia).
      rewrite drop_app_length' by (rewrite length_take; lia). done.
    + rewrite IH by (rewrite length_insert; lia).
      rewrite (insert_take_drop ws j) by lia.
      rewrite take_app_length' by (rewrite length_take; lia).
      rewrite drop_app_length' by (rewrite length_take; lia). done.
Qed.

(** The three nested loops of machine-up amount to pruning every
    schedule, window by window. *)
Lemma delete_schedules_omap updated ss :
  delete_schedules updated ss = omap (pruned_schedule updated) ss.
Proof.
  induction ss as [| schedule rest IH]; simpl; [done|].
  rewrite delete_windows_omap, firstn_all, drop_all, app_nil_r by done.
  unfold pruned_schedule.
  destruct (decide (length (omap (pruned_window updated) (windows schedule)) = 0%nat));
    by rewrite IH.
Qed.

Lemma update_machine_lookup f id id' (ms : gmap MachineID Machine) :
  update_machine f id ms !! id' =
    if decide (id = id') then Some (f (machine_at id ms)) else ms !! id'.
Proof. unfold update_machine. apply lookup_insert. Qed.

Lemma reactivate_machine_is st id id' :
  id' = id ∨ machine_is id' UP None st.1 →
  machine_is id' UP None (reactivate st id).1.
Proof.
  unfold reactivate, mark, machine_is. simpl.
  intros Hcase. rewrite update_machine_lookup.
  destruct (decide (id = id')) as [-> | Hne].
  - eexists. split; [done|]. unfold machine_at. rewrite update_machine_lookup.
    destruct (decide (id' = id')); [|done]. split; reflexivity.
  - rewrite update_machine_lookup. destruct (decide (id = id')); [done|].
    destruct Hcase as [-> | Hkept]; done.
Qed.

Lemma reactivate_all ids st :
  let st' := foldl reactivate st ids in
  st'.2 = list_to_set ids ∪ st.2 ∧
  schedules st'.1 = schedules st.1 ∧
  ∀ id, id ∈ ids ∨ machine_is id UP None st.1 → machine_is id UP None st'.1.
Proof.
  revert st. induction ids as [| id ids IH]; intros st; simpl.
  - split; [set_solver|]. split; [done|]. intros id [Hin | Hkept]; [|done].
    by apply elem_of_nil in Hin.
  - destruct (IH (reactivate st id)) as (Hset & Hschedules & Hup).
    split; [|split].
    + rewrite Hset. simpl. set_solver.
    + by rewrite Hschedules.
    + intros id' Hcase. apply Hup.
      destruct Hcase as [Hin | Hkept]; [apply elem_of_cons in Hin as [-> | Hin]|].
      * right. apply reactivate_machine_is. by left.
      * by left.
      * right. apply reactivate_machine_is. by right.
Qed.

Lemma pruned_window_spec updated window window' :
  pruned_window updated window = Some window' →
  machine_ids window' ≠ [] ∧ ∀ id, id ∈ updated → id ∉ machine_ids window'.
Proof.
  unfold pruned_window.
  destruct (decide _) as [| Hlen]; [discriminate|]. intros [= <-]. simpl. split.
  - intros Hnil. by rewrite Hnil in Hlen.
  - intros id Hin Hfiltered. apply list_elem_of_filter in Hfiltered as [Hout _]. done.
Qed.

Lemma pruned_schedule_spec updated schedule schedule' :
  pruned_schedule updated schedule = Some schedule' →
  windows schedule' ≠ [] ∧
  ∀ window, window ∈ windows schedule' →
    machine_ids window ≠ [] ∧ ∀ id, id ∈ updated → id ∉ machine_ids window.
Proof.
  unfold pruned_schedule.
  destruct (decide _) as [| Hlen]; [discriminate|]. intros [= <-]. simpl. split.
  - intros Hnil. by rewrite Hnil in Hlen.
  - intros window Hin. apply list_elem_of_omap in Hin as (original & _ & Hpruned).
    by eapply pruned_window_spec.
Qed.

Section MachineUp.
Context `{MaintenanceWire}.

(** C5: a machine-up request that the registrar accepts is answered
    200 OK and leaves every listed machine UP with no unavailability;
    the stored schedules are the old ones with the listed machines
    taken out of every window, windows left empty dropped, and
    schedules left empty dropped, so that no stored schedule is empty,
    none has an empty window, and none names a listed machine. *)
Theorem machineUp_prunes m request ids :
  machine_request DOWN not_down m request = inr ids →
  ∃ m', machineUp m request true = respond m' OK ∧
    (∀ id, id ∈ ids → machine_is id UP None m') ∧
    schedules m' = omap (pruned_schedule (list_to_set ids)) (schedules m) ∧
    (∀ schedule, schedule ∈ schedules m' →
       windows schedule ≠ [] ∧
       ∀ window, window ∈ windows schedule →
         machine_ids window ≠ [] ∧ ∀ id, id ∈ ids → id ∉ machine_ids window).
Proof.
  intros Hrequest. unfold machineUp. rewrite Hrequest. unfold machineUp_then. simpl negb.
  cbv iota.
  pose proof (reactivate_all ids (emit (RegistrarApply (StopMaintenance ids)) m, ∅))
    as (Hset & Hschedules & Hup).
  destruct (foldl reactivate _ ids) as [m1 updated]. simpl in Hset, Hschedules, Hup.
  rewrite (right_id_L ∅ (∪)) in Hset. subst updated.
  eexists. split; [reflexivity|]. simpl. rewrite delete_schedules_omap, Hschedules.
  split; [|split].
  - intros id Hin. destruct (Hup id (or_introl Hin)) as (machine & ? & ? & ?).
    by exists machine.
  - done.
  - intros schedule Hin. apply list_elem_of_omap in Hin as (original & _ & Hpruned).
    destruct (pruned_schedule_spec _ _ _ Hpruned) as [Hwindows Hids].
    split; [done|]. intros window Hw. destruct (Hids window Hw) as [Hne Hout].
    split; [done|]. intros id Hid. apply Hout. by apply elem_of_list_to_set.
Qed.

End MachineUp.

(** *** Schedule update *)

Lemma last_filter_cons {A} (P : A → Prop) `{∀ x, Decision (P x)} x (l : list A) :
  last (filter P (x :: l)) =
    match last (filter P l) with
    | Some y => Some y
    | None => if decide (P x) then Some x else None
    end.
Proof.
  destruct (decide (P x)) as [Hp | Hn].
  - rewrite filter_cons_True by done. rewrite last_cons. by destruct (last _).
  - rewrite filter_cons_False by done. by destruct (last _).
Qed.

Lemma window_of_elem schedule id w :
  window_of schedule id = Some w → w ∈ windows schedule ∧ id ∈ machine_ids w.
Proof.
  unfold window_of. intros Hlast.
  assert (w ∈ filter (λ w, id ∈ machine_ids w) (windows schedule)) as Hin.
  { apply last_Some in Hlast as [l ->]. apply elem_of_app. right. by left. }
  apply list_elem_of_filter in Hin. tauto.
Qed.

Lemma window_of_None schedule id :
  window_of schedule id = None ↔ id ∉ scheduled schedule.
Proof.
  unfold window_of, scheduled. rewrite last_None. split.
  - intros Hnil Hin. apply list_elem_of_bind in Hin as (w & Hid & Hw).
    by apply (filter_nil_not_elem_of _ _ w Hnil Hid).
  - intros Hout. apply elem_of_nil_inv. intros w Hw.
    apply list_elem_of_filter in Hw as [Hid Hw]. apply Hout.
    apply list_elem_of_bind. eauto.
Qed.

(** A machine that the schedule names once has the window that names it. *)
Lemma window_of_unique schedule id w :
  NoDup (scheduled schedule) →
  w ∈ windows schedule → id ∈ machine_ids w → window_of schedule id = Some w.
Proof.
  unfold window_of, scheduled. destruct schedule as [ws]. simpl.
  induction ws as [| w' ws IH]; intros Hnodup Hw Hid.
  - by apply elem_of_nil in Hw.
  - simpl in Hnodup. apply NoDup_app in Hnodup as (_ & Hdisjoint & Hrest).
    rewrite last_filter_cons. apply elem_of_cons in Hw as [<- | Hw].
    + destruct (decide (id ∈ machine_ids w)); [|done].
      destruct (last _) as [w''|] eqn:Hlast; [|done]. exfalso.
      apply last_Some_elem_of, list_elem_of_filter in Hlast as [Hid'' Hw''].
      apply (Hdisjoint id Hid). apply list_elem_of_bind. eauto.
    + by rewrite (IH Hrest Hw Hid).
Qed.

Lemma insert_all_lookup (x : Unavailability) ids (updated : gmap MachineID Unavailability) id :
  foldl (λ updated id, <[ id := x ]> updated) updated ids !! id =
    if decide (id ∈ ids) then Some x else updated !! id.
Proof.
  revert updated. induction ids as [| id' ids IH]; intros updated; simpl.
  - destruct (decide (id ∈ [])) as [Hin |]; [by apply elem_of_nil in Hin | done].
  - rewrite IH. destruct (decide (id ∈ ids)) as [Hin | Hout].
    + rewrite decide_True by (apply elem_of_cons; by right). done.
    + rewrite lookup_insert. destruct (decide (id' = id)) as [-> | Hne].
      * rewrite decide_True by (apply elem_of_cons; by left). done.
      * rewrite decide_False; [done|]. rewrite elem_of_cons. intros [-> | ?]; done.
Qed.

Lemma collect_updated_lookup schedule id :
  collect_updated schedule !! id = window_unavailability <$> window_of schedule id.
Proof.
  unfold collect_updated, window_of.
  assert (∀ ws (updated : gmap MachineID Unavailability),
    foldl (λ updated window,
             foldl (λ updated id, <[ id := window_unavailability window ]> updated)
               updated (machine_ids window)) updated ws !! id
    = match last (filter (λ w, id ∈ machine_ids w) ws) with
      | Some w => Some (window_unavailability w)
      | None => updated !! id
      end) as Hgen.
  { induction ws as [| w ws IH]; intros updated; simpl; [done|].
    rewrite IH, last_filter_cons, insert_all_lookup.
    destruct (last _); [done|]. by destruct (decide (id ∈ machine_ids w)). }
  rewrite Hgen. by destruct (last _).
Qed.

Lemma machine_at_update f id id' (ms : gmap MachineID Machine) :
  machine_at id' (update_machine f id ms) =
    if decide (id = id') then f (machine_at id ms) else machine_at id' ms.
Proof.
  unfold machine_at at 1. rewrite update_machine_lookup.
  by destruct (decide (id = id')).
Qed.

Lemma update_known_machines updated m id id' :
  machines (update_known updated m id) !! id' =
    if decide (id = id') then Some (known_after updated id (machine_at id (machines m)))
    else machines m !! id'.
Proof.
  unfold update_known, known_after, updateUnavailability.
  destruct (updated !! id); simpl; rewrite update_machine_lookup.
  - done.
  - destruct (decide (id = id')) as [-> | Hne].
    + rewrite machine_at_update. by rewrite decide_True.
    + rewrite update_machine_lookup. by rewrite decide_False.
Qed.

Lemma known_after_idempotent updated id machine :
  known_after updated id (known_after updated id machine) = known_after updated id machine.
Proof. unfold known_after. by destruct (updated !! id). Qed.

Lemma update_known_all updated known m id :
  machines (foldl (update_known updated) m known) !! id =
    if decide (id ∈ known)
    then Some (known_after updated id (machine_at id (machines m)))
    else machines m !! id.
Proof.
  revert m. induction known as [| id0 known IH]; intros m; simpl.
  - destruct (decide (id ∈ [])) as [Hin |]; [by apply elem_of_nil in Hin | done].
  - rewrite IH. unfold machine_at at 1. rewrite update_known_machines.
    destruct (decide (id ∈ id0 :: known)) as [Hc | Hc]; rewrite elem_of_cons in Hc;
      destruct (decide (id ∈ known)) as [Hin | Hout];
      destruct (decide (id0 = id)) as [-> | Hne]; simpl;
      rewrite ?known_after_idempotent; try done; exfalso; naive_solver.
Qed.

Lemma save_machine_machines window m id id' :
  machines (save_machine window m id) !! id' =
    if decide (id = id') then Some (saved id window (machine_at id (machines m)))
    else machines m !! id'.
Proof.
  unfold save_machine, updateUnavailability, saved. simpl.
  rewrite update_machine_lookup. destruct (decide (id = id')) as [-> | Hne].
  - rewrite machine_at_update. by rewrite decide_True.
  - rewrite update_machine_lookup. by rewrite decide_False.
Qed.

Lemma save_machine_all window ids m id :
  machines (foldl (save_machine window) m ids) !! id =
    if decide (id ∈ ids) then Some (saved id window (machine_at id (machines m)))
    else machines m !! id.
Proof.
  revert m. induction ids as [| id0 ids IH]; intros m; simpl.
  - destruct (decide (id ∈ [])) as [Hin |]; [by apply elem_of_nil in Hin | done].
  - rewrite IH. unfold machine_at at 1. rewrite save_machine_machines.
    destruct (decide (id ∈ id0 :: ids)) as [Hc | Hc]; rewrite elem_of_cons in Hc;
      destruct (decide (id ∈ ids)) as [Hin | Hout];
      destruct (decide (id0 = id)) as [-> | Hne]; simpl;
      try done; exfalso; naive_solver.
Qed.

Lemma save_windows_all ws m id :
  machines (foldl (λ m window, foldl (save_machine window) m (machine_ids window)) m ws)
    !! id =
    match last (filter (λ w, id ∈ machine_ids w) ws) with
    | Some w => Some (saved id w (machine_at id (machines m)))
    | None => machines m !! id
    end.
Proof.
  revert m. induction ws as [| w ws IH]; intros m; simpl; [done|].
  rewrite IH, last_filter_cons. unfold machine_at at 1. rewrite save_machine_all.
  destruct (last _) as [w'|].
  - by destruct (decide (id ∈ machine_ids w)).
  - by destruct (decide (id ∈ machine_ids w)).
Qed.

Lemma elem_of_known (ms : gmap MachineID Machine) id :
  id ∈ (map_to_list ms).*1 ↔ is_Some (ms !! id).
Proof.
  rewrite list_elem_of_fmap. split.
  - intros ([id' machine] & -> & Hin). apply elem_of_map_to_list in Hin. eauto.
  - intros [machine Hm]. exists (id, machine). split; [done|].
    by apply elem_of_map_to_list.
Qed.

(** The machines after the continuation of a schedule update. *)
Lemma maintenanceSchedule_then_machines schedule m :
  ∃ m', maintenanceSchedule_then schedule true m = respond m' OK ∧
    schedules m' = [schedule] ∧
    ∀ id, machines m' !! id =
      match window_of schedule id with
      | Some w =>
        Some (saved id w
                (default default_machine
                   (known_after (collect_updated schedule) id <$> machines m !! id)))
      | None => known_after (collect_updated schedule) id <$> machines m !! id
      end.
Proof.
  unfold maintenanceSchedule_then. simpl negb. cbv iota.
  eexists. split; [reflexivity|]. split; [reflexivity|].
  intros id. simpl. unfold window_of. rewrite save_windows_all.
  unfold machine_at. rewrite update_known_all.
  destruct (decide (id ∈ (map_to_list (machines m)).*1)) as [Hin | Hout].
  - apply elem_of_known in Hin as [machine Hm]. unfold machine_at. rewrite Hm. done.
  - rewrite elem_of_known, <- eq_None_not_Some in Hout. rewrite Hout. done.
Qed.

Section ScheduleUpdate.
Context `{MaintenanceWire}.

Lemma maintenanceSchedule_posts m request schedule result :
  posts request schedule →
  validation_schedule schedule (machines m) = TrySome tt →
  maintenanceSchedule m request result =
    maintenanceSchedule_then schedule result
      (emit (RegistrarApply (UpdateSchedule schedule)) m).
Proof.
  intros (Hpost & json & Hjson & Hproto) Hvalid. unfold maintenanceSchedule.
  rewrite Hpost, Hjson, Hproto, Hvalid.
  destruct (decide _) as [[_ Hne] |]; [by destruct Hne|].
  destruct (decide _); done.
Qed.

(** C2: a posted schedule that is valid and persisted is answered 200
    OK, and then every machine the schedule names is DRAINING with the
    unavailability of the window that names it (the last such window,
    should several name it); every machine that was known and is not
    named by the schedule is UP without unavailability; and the stored
    schedules are the new schedule alone. *)
Theorem schedule_update_is_a_diff m request schedule :
  posts request schedule →
  validation_schedule schedule (machines m) = TrySome tt →
  ∃ m', maintenanceSchedule m request true = respond m' OK ∧
    (∀ id w, window_of schedule id = Some w →
       machine_is id DRAINING (Some (window_unavailability w)) m') ∧
    (NoDup (scheduled schedule) →
     ∀ w id, w ∈ windows schedule → id ∈ machine_ids w →
       machine_is id DRAINING (Some (window_unavailability w)) m') ∧
    (∀ id, is_Some (machines m !! id) → id ∉ scheduled schedule →
       machine_is id UP None m') ∧
    schedules m' = [schedule].
Proof.
  intros Hposts Hvalid. rewrite (maintenanceSchedule_posts _ _ _ _ Hposts Hvalid).
  destruct (maintenanceSchedule_then_machines schedule
              (emit (RegistrarApply (UpdateSchedule schedule)) m))
    as (m' & -> & Hschedules & Hmachines).
  assert (∀ id w, window_of schedule id = Some w →
            machine_is id DRAINING (Some (window_unavailability w)) m') as Hnamed.
  { intros id w Hw. eexists. rewrite Hmachines, Hw. done. }
  exists m'. split; [done|]. split; [done|]. split; [|split; [|done]].
  - intros Hnodup w id Hw Hid. apply Hnamed. by apply window_of_unique.
  - intros id [machine Hm] Hout. eexists. rewrite Hmachines.
    apply window_of_None in Hout as Hnone. rewrite Hnone. simpl. rewrite Hm. simpl.
    split; [done|]. unfold known_after.
    rewrite collect_updated_lookup, Hnone. done.
Qed.

End ScheduleUpdate.

Lemma schedule_update_is_a_diff_witness :
  ∃ m', @maintenanceSchedule Cluster.wire Cluster.draining (Cluster.post "new") true
          = respond m' OK ∧
        machine_is Cluster.M1 UP None m' ∧
        machine_is Cluster.M2 DRAINING (Some Cluster.u2) m' ∧
        machine_is Cluster.M3 DRAINING (Some Cluster.u2) m' ∧
        schedules m' = [Cluster.new_schedule].
Proof.
  destruct (@schedule_update_is_a_diff Cluster.wire Cluster.draining
              (Cluster.post "new") Cluster.new_schedule)
    as (m' & Hresponse & Hnamed & _ & Hdropped & Hschedules).
  - split; [reflexivity|]. exists Cluster.new_schedule. split; reflexivity.
  - reflexivity.
  - exists m'. split; [exact Hresponse|]. split; [|split; [|split]].
    + apply Hdropped; [by eexists|].
      unfold scheduled. simpl. rewrite !elem_of_cons, elem_of_nil.
      intros [? | [? | []]]; discriminate.
    + exact (Hnamed Cluster.M2 (mkWindow [Cluster.M2; Cluster.M3] Cluster.u2) eq_refl).
    + exact (Hnamed Cluster.M3 (mkWindow [Cluster.M2; Cluster.M3] Cluster.u2) eq_refl).
    + exact Hschedules.
Defined.

Lemma machineUp_prunes_witness :
  ∃ m', @machineUp Cluster.wire Cluster.down (Cluster.post "m1") true = respond m' OK ∧
        machine_is Cluster.M1 UP None m' ∧
        schedules m' = [mkSchedule [mkWindow [Cluster.M2] Cluster.u1]].
Proof.
  destruct (@machineUp_prunes Cluster.wire Cluster.down (Cluster.post "m1")
              [Cluster.M1] eq_refl) as (m' & Hresponse & Hup & Hschedules & _).
  exists m'. split; [exact Hresponse|]. split.
  - apply Hup. apply list_elem_of_singleton. reflexivity.
  - rewrite Hschedules. reflexivity.
Defined.

(** *** Machine down *)

Lemma advanced_refl m : advanced m m.
Proof. repeat split; auto. Qed.

Lemma shut_down_advanced slaveId m m1 m2 :
  shut_down slaveId m m1 → advanced m1 m2 → shut_down slaveId m m2.
Proof.
  intros (Hgone & slave & Hslave & Hsent) (Hslaves & Hkept & _ & _). split.
  - destruct (Hslaves slaveId) as [Hnone | Hsame]; [done | by rewrite Hsame].
  - exists slave. auto.
Qed.

Lemma advanced_shut_down slaveId m m1 m2 :
  advanced m m1 → shut_down slaveId m1 m2 → shut_down slaveId m m2.
Proof.
  intros (Hslaves & _ & _ & _) (Hgone & slave & Hslave & Hsent). split; [done|].
  exists slave. split; [|done].
  destruct (Hslaves slaveId) as [Hnone | Hsame]; congruence.
Qed.

Lemma advanced_trans m m1 m2 : advanced m m1 → advanced m1 m2 → advanced m m2.
Proof.
  intros H1 H2.
  pose proof H1 as (Hslaves1 & Hsent1 & Hlocated1 & Hinfo1).
  pose proof H2 as (Hslaves2 & Hsent2 & Hlocated2 & Hinfo2).
  split; [|split; [|split]].
  - intros slaveId. destruct (Hslaves2 slaveId) as [Hnone | Hsame]; [by left|].
    rewrite Hsame. apply Hslaves1.
  - auto.
  - intros id slaveId Hl. destruct (Hlocated1 id slaveId Hl) as [Hl1 | Hdown].
    + destruct (Hlocated2 id slaveId Hl1) as [Hl2 | Hdown]; [by left|].
      right. by eapply advanced_shut_down.
    + right. by eapply shut_down_advanced.
  - intros id. by rewrite Hinfo2.
Qed.

(** One agent told to shut down and removed (lines 2325-2336). *)
Lemma shutdown_step slaveId slave m :
  slaves m !! slaveId = Some slave →
  let m' := removeSlave slaveId slave
              (emit (ShutdownMessage (pid slave) machine_down_message) m) in
  advanced m m' ∧ shut_down slaveId m m'.
Proof.
  intros Hslave m'.
  assert (shut_down slaveId m m') as Hdown.
  { split; [apply lookup_delete_eq|]. exists slave. split; [done|].
    simpl. apply elem_of_app. right. by left. }
  split; [|done]. split; [|split; [|split]].
  - intros slaveId'. simpl. destruct (decide (slaveId = slaveId')) as [<- | Hne].
    + left. apply lookup_delete_eq.
    + right. by apply lookup_delete_ne.
  - intros e He. simpl. apply elem_of_app. by left.
  - intros id slaveId' (machine & Hmachine & Hin).
    destruct (decide (slaveId' = slaveId)) as [-> | Hne]; [by right|]. left.
    unfold located. simpl. destruct (decide (machineId slave = id)) as [<- | Hother].
    + rewrite lookup_alter_eq, Hmachine. simpl. eexists. split; [done|]. simpl.
      set_solver.
    + rewrite lookup_alter_ne by done. eauto.
  - intros id. simpl. destruct (decide (machineId slave = id)) as [<- | Hother].
    + rewrite lookup_alter_eq. by destruct (machines m !! machineId slave).
    + by rewrite lookup_alter_ne.
Qed.

Lemma shutdown_slaves_advanced slaveIds m m' :
  shutdown_slaves slaveIds m = Some m' →
  advanced m m' ∧ ∀ slaveId, slaveId ∈ slaveIds → shut_down slaveId m m'.
Proof.
  revert m. induction slaveIds as [| slaveId rest IH]; intros m; simpl.
  - intros [= <-]. split; [apply advanced_refl|]. intros ? Hin.
    by apply elem_of_nil in Hin.
  - destruct (slaves m !! slaveId) as [slave|] eqn:Hslave; [|discriminate].
    intros Hrest. destruct (shutdown_step slaveId slave m Hslave) as [Hstep Hdown].
    destruct (IH _ Hrest) as [Hadvanced Hall]. split.
    + by eapply advanced_trans.
    + intros slaveId' Hin. apply elem_of_cons in Hin as [-> | Hin].
      * by eapply shut_down_advanced.
      * eapply advanced_shut_down; [done | by apply Hall].
Qed.

Lemma shutdown_machines_advanced ids m m' :
  shutdown_machines ids m = Some m' →
  advanced m m' ∧
  ∀ id slaveId, id ∈ ids → located slaveId id m → shut_down slaveId m m'.
Proof.
  revert m. induction ids as [| id rest IH]; intros m; simpl.
  - intros [= <-]. split; [apply advanced_refl|]. intros ? ? Hin.
    by apply elem_of_nil in Hin.
  - destruct (machines m !! id) as [machine|] eqn:Hmachine.
    + destruct (shutdown_slaves _ m) as [m1|] eqn:Hinner; [|discriminate].
      intros Hrest. destruct (shutdown_slaves_advanced _ _ _ Hinner) as [Hstep Hall].
      destruct (IH _ Hrest) as [Hadvanced Hothers].
      split; [by eapply advanced_trans|].
      intros id' slaveId Hin Hlocated.
      pose proof Hstep as (_ & _ & Hmoved & _).
      apply elem_of_cons in Hin as [-> | Hin].
      * destruct Hlocated as (machine' & Hm' & Hs). rewrite Hmachine in Hm'.
        injection Hm' as <-. eapply shut_down_advanced; [|done].
        apply Hall. by apply elem_of_elements.
      * destruct (Hmoved id' slaveId Hlocated) as [Hstill | Hdown].
        -- eapply advanced_shut_down; [done|]. by eapply Hothers.
        -- by eapply shut_down_advanced.
    + intros Hrest. destruct (IH _ Hrest) as [Hadvanced Hothers].
      split; [done|]. intros id' slaveId Hin Hlocated.
      apply elem_of_cons in Hin as [-> | Hin]; [|by eapply Hothers].
      destruct Hlocated as (machine & Hm & _). congruence.
Qed.

Lemma shutdown_step_registered slaveId slave m :
  agents_registered m →
  slaves m !! slaveId = Some slave →
  agents_registered (removeSlave slaveId slave
                       (emit (ShutdownMessage (pid slave) machine_down_message) m)).
Proof.
  intros Hreg Hslave id slaveId' (machine' & Hmachine' & Hin). simpl in Hmachine'.
  assert (located slaveId' id m ∧ slaveId' ≠ slaveId) as [Hlocated Hne].
  { destruct (decide (machineId slave = id)) as [<- | Hother].
    - rewrite lookup_alter_eq in Hmachine'.
      destruct (machines m !! machineId slave) as [machine|] eqn:Hmachine; [|done].
      injection Hmachine' as <-. simpl in Hin. apply elem_of_difference in Hin as [Hin Hne].
      split; [by exists machine|]. set_solver.
    - rewrite lookup_alter_ne in Hmachine' by done.
      assert (located slaveId' id m) as Hlocated by (by exists machine').
      split; [done|]. intros ->.
      destruct (Hreg id slaveId Hlocated) as (slave' & Hslave' & Hid). congruence. }
  destruct (Hreg id slaveId' Hlocated) as (slave' & Hslave' & Hid).
  exists slave'. split; [|done]. simpl. by rewrite lookup_delete_ne.
Qed.

Lemma shutdown_slaves_total slaveIds m :
  agents_registered m →
  NoDup slaveIds →
  (∀ slaveId, slaveId ∈ slaveIds → ∃ id, located slaveId id m) →
  ∃ m', shutdown_slaves slaveIds m = Some m' ∧ agents_registered m'.
Proof.
  revert m. induction slaveIds as [| slaveId rest IH]; intros m Hreg Hnodup Hall; simpl.
  - eauto.
  - apply NoDup_cons in Hnodup as [Hfresh Hnodup].
    destruct (Hall slaveId) as [id Hlocated]; [by left|].
    destruct (Hreg id slaveId Hlocated) as (slave & Hslave & _). rewrite Hslave.
    apply IH; [by apply shutdown_step_registered | done |].
    intros slaveId' Hin. destruct (Hall slaveId') as [id' Hlocated']; [by right|].
    exists id'. destruct (shutdown_step slaveId slave m Hslave) as [Hstep _].
    destruct Hstep as (_ & _ & Hmoved & _).
    destruct (Hmoved id' slaveId' Hlocated') as [Hstill | [Hgone _]]; [done|].
    exfalso. simpl in Hgone.
    destruct (Hreg id' slaveId' Hlocated') as (slave' & Hslave' & _).
    rewrite lookup_delete_ne in Hgone by (intros ->; done). congruence.
Qed.

Lemma shutdown_machines_total ids m :
  agents_registered m →
  ∃ m', shutdown_machines ids m = Some m' ∧ agents_registered m'.
Proof.
  revert m. induction ids as [| id rest IH]; intros m Hreg; simpl.
  - eauto.
  - destruct (machines m !! id) as [machine|] eqn:Hmachine; [|by apply IH].
    destruct (shutdown_slaves_total (elements (machine_slaves machine)) m Hreg)
      as (m1 & -> & Hreg1).
    + apply NoDup_elements.
    + intros slaveId Hin. exists id, machine. split; [done|].
      by apply elem_of_elements.
    + by apply IH.
Qed.

Lemma mark_all md ids m :
  let m' := foldl (mark md) m ids in
  slaves m' = slaves m ∧ sent m' = sent m ∧ schedules m' = schedules m ∧
  ∀ id, machines m' !! id =
          if decide (id ∈ ids) then Some (set_mode md (machine_at id (machines m)))
          else machines m !! id.
Proof.
  revert m. induction ids as [| id0 ids IH]; intros m; simpl.
  - repeat split.
  - destruct (IH (mark md m id0)) as (-> & -> & -> & Hmachines).
    repeat split. intros id. rewrite Hmachines. unfold mark. simpl.
    unfold machine_at at 1. rewrite !update_machine_lookup.
    destruct (decide (id ∈ id0 :: ids)) as [Hc | Hc]; rewrite elem_of_cons in Hc;
      destruct (decide (id ∈ ids)) as [Hin | Hout];
      destruct (decide (id0 = id)) as [-> | Hne]; simpl;
      try done; exfalso; naive_solver.
Qed.

Lemma mode_of_info id m m' :
  info <$> machines m' !! id = info <$> machines m !! id → mode_of id m' = mode_of id m.
Proof.
  unfold mode_of. destruct (machines m' !! id), (machines m !! id); simpl; congruence.
Qed.

Section MachineDown.
Context `{MaintenanceWire}.

Lemma check_machines_None expected complaint ids m :
  check_machines expected complaint ids m = None →
  ∀ id, id ∈ ids →
    ∃ machine, machines m !! id = Some machine ∧ mode (info machine) = expected.
Proof.
  induction ids as [| id0 ids IH]; simpl.
  - intros _ id Hin. by apply elem_of_nil in Hin.
  - destruct (machines m !! id0) as [machine|] eqn:Hmachine; [|discriminate].
    destruct (decide (mode (info machine) ≠ expected)) as [| Hmode]; [discriminate|].
    intros Hrest id Hin. apply elem_of_cons in Hin as [-> | Hin]; [|by apply IH].
    exists machine. split; [done|].
    by destruct (decide (mode (info machine) = expected)).
Qed.

Lemma check_machines_Some expected complaint ids m id :
  id ∈ ids → not_in_mode expected id m →
  ∃ rejected, check_machines expected complaint ids m = Some rejected ∧
              status rejected = 400%nat.
Proof.
  intros Hin Hbad. induction ids as [| id0 ids IH]; simpl.
  - by apply elem_of_nil in Hin.
  - destruct (machines m !! id0) as [machine|] eqn:Hmachine; [|by eexists].
    destruct (decide (mode (info machine) ≠ expected)) as [| Hmode]; [by eexists|].
    apply elem_of_cons in Hin as [-> | Hin]; [|by apply IH].
    destruct Hmode. by apply Hbad.
Qed.

Lemma machine_request_rejected expected complaint m request rejected :
  machine_request expected complaint m request = inl rejected → status rejected = 400%nat.
Proof.
  unfold machine_request.
  destruct (decide _); [by intros [= <-]|].
  destruct (JSON_parse_Array _) as [| jsonIds]; [by intros [= <-]|].
  destruct (protobuf_parse_MachineIDs _) as [| ids]; [by intros [= <-]|].
  destruct (validation_machines ids); [by intros [= <-]|].
  destruct (check_machines _ _ _ _) as [r|] eqn:Hcheck; [|discriminate].
  intros [= <-]. clear -Hcheck. induction ids as [| id0 ids IH]; simpl in Hcheck.
  - discriminate.
  - destruct (machines m !! id0) as [machine|]; [|by injection Hcheck as <-].
    destruct (decide _); [by injection Hcheck as <- | by apply IH].
Qed.

Lemma machine_request_lists expected complaint m request ids id :
  lists request ids → id ∈ ids → not_in_mode expected id m →
  ∃ rejected, machine_request expected complaint m request = inl rejected.
Proof.
  intros (Hpost & jsonIds & Hjson & Hproto) Hin Hbad. unfold machine_request.
  destruct (decide _); [by eexists|]. rewrite Hjson, Hproto.
  destruct (validation_machines ids); [by eexists|].
  destruct (check_machines_Some expected complaint ids m id Hin Hbad) as (r & -> & _).
  by eexists.
Qed.

Lemma machine_request_accepted expected complaint m request ids :
  machine_request expected complaint m request = inr ids →
  ∀ id, id ∈ ids → mode_of id m = expected ∧ is_Some (machines m !! id).
Proof.
  unfold machine_request.
  destruct (decide _); [discriminate|].
  destruct (JSON_parse_Array _) as [| jsonIds]; [discriminate|].
  destruct (protobuf_parse_MachineIDs _) as [| ids']; [discriminate|].
  destruct (validation_machines ids'); [discriminate|].
  destruct (check_machines _ _ _ _) eqn:Hcheck; [discriminate|].
  intros [= <-] id Hin.
  destruct (check_machines_None _ _ _ _ Hcheck id Hin) as (machine & Hm & Hmode).
  unfold mode_of. rewrite Hm. eauto.
Qed.

(** What a machine-down request that got past its checks leaves. *)
Lemma machineDown_accepted m request ids m' r :
  machine_request DRAINING not_draining m request = inr ids →
  machineDown m request true = Responded m' r →
  r = Ready OK ∧
  (∀ id slaveId, id ∈ ids → located slaveId id m → shut_down slaveId m m') ∧
  (∀ id, mode_of id m' = if decide (id ∈ ids) then DOWN else mode_of id m) ∧
  (∀ id, id ∈ ids → is_Some (machines m' !! id)).
Proof.
  intros Hrequest. unfold machineDown. rewrite Hrequest. unfold machineDown_then.
  simpl negb. cbv iota.
  destruct (shutdown_machines ids _) as [m1|] eqn:Hloop; [|discriminate].
  intros [= <- <-]. split; [done|].
  destruct (shutdown_machines_advanced _ _ _ Hloop) as [Hadvanced Hdown].
  destruct (mark_all DOWN ids m1) as (Hslaves & Hsent & _ & Hmachines).
  split; [|split].
  - intros id slaveId Hin Hlocated.
    destruct (Hdown id slaveId Hin Hlocated) as (Hgone & slave & Hslave & Hmsg).
    split; [by rewrite Hslaves|]. exists slave. split; [done | by rewrite Hsent].
  - intros id. unfold mode_of at 1. rewrite Hmachines.
    destruct (decide (id ∈ ids)); [done|].
    destruct Hadvanced as (_ & _ & _ & Hinfo). by apply mode_of_info.
  - intros id Hin. rewrite Hmachines. destruct (decide (id ∈ ids)); [by eexists | done].
Qed.

(** C4: when the registrar has accepted a machine-down request, every
    agent that was running on a listed machine has been sent the
    shutdown message and is no longer registered, whether or not it
    ever answers, and every listed machine is DOWN; and the request is
    answered 200 OK whenever the agents the master places on machines
    are registered agents of those machines. *)
Theorem machineDown_removes_agents m request ids :
  machine_request DRAINING not_draining m request = inr ids →
  (agents_registered m → ∃ m', machineDown m request true = respond m' OK) ∧
  (∀ m', machineDown m request true = respond m' OK →
     (∀ id slaveId, id ∈ ids → located slaveId id m →
        slaves m' !! slaveId = None ∧
        ∃ slave, slaves m !! slaveId = Some slave ∧
                 ShutdownMessage (pid slave) "Operator initiated 'Machine DOWN'"
                   ∈ sent m') ∧
     (∀ id, id ∈ ids →
        ∃ machine, machines m' !! id = Some machine ∧ mode (info machine) = DOWN)).
Proof.
  intros Hrequest. split.
  - intros Hreg. unfold machineDown. rewrite Hrequest. unfold machineDown_then.
    simpl negb. cbv iota.
    destruct (shutdown_machines_total ids
                (emit (RegistrarApply (StartMaintenance ids)) m)) as (m1 & -> & _).
    + intros id slaveId Hlocated. by apply Hreg.
    + by eexists.
  - intros m' Hresponse.
    destruct (machineDown_accepted _ _ _ _ _ Hrequest Hresponse)
      as (_ & Hdown & Hmode & Hknown).
    split; [exact Hdown|]. intros id Hin.
    destruct (Hknown id Hin) as [machine Hmachine]. exists machine.
    specialize (Hmode id). unfold mode_of in Hmode. rewrite Hmachine in Hmode.
    rewrite decide_True in Hmode by done. done.
Qed.

End MachineDown.

Lemma machineDown_removes_agents_witness :
  ∃ m', @machineDown Cluster.wire Cluster.draining (Cluster.post "m1") true
          = respond m' OK ∧
        slaves m' !! "agent" = None ∧
        ShutdownMessage "slave(1)@10.0.0.1:5051" "Operator initiated 'Machine DOWN'"
          ∈ sent m' ∧
        mode_of Cluster.M1 m' = DOWN.
Proof.
  destruct (@machineDown_removes_agents Cluster.wire Cluster.draining
              (Cluster.post "m1") [Cluster.M1] eq_refl) as [Hanswered Hafter].
  destruct Hanswered as [m' Hresponse].
  - intros id slaveId (machine & Hmachine & Hin).
    unfold Cluster.draining in Hmachine. simpl machines in Hmachine.
    rewrite lookup_insert in Hmachine.
    destruct (decide (Cluster.M1 = id)) as [<- | Hne1].
    + injection Hmachine as <-. simpl in Hin. apply elem_of_singleton in Hin as ->.
      eexists. split; reflexivity.
    + rewrite lookup_singleton in Hmachine.
      destruct (decide (Cluster.M2 = id)) as [<- | Hne2]; [|done].
      injection Hmachine as <-. simpl in Hin. by apply not_elem_of_empty in Hin.
  - exists m'. split; [exact Hresponse|].
    destruct (Hafter m' Hresponse) as [Hagents Hdown].
    destruct (Hagents Cluster.M1 "agent") as (Hgone & slave & Hslave & Hmessage).
    + apply list_elem_of_singleton. reflexivity.
    + exists (Cluster.known Cluster.M1 DRAINING {[ "agent" ]}).
      split; [reflexivity|]. simpl. apply elem_of_singleton. reflexivity.
    + split; [exact Hgone|]. injection Hslave as <-. split; [exact Hmessage|].
      destruct (Hdown Cluster.M1) as (machine & Hmachine & Hmode).
      * apply list_elem_of_singleton. reflexivity.
      * unfold mode_of. by rewrite Hmachine.
Defined.

(** *** Mode transitions *)

Lemma same_mode_no_skip md : ¬ skips_a_step md md.
Proof. intros [[-> ?] | [-> ?]]; discriminate. Qed.

Lemma validation_schedule_accepts schedule ms :
  validation_schedule schedule ms = TrySome tt →
  ∀ id, id ∈ scheduled schedule → mode (info (machine_at id ms)) ≠ DOWN.
Proof.
  unfold validation_schedule.
  destruct (find _ _) eqn:Hfind; [discriminate|]. intros _ id Hin Hdown.
  apply list_elem_of_In in Hin.
  pose proof (find_none _ _ Hfind id Hin) as Hnot. simpl in Hnot.
  by rewrite bool_decide_eq_true_2 in Hnot.
Qed.

Lemma reactivate_all_machines ids st id :
  machines (foldl reactivate st ids).1 !! id =
    if decide (id ∈ ids)
    then Some (set_unavailability None (set_mode UP (machine_at id (machines st.1))))
    else machines st.1 !! id.
Proof.
  revert st. induction ids as [| id0 ids IH]; intros st; simpl.
  - destruct (decide (id ∈ [])) as [Hin |]; [by apply elem_of_nil in Hin | done].
  - rewrite IH. unfold reactivate, mark. simpl.
    unfold machine_at at 1. rewrite !update_machine_lookup, !machine_at_update.
    destruct (decide (id ∈ id0 :: ids)) as [Hc | Hc]; rewrite elem_of_cons in Hc;
      destruct (decide (id ∈ ids)) as [Hin | Hout];
      destruct (decide (id0 = id)) as [-> | Hne]; simpl;
      rewrite ?decide_True by done;
      try done; exfalso; naive_solver.
Qed.

Section Transitions.
Context `{MaintenanceWire}.

(** The modes that the continuation of machine-down leaves, on
    whatever state it runs. *)
Lemma machineDown_then_modes ids result found m' r id :
  machineDown_then ids result found = Responded m' r →
  mode_of id m' = if decide (id ∈ ids) then DOWN else mode_of id found.
Proof.
  unfold machineDown_then. destruct result; [|discriminate]. simpl negb. cbv iota.
  destruct (shutdown_machines ids found) as [m1|] eqn:Hloop; [|discriminate].
  intros [= <- _].
  destruct (shutdown_machines_advanced _ _ _ Hloop) as [(_ & _ & _ & Hinfo) _].
  destruct (mark_all DOWN ids m1) as (_ & _ & _ & Hmachines).
  unfold mode_of at 1. rewrite Hmachines.
  destruct (decide (id ∈ ids)); [done|]. by apply mode_of_info.
Qed.

(** The modes that the continuation of machine-up leaves. *)
Lemma machineUp_then_modes ids result found m' r id :
  machineUp_then ids result found = Responded m' r →
  mode_of id m' = if decide (id ∈ ids) then UP else mode_of id found.
Proof.
  unfold machineUp_then. destruct result; [|discriminate]. simpl negb. cbv iota.
  pose proof (reactivate_all_machines ids (found, ∅) id) as Hmachines.
  destruct (foldl reactivate _ ids) as [m1 updated]. simpl in Hmachines.
  intros [= <- _]. unfold mode_of at 1. simpl machines. rewrite Hmachines.
  by destruct (decide (id ∈ ids)).
Qed.

(** The modes that the continuation of a schedule update leaves. *)
Lemma maintenanceSchedule_then_modes schedule result found m' r id :
  maintenanceSchedule_then schedule result found = Responded m' r →
  mode_of id m' = if decide (id ∈ scheduled schedule) then DRAINING else UP.
Proof.
  destruct result; [|discriminate].
  destruct (maintenanceSchedule_then_machines schedule found) as (m1 & -> & _ & Hmachines).
  intros [= <- _]. unfold mode_of. rewrite Hmachines.
  destruct (window_of schedule id) as [w|] eqn:Hw.
  - apply window_of_elem in Hw as [Hw Hid].
    rewrite decide_True; [done|]. unfold scheduled. apply list_elem_of_bind. eauto.
  - unfold known_after. rewrite collect_updated_lookup, Hw. simpl.
    apply window_of_None in Hw. rewrite decide_False by done.
    by destruct (machines found !! id).
Qed.

(** C3, as amended: a machine-down request that lists a machine which
    is unknown or not DRAINING is answered 400 and leaves the master as
    it was, and so is a machine-up request that lists a machine which
    is unknown or not DOWN.  The continuation of machine-down writes
    DOWN, that of machine-up writes UP, on the listed machines and on
    no other; that of a schedule update writes DRAINING on the machines
    the schedule names and UP on every other.  So a machine-down or
    machine-up request whose continuation finds the listed machines in
    the mode that its checks saw moves machines along the cycle UP,
    DRAINING, DOWN, UP only, as does either request taken as one step;
    and a schedule update whose continuation finds none of the named
    machines DOWN moves no machine from DOWN to DRAINING or from UP to
    DOWN (a machine the master does not track counts as UP). *)
Theorem mode_transitions_guarded m request result :
  (∀ ids id, lists request ids → id ∈ ids → not_in_mode DRAINING id m →
     ∃ rejected, machineDown m request result = respond m rejected ∧
                 status rejected = 400%nat) ∧
  (∀ ids id, lists request ids → id ∈ ids → not_in_mode DOWN id m →
     ∃ rejected, machineUp m request result = respond m rejected ∧
                 status rejected = 400%nat) ∧
  (∀ ids found m' r id,
     machineDown_then ids result found = Responded m' r →
     mode_of id m' = if decide (id ∈ ids) then DOWN else mode_of id found) ∧
  (∀ ids found m' r id,
     machineUp_then ids result found = Responded m' r →
     mode_of id m' = if decide (id ∈ ids) then UP else mode_of id found) ∧
  (∀ schedule found m' r id,
     maintenanceSchedule_then schedule result found = Responded m' r →
     mode_of id m' = if decide (id ∈ scheduled schedule) then DRAINING else UP) ∧
  (∀ ids found m' r id,
     machine_request DRAINING not_draining m request = inr ids →
     machineDown_then ids result found = Responded m' r →
     (id ∈ ids → mode_of id found = mode_of id m) →
     mode_of id m' = mode_of id found ∨
     follows_the_cycle (mode_of id found) (mode_of id m')) ∧
  (∀ ids found m' r id,
     machine_request DOWN not_down m request = inr ids →
     machineUp_then ids result found = Responded m' r →
     (id ∈ ids → mode_of id found = mode_of id m) →
     mode_of id m' = mode_of id found ∨
     follows_the_cycle (mode_of id found) (mode_of id m')) ∧
  (∀ schedule found m' r id,
     maintenanceSchedule_then schedule result found = Responded m' r →
     (id ∈ scheduled schedule → mode_of id found ≠ DOWN) →
     ¬ skips_a_step (mode_of id found) (mode_of id m')) ∧
  (∀ endpoint m' r id, endpoint ∈ machine_endpoints →
     endpoint m request result = Responded m' r →
     (mode_of id m' = mode_of id m ∨
      follows_the_cycle (mode_of id m) (mode_of id m')) ∧
     ¬ skips_a_step (mode_of id m) (mode_of id m')).
Proof.
  assert (∀ ids found m' r id,
            machine_request DRAINING not_draining m request = inr ids →
            machineDown_then ids result found = Responded m' r →
            (id ∈ ids → mode_of id found = mode_of id m) →
            mode_of id m' = mode_of id found ∨
            follows_the_cycle (mode_of id found) (mode_of id m')) as Hdown.
  { intros ids found m' r id Hrequest Hthen Hsame.
    rewrite (machineDown_then_modes _ _ _ _ _ id Hthen).
    destruct (decide (id ∈ ids)) as [Hin |]; [|by left].
    destruct (machine_request_accepted _ _ _ _ _ Hrequest id Hin) as [Hmode _].
    right. rewrite (Hsame Hin), Hmode. right. by left. }
  assert (∀ ids found m' r id,
            machine_request DOWN not_down m request = inr ids →
            machineUp_then ids result found = Responded m' r →
            (id ∈ ids → mode_of id found = mode_of id m) →
            mode_of id m' = mode_of id found ∨
            follows_the_cycle (mode_of id found) (mode_of id m')) as Hup.
  { intros ids found m' r id Hrequest Hthen Hsame.
    rewrite (machineUp_then_modes _ _ _ _ _ id Hthen).
    destruct (decide (id ∈ ids)) as [Hin |]; [|by left].
    destruct (machine_request_accepted _ _ _ _ _ Hrequest id Hin) as [Hmode _].
    right. rewrite (Hsame Hin), Hmode. right. by right. }
  split; [|split; [|split; [|split; [|split; [|split; [|split; [|split]]]]]]].
  - intros ids id Hlists Hin Hbad.
    destruct (machine_request_lists DRAINING not_draining m request ids id Hlists Hin Hbad)
      as [rejected Hrejected].
    exists rejected. unfold machineDown. rewrite Hrejected.
    split; [done | by eapply machine_request_rejected].
  - intros ids id Hlists Hin Hbad.
    destruct (machine_request_lists DOWN not_down m request ids id Hlists Hin Hbad)
      as [rejected Hrejected].
    exists rejected. unfold machineUp. rewrite Hrejected.
    split; [done | by eapply machine_request_rejected].
  - intros ids found m' r id. apply machineDown_then_modes.
  - intros ids found m' r id. apply machineUp_then_modes.
  - intros schedule found m' r id. apply maintenanceSchedule_then_modes.
  - exact Hdown.
  - exact Hup.
  - intros schedule found m' r id Hthen Hnot.
    rewrite (maintenanceSchedule_then_modes _ _ _ _ _ id Hthen).
    destruct (decide (id ∈ scheduled schedule)) as [Hin |].
    + intros [[Hdown' _] | [_ ?]]; [by apply (Hnot Hin) | discriminate].
    + intros [[_ ?] | [_ ?]]; discriminate.
  - assert (∀ before after,
              after = before ∨ follows_the_cycle before after →
              ¬ skips_a_step before after) as Hcycle.
    { intros before after [-> | [[-> ->] | [[-> ->] | [-> ->]]]];
        intros [[? ?] | [? ?]]; congruence. }
    intros endpoint m' r id. unfold machine_endpoints.
    rewrite !elem_of_cons, elem_of_nil. intros [-> | [-> | []]].
    + unfold machineDown.
      destruct (machine_request DRAINING not_draining m request)
        as [rejected | ids] eqn:Hrequest.
      * intros [= <- _]. split; [by left | apply same_mode_no_skip].
      * intros Hthen.
        assert (mode_of id m' = mode_of id m ∨
                follows_the_cycle (mode_of id m) (mode_of id m')) as Hmove
          by exact (Hdown ids _ m' r id eq_refl Hthen (λ _, eq_refl)).
        split; [exact Hmove | by apply Hcycle].
    + unfold machineUp.
      destruct (machine_request DOWN not_down m request)
        as [rejected | ids] eqn:Hrequest.
      * intros [= <- _]. split; [by left | apply same_mode_no_skip].
      * intros Hthen.
        assert (mode_of id m' = mode_of id m ∨
                follows_the_cycle (mode_of id m) (mode_of id m')) as Hmove
          by exact (Hup ids _ m' r id eq_refl Hthen (λ _, eq_refl)).
        split; [exact Hmove | by apply Hcycle].
Qed.

End Transitions.

(** The machine-down request for [m1] goes through on the draining
    cluster. *)
Lemma draining_brought_down :
  ∃ m', @machineDown Cluster.wire Cluster.draining (Cluster.post "m1") true
          = respond m' OK.
Proof. eexists. unfold respond. vm_compute. reflexivity. Qed.

(** C3 as first stated fails.  Not every transition follows the cycle:
    the schedule update of the draining cluster takes [M1], which the
    new schedule no longer names, from DRAINING straight back to UP.
    And a machine can go from UP straight to DOWN: a machine-down
    request for [M1] that is checked while the update is with the
    registrar finds [M1] DRAINING, and its continuation, which runs
    after that of the update, marks [M1] DOWN when it is UP. *)
Lemma schedule_update_leaves_the_cycle :
  (∃ m', @maintenanceSchedule Cluster.wire Cluster.draining (Cluster.post "new") true
           = respond m' OK ∧
         mode_of Cluster.M1 Cluster.draining = DRAINING ∧
         mode_of Cluster.M1 m' = UP ∧
         ¬ follows_the_cycle (mode_of Cluster.M1 Cluster.draining)
             (mode_of Cluster.M1 m')) ∧
  (let s1 := emit (RegistrarApply (UpdateSchedule Cluster.new_schedule))
               Cluster.draining in
   let s2 := emit (RegistrarApply (StartMaintenance [Cluster.M1])) s1 in
   @posts Cluster.wire (Cluster.post "new") Cluster.new_schedule ∧
   validation_schedule Cluster.new_schedule (machines Cluster.draining) = TrySome tt ∧
   @machine_request Cluster.wire DRAINING not_draining s1 (Cluster.post "m1")
     = inr [Cluster.M1] ∧
   ∃ s3 s4,
     maintenanceSchedule_then Cluster.new_schedule true s2 = respond s3 OK ∧
     machineDown_then [Cluster.M1] true s3 = respond s4 OK ∧
     mode_of Cluster.M1 s3 = UP ∧ mode_of Cluster.M1 s4 = DOWN ∧
     skips_a_step (mode_of Cluster.M1 s3) (mode_of Cluster.M1 s4)).
Proof.
  split.
  - eexists. split; [unfold respond; vm_compute; reflexivity|].
    split; [reflexivity|]. split; [vm_compute; reflexivity|].
    vm_compute. intros [[? ?] | [[? ?] | [? ?]]]; discriminate.
  - intros s1 s2. split; [|split; [|split]].
    + split; [reflexivity|]. eexists. split; reflexivity.
    + reflexivity.
    + vm_compute. reflexivity.
    + do 2 eexists. split; [unfold respond; vm_compute; reflexivity|].
      split; [unfold respond; vm_compute; reflexivity|].
      split; [vm_compute; reflexivity|]. split; [vm_compute; reflexivity|].
      right. split; vm_compute; reflexivity.
Qed.

Lemma mode_transitions_guarded_witness :
  (∃ rejected, @machineDown Cluster.wire Cluster.down (Cluster.post "m1") true
                 = respond Cluster.down rejected ∧ status rejected = 400%nat) ∧
  (∃ rejected, @machineUp Cluster.wire Cluster.draining (Cluster.post "m1,m3") true
                 = respond Cluster.draining rejected ∧ status rejected = 400%nat) ∧
  (∃ m', @machineDown Cluster.wire Cluster.draining (Cluster.post "m1") true
           = respond m' OK ∧
         (mode_of Cluster.M1 m' = mode_of Cluster.M1 Cluster.draining ∨
          follows_the_cycle (mode_of Cluster.M1 Cluster.draining)
            (mode_of Cluster.M1 m'))).
Proof.
  split; [|split].
  - refine (proj1 (@mode_transitions_guarded Cluster.wire Cluster.down
                     (Cluster.post "m1") true) [Cluster.M1] Cluster.M1 _ _ _).
    + split; [reflexivity|]. eexists. split; reflexivity.
    + apply list_elem_of_singleton. reflexivity.
    + intros machine Hmachine. injection Hmachine as <-. discriminate.
  - refine (proj1 (proj2 (@mode_transitions_guarded Cluster.wire Cluster.draining
                     (Cluster.post "m1,m3") true)) [Cluster.M1; Cluster.M3] Cluster.M3 _ _ _).
    + split; [reflexivity|]. eexists. split; reflexivity.
    + rewrite !elem_of_cons. auto.
    + intros machine Hmachine. discriminate.
  - destruct draining_brought_down as [m' Hdown]. exists m'. split; [exact Hdown|].
    refine (proj1 (proj2 (proj2 (proj2 (proj2 (proj2 (proj2 (proj2 (proj2
              (@mode_transitions_guarded Cluster.wire Cluster.draining
                 (Cluster.post "m1") true))))))))
              machineDown m' (Ready OK) Cluster.M1 _ Hdown)).
    unfold machine_endpoints. rewrite !elem_of_cons. auto.
Defined.

(** * Further properties *)

(** ** Scheduler endpoint *)

Section SchedulerAnswers.
Context `{SchedulerWire} `{MasterActions}.

Lemma decode_call_rejected request rejected :
  decode_call request = inl rejected →
  status rejected = 400%nat ∨ status rejected = 415%nat.
Proof.
  unfold decode_call.
  destruct (req_headers request !! "Content-Type") as [contentType|];
    [|intros [= <-]; by left].
  destruct (decide (contentType = APPLICATION_PROTOBUF)).
  { destruct (ParseFromString _); [discriminate | intros [= <-]; by left]. }
  destruct (decide (contentType = APPLICATION_JSON)); [|intros [= <-]; by right].
  destruct (JSON_parse _) as [| value]; [intros [= <-]; by left|].
  destruct (protobuf_parse value); [intros [= <-]; by left | discriminate].
Qed.

(** X1: whenever the scheduler endpoint answers, its status is one of
    503, 401, 405, 400, 415, 406, 403, 200 and 202, and unless it is 200
    (a subscription) or 202 (an accepted call) the master is left as it
    was. *)
Theorem scheduler_answers m request m' r :
  scheduler m request = Responded m' r →
  ∃ answer, r = Ready answer ∧
            status answer ∈ scheduler_statuses ∧
            (status answer ≠ 200%nat → status answer ≠ 202%nat → m' = m).
Proof.
  unfold scheduler, scheduler_statuses.
  assert (∀ code msg, code ∈ [503; 401; 405; 400; 415; 406; 403; 200; 202]%nat →
            respond m (response code msg) = Responded m' r →
            ∃ answer, r = Ready answer ∧
              status answer ∈ [503; 401; 405; 400; 415; 406; 403; 200; 202]%nat ∧
              (status answer ≠ 200%nat → status answer ≠ 202%nat → m' = m)) as Hplain.
  { intros code msg Hcode [= <- <-]. eexists. split; [done|]. split; done. }
  destruct (elected m); simpl;
    [|apply Hplain; rewrite !elem_of_cons; auto].
  destruct (recovered m) as [recovery|]; [|discriminate].
  destruct (isReady recovery); simpl; [|apply Hplain; rewrite !elem_of_cons; auto].
  destruct (authenticate_frameworks m).
  { intros [= <- <-]. eexists. split; [done|]. split; [|done].
    simpl. rewrite !elem_of_cons. auto. }
  destruct (decide (method request ≠ "POST"));
    [apply Hplain; rewrite !elem_of_cons; auto 10|].
  destruct (decode_call request) as [rejected | call] eqn:Hdecode.
  { intros [= <- <-]. eexists. split; [done|]. split; [|done].
    rewrite !elem_of_cons. destruct (decode_call_rejected _ _ Hdecode) as [-> | ->]; auto 10. }
  destruct (validate call); [apply Hplain; rewrite !elem_of_cons; auto 10|].
  unfold dispatch. destruct (decide (call_type call = SUBSCRIBE)).
  { destruct (acceptsMediaType request APPLICATION_JSON);
      [|destruct (acceptsMediaType request APPLICATION_PROTOBUF)].
    - intros [= <- <-]. eexists. split; [done|]. split; [|done].
      simpl. rewrite !elem_of_cons. auto 20.
    - intros [= <- <-]. eexists. split; [done|]. split; [|done].
      simpl. rewrite !elem_of_cons. auto 20.
    - apply Hplain. rewrite !elem_of_cons. auto 10. }
  destruct (getFramework m (framework_id call)) as [framework|];
    [|apply Hplain; rewrite !elem_of_cons; auto 10].
  destruct (connected framework); simpl;
    [|apply Hplain; rewrite !elem_of_cons; auto 10].
  destruct (call_type call); try discriminate;
    intros [= <- <-]; (eexists; split; [done|]; split; [|done]);
    simpl; rewrite !elem_of_cons; auto 20.
Qed.

End SchedulerAnswers.

Lemma scheduler_answers_witness :
  ∃ answer,
    Ready (BadRequest "Framework cannot be found") = Ready answer ∧
    status answer ∈ scheduler_statuses ∧
    (status answer ≠ 200%nat → status answer ≠ 202%nat → Example.leader = Example.leader).
Proof.
  exact (@scheduler_answers Example.wire Example.actions Example.leader
           (Example.post "application/json" "Kunknown" None) Example.leader
           (Ready (BadRequest "Framework cannot be found")) eq_refl).
Defined.

(** ** Resource operations and authentication *)

Section AdmissionEffects.
Context `{ResourceAlgebra}.

Lemma rescind_sent_kept operation pending st e :
  e ∈ sent (master st) → e ∈ sent (master (after_loop (rescind operation pending st))).
Proof.
  revert st. induction pending as [| offer rest IH]; intros st He; simpl; [done|].
  rewrite rescind_offer_cases. destruct (contributes offer st); [|by apply IH].
  assert (e ∈ sent (master (rescinding offer st))) as Hkept.
  { simpl. rewrite !elem_of_app. auto. }
  destruct (res_apply _ _); simpl; [done | by apply IH].
Qed.

Lemma rescinding_frame offer st :
  let m' := master (rescinding offer st) in
  machines m' = machines (master st) ∧ schedules m' = schedules (master st) ∧
  credentials m' = credentials (master st) ∧
  dom (slaves m') = dom (slaves (master st)) ∧
  dom (frameworks m') = dom (frameworks (master st)).
Proof.
  simpl. repeat (split; [done|]).
  split; apply set_eq; intros k; rewrite !elem_of_dom, lookup_alter;
    destruct (decide _) as [-> |]; try done; by rewrite fmap_is_Some.
Qed.

Lemma rescind_frame operation pending st :
  let m' := master (after_loop (rescind operation pending st)) in
  machines m' = machines (master st) ∧ schedules m' = schedules (master st) ∧
  credentials m' = credentials (master st) ∧
  dom (slaves m') = dom (slaves (master st)) ∧
  dom (frameworks m') = dom (frameworks (master st)).
Proof.
  revert st. induction pending as [| offer rest IH]; intros st; simpl; [done|].
  rewrite rescind_offer_cases. destruct (contributes offer st); [|by apply IH].
  pose proof (rescinding_frame offer st) as Hstep.
  destruct (res_apply _ _); [exact Hstep|].
  destruct Hstep as (Hm & Hs & Hc & Hsl & Hfw).
  destruct (IH (rescinding offer st)) as (IHm & IHs & IHc & IHsl & IHfw).
  cbv zeta. cbn [after_loop] in *.
  repeat split; etransitivity; eassumption.
Qed.

(** Every offer the loop takes out of the master's offers is one of the
    offers it went through, and the allocator and the framework have
    been told. *)
Lemma rescind_removed operation pending st oid :
  let m' := master (after_loop (rescind operation pending st)) in
  offers m' !! oid = offers (master st) !! oid ∨
  (offers m' !! oid = None ∧
   ∃ offer, offer ∈ pending ∧ offer_id offer = oid ∧
     RecoverResources (offer_framework_id offer) (offer_slave_id offer)
       (offer_resources offer) ∈ sent m' ∧
     RescindResourceOffer (offer_framework_id offer) oid ∈ sent m').
Proof.
  revert st. induction pending as [| offer rest IH]; intros st; simpl; [by left|].
  rewrite rescind_offer_cases.
  destruct (contributes offer st).
  2:{ destruct (IH st) as [Hsame | (Hnone & o & Hin & Hrest)]; [by left|].
      right. split; [done|]. exists o. split; [by right | done]. }
  assert (offers (master (rescinding offer st)) !! oid = offers (master st) !! oid ∨
          (offers (master (rescinding offer st)) !! oid = None ∧ offer_id offer = oid ∧
           RecoverResources (offer_framework_id offer) (offer_slave_id offer)
             (offer_resources offer) ∈ sent (master (rescinding offer st)) ∧
           RescindResourceOffer (offer_framework_id offer) oid
             ∈ sent (master (rescinding offer st)))) as Hstep.
  { simpl. destruct (decide (offer_id offer = oid)) as [<- | Hne].
    - right. split; [apply lookup_delete_eq|]. split; [done|].
      rewrite !elem_of_app, !list_elem_of_singleton. auto.
    - left. by apply lookup_delete_ne. }
  destruct (res_apply _ _); simpl.
  - destruct Hstep as [Hsame | (Hnone & Hid & Hrecover & Hrescind)]; [by left|].
    right. split; [done|]. exists offer. split; [by left | done].
  - destruct (IH (rescinding offer st)) as [Hsame | (Hnone & o & Hin & Hrest)].
    + destruct Hstep as [Hstep | (Hnone & Hid & Hrecover & Hrescind)].
      * left. congruence.
      * right. split; [congruence|]. exists offer. split; [by left|].
        split; [done|]. split; by apply rescind_sent_kept.
    + right. split; [done|]. exists o. split; [by right | done].
Qed.

(** X2: admission on a registered agent leaves machines, schedules and
    credentials as they were and neither adds nor drops an agent or a
    framework; an offer that is gone afterwards is one of that agent's
    offers, the allocator has been told to recover its resources and
    its framework has been told that it is rescinded. *)
Theorem operation_only_rescinds m slaveId slave required operation applied m' r :
  slaves m !! slaveId = Some slave →
  _operation m slaveId required operation applied = Responded m' r →
  machines m' = machines m ∧ schedules m' = schedules m ∧
  credentials m' = credentials m ∧
  dom (slaves m') = dom (slaves m) ∧ dom (frameworks m') = dom (frameworks m) ∧
  ∀ oid,
    offers m' !! oid = offers m !! oid ∨
    (offers m' !! oid = None ∧
     ∃ offer, offer ∈ slave_offers slave ∧ offer_id offer = oid ∧
       RecoverResources (offer_framework_id offer) (offer_slave_id offer)
         (offer_resources offer) ∈ sent m' ∧
       RescindResourceOffer (offer_framework_id offer) oid ∈ sent m').
Proof.
  intros Hslave. unfold _operation. rewrite Hslave. intros [= <- _].
  destruct (rescind_frame operation (slave_offers slave) (mkRescission required [] m))
    as (Hmachines & Hschedules & Hcredentials & Hslaves & Hframeworks).
  repeat (split; [done|]). intros oid.
  destruct (rescind_removed operation (slave_offers slave)
              (mkRescission required [] m) oid)
    as [Hsame | (Hnone & offer & Hin & Hid & Hrecover & Hrescind)]; [by left|].
  right. split; [done|]. exists offer. repeat (split; [done|]).
  split; apply elem_of_sent_emit; by left.
Qed.

End AdmissionEffects.

Lemma operation_only_rescinds_witness :
  let m' := master_apply "agent" (RESERVE Agent.wanted)
              (master (after_loop
                 (@rescind Scalars.algebra (RESERVE Agent.wanted)
                    [Agent.A; Agent.B; Agent.C]
                    (mkRescission (flatten Agent.wanted) [] Agent.master)))) in
  machines m' = machines Agent.master ∧ dom (slaves m') = dom (slaves Agent.master).
Proof.
  intros m'.
  destruct (@operation_only_rescinds Scalars.algebra Agent.master "agent"
              (mkSlave "slave(1)@10.0.0.1:5051" (mkMachineID "host1" "10.0.0.1")
                 [] [Agent.A; Agent.B; Agent.C])
              (flatten Agent.wanted) (RESERVE Agent.wanted) (Ready tt) m' (Ready OK)
              eq_refl eq_refl)
    as (Hmachines & _ & _ & Hslaves & _).
  split; [exact Hmachines | exact Hslaves].
Defined.

Section EndpointEffects.
Context `{ResourceAlgebra} `{OperatorWire}.

(** What the loop sends is about rescinded offers only. *)
Lemma rescind_sent operation pending st :
  ∃ rescissions,
    sent (master (after_loop (rescind operation pending st)))
      = (sent (master st) ++ rescissions)%list ∧
    Forall about_rescission rescissions.
Proof.
  revert st. induction pending as [| offer rest IH]; intros st; simpl.
  { exists []. by rewrite app_nil_r. }
  rewrite rescind_offer_cases. destruct (contributes offer st); [|by apply IH].
  assert (sent (master (rescinding offer st))
          = (sent (master st)
               ++ [RecoverResources (offer_framework_id offer) (offer_slave_id offer)
                     (offer_resources offer);
                   RescindResourceOffer (offer_framework_id offer) (offer_id offer)])%list)
    as Hstep.
  { simpl. by rewrite <- app_assoc. }
  destruct (res_apply _ _); simpl.
  - eexists. split; [exact Hstep|]. by repeat constructor.
  - destruct (IH (rescinding offer st)) as (rescissions & Hsent & Hall).
    eexists. split.
    + rewrite Hsent, Hstep, <- app_assoc. reflexivity.
    + by repeat constructor.
Qed.

(** The two ways a resource endpoint can end: the request is turned
    down and nothing has changed, or one operation has been submitted
    after the rescissions and the answer is that of its application. *)
Lemma _operation_effects m slaveId required operation applied m' r :
  _operation m slaveId required operation applied = Responded m' r →
  (m' = m ∧ ∃ answer, r = Ready answer ∧ status answer = 400%nat) ∨
  (∃ rescissions,
     is_Some (slaves m !! slaveId) ∧
     sent m' = (sent m ++ rescissions ++ [ApplyOperation slaveId operation])%list ∧
     Forall about_rescission rescissions ∧
     r = future_repair Conflict (future_then (λ _, OK) applied)).
Proof.
  unfold _operation. destruct (slaves m !! slaveId) as [slave|].
  - intros [= <- <-]. right.
    destruct (rescind_sent operation (slave_offers slave) (mkRescission required [] m))
      as (rescissions & Hsent & Hall).
    exists rescissions. split; [by eexists|]. split; [|done].
    simpl. simpl in Hsent. by rewrite Hsent, <- app_assoc.
  - intros [= <- <-]. left. split; [done|]. by eexists.
Qed.

Lemma operator_request_effects (Q : Prop) m request param k m' r :
  (m' = m → (∃ answer, r = Ready answer ∧
                       (status answer = 400%nat ∨ status answer = 401%nat)) → Q) →
  (∀ slaveId slave credential resources,
     k slaveId slave credential resources = Responded m' r → Q) →
  operator_request m request param k = Responded m' r → Q.
Proof.
  intros Hrejected Hk. unfold operator_request.
  assert (∀ msg, respond m (BadRequest msg) = Responded m' r → Q) as Hbad.
  { intros msg [= <- <-]. apply Hrejected; [done|]. eexists. split; [done|]. by left. }
  destruct (decide (method request ≠ "POST")); [apply Hbad|].
  destruct (authenticate m request) as [[| c | e] |]; [| | | discriminate].
  3:{ intros [= <- <-]. apply Hrejected; [done|]. eexists. split; [done|]. by right. }
  all: destruct (query_decode (req_body request)) as [| values]; [apply Hbad|].
  all: destruct (values !! "slaveId") as [slaveId|]; [|apply Hbad].
  all: destruct (slaves m !! slaveId) as [slave|]; [|apply Hbad].
  all: destruct (values !! param) as [array|]; [|apply Hbad].
  all: destruct (JSON_parse_array array) as [| parsed]; [apply Hbad|].
  all: destruct (parse_resources param parsed []) as [rejected | resources] eqn:Hparse;
         [|apply Hk].
  all: intros [= <- <-]; apply Hrejected; [done|]; eexists; split; [done|]; left.
  all: by eapply parse_resources_rejected.
Qed.

(** X3: a resource endpoint either rejects the request with 400 or 401
    and leaves the master as it was, or it has sent, after what the
    master had sent before, notices about rescinded offers and then one
    single operation for a registered agent, submitted for application
    as the last thing; its answer is then the outcome of that very
    application: 200 when it succeeds, 409 with the failure when it
    fails. *)
Theorem resource_endpoint_effects endpoint m request applied m' r :
  endpoint ∈ resource_endpoints →
  endpoint m request applied = Responded m' r →
  (m' = m ∧ ∃ answer, r = Ready answer ∧
              (status answer = 400%nat ∨ status answer = 401%nat)) ∨
  (∃ slaveId operation rescissions,
     is_Some (slaves m !! slaveId) ∧
     sent m' = (sent m ++ rescissions ++ [ApplyOperation slaveId operation])%list ∧
     Forall about_rescission rescissions ∧
     r = future_repair Conflict (future_then (λ _, OK) applied) ∧
     (applied = Ready tt → r = Ready OK ∧ status OK = 200%nat) ∧
     (∀ failure, applied = Failed failure →
        r = Ready (Conflict failure) ∧ status (Conflict failure) = 409%nat)).
Proof.
  intros Hin Hrun.
  set (Q := (m' = m ∧ ∃ answer, r = Ready answer ∧
               (status answer = 400%nat ∨ status answer = 401%nat)) ∨
            (∃ slaveId operation rescissions,
               is_Some (slaves m !! slaveId) ∧
               sent m' = (sent m ++ rescissions ++ [ApplyOperation slaveId operation])%list ∧
               Forall about_rescission rescissions ∧
               r = future_repair Conflict (future_then (λ _, OK) applied) ∧
               (applied = Ready tt → r = Ready OK ∧ status OK = 200%nat) ∧
               (∀ failure, applied = Failed failure →
                  r = Ready (Conflict failure) ∧ status (Conflict failure) = 409%nat))).
  assert (m' = m → (∃ answer, r = Ready answer ∧
                      (status answer = 400%nat ∨ status answer = 401%nat)) → Q)
    as Hrejected by (intros; by left).
  assert (∀ slaveId required operation,
            _operation m slaveId required operation applied = Responded m' r → Q) as Hop.
  { intros slaveId required operation Hoperation.
    destruct (_operation_effects _ _ _ _ _ _ _ Hoperation)
      as [(-> & answer & -> & Hstatus) | (rescissions & Hslave & Hsent & Hall & ->)].
    - left. split; [done|]. eexists. split; [done|]. by left.
    - right. exists slaveId, operation, rescissions.
      repeat (split; [done|]). split.
      + by intros ->.
      + by intros failure ->. }
  assert (∀ msg, respond m (BadRequest msg) = Responded m' r → Q) as Hbad.
  { intros msg [= <- <-]. left. split; [done|]. eexists. split; [done|]. by left. }
  revert Hin Hrun. unfold resource_endpoints. rewrite !elem_of_cons, elem_of_nil.
  intros [-> | [-> | [-> | [-> | []]]]]; apply operator_request_effects; try done;
    intros slaveId slave credential resources; simpl.
  - destruct (validate_create _ _); [apply Hbad | apply Hop].
  - destruct (validate_destroy _ _); [apply Hbad | apply Hop].
  - destruct (validate_reserve _ _); [apply Hbad | apply Hop].
  - destruct (validate_unreserve _ _); [apply Hbad | apply Hop].
Qed.

End EndpointEffects.

Lemma resource_endpoint_effects_witness :
  let m' := master_apply "agent" (RESERVE Agent.wanted)
              (master (after_loop
                 (@rescind Scalars.algebra (RESERVE Agent.wanted)
                    [Agent.A; Agent.B; Agent.C]
                    (mkRescission (flatten Agent.wanted) [] Agent.master)))) in
  (m' = Agent.master ∧
   ∃ answer, Ready (Conflict "busy") = Ready answer ∧
             (status answer = 400%nat ∨ status answer = 401%nat)) ∨
  (∃ slaveId operation rescissions,
     is_Some (slaves Agent.master !! slaveId) ∧
     sent m' = (sent Agent.master ++ rescissions
                  ++ [ApplyOperation slaveId operation])%list ∧
     Forall about_rescission rescissions ∧
     Ready (Conflict "busy")
       = future_repair Conflict (future_then (λ _, OK) (Failed "busy" : Future unit)) ∧
     ((Failed "busy" : Future unit) = Ready tt →
        Ready (Conflict "busy") = Ready OK ∧ status OK = 200%nat) ∧
     (∀ failure, (Failed "busy" : Future unit) = Failed failure →
        Ready (Conflict "busy") = Ready (Conflict failure) ∧
        status (Conflict failure) = 409%nat)).
Proof.
  intros m'.
  refine (@resource_endpoint_effects Scalars.algebra Forms.wire reserve Agent.master
            (Forms.form None "slaveId=agent&resources=wanted") (Failed "busy")
            m' (Ready (Conflict "busy")) _ _).
  - unfold resource_endpoints. rewrite !elem_of_cons. auto.
  - subst m'. reflexivity.
Defined.

Section Credentials.
Context `{ResourceAlgebra} `{OperatorWire} `{MasterActions}.

(** X4: when credentials are configured, authentication never lets a
    request through without a principal; the credential it returns is
    a stored one whose principal and secret are the pair presented in
    the Authorization header; and a presented pair that matches a
    stored credential is always authenticated. *)
Theorem authenticate_with_credentials m request stored :
  credentials m = Some stored →
  authenticate m request ≠ Some ResultNone ∧
  (∀ c, authenticate m request = Some (ResultSome c) →
        c ∈ stored ∧ presented request (principal c) (secret c)) ∧
  (∀ username password c,
     presented request username password →
     c ∈ stored → principal c = username → secret c = password →
     ∃ c', authenticate m request = Some (ResultSome c') ∧
           principal c' = username ∧ secret c' = password).
Proof.
  intros Hstored. unfold authenticate, presented. rewrite Hstored.
  split; [|split].
  - destruct (req_headers request !! "Authorization") as [authorization|]; [|done].
    destruct (split authorization " " 2 !! 1%nat) as [encoded|]; [|done].
    destruct (base64_decode encoded) as [| decoded]; [done|].
    destruct (split decoded ":" 2) as [| username [| password [| ? ?]]]; try done.
    by destruct (find _ stored).
  - intros c.
    destruct (req_headers request !! "Authorization") as [authorization|]; [|done].
    destruct (split authorization " " 2 !! 1%nat) as [encoded|] eqn:Hsplit; [|done].
    destruct (base64_decode encoded) as [| decoded] eqn:Hdecode; [done|].
    destruct (split decoded ":" 2) as [| username [| password [| ? ?]]] eqn:Hpair;
      try done.
    destruct (find _ stored) as [found|] eqn:Hfind; [|done].
    intros [= <-]. apply find_some in Hfind as [Hin Hmatch].
    apply andb_prop in Hmatch as [Hp Hs]. apply bool_decide_eq_true in Hp, Hs.
    split; [by apply list_elem_of_In|].
    exists authorization, encoded, decoded. rewrite Hp, Hs. done.
  - intros username password c (authorization & encoded & decoded & -> & -> & -> & ->)
      Hin Hp Hs.
    destruct (find _ stored) as [found|] eqn:Hfind.
    + apply find_some in Hfind as [_ Hmatch].
      apply andb_prop in Hmatch as [Hp' Hs']. apply bool_decide_eq_true in Hp', Hs'.
      by exists found.
    + apply list_elem_of_In in Hin.
      pose proof (find_none _ _ Hfind c Hin) as Hnot. simpl in Hnot.
      rewrite !bool_decide_eq_true_2 in Hnot by done. discriminate.
Qed.

(** X5: whenever teardown leaves the master changed, it has removed a
    registered framework, answered 200, and the request had passed
    authentication and, where an authorizer is configured, the
    authorizer had allowed the shutdown for the authenticated principal
    (or for anybody, without credentials). *)
Theorem teardown_guarded m request m' r :
  teardown m request = Responded m' r →
  m' = m ∨
  ∃ id framework credential,
    m' = removeFramework id m ∧ r = Ready OK ∧
    getFramework m id = Some framework ∧
    authenticate m request = Some credential ∧
    (∀ e, credential ≠ ResultError e) ∧
    match authorizer m with
    | None => True
    | Some authorize =>
      authorize (mkShutdownFramework (principal_of credential) (fw_principal framework))
        = true
    end.
Proof.
  unfold teardown.
  destruct (decide (method request ≠ "POST")); [intros [= <- _]; by left|].
  destruct (authenticate m request) as [[| c | e] |] eqn:Hauth;
    [| | intros [= <- _]; by left | discriminate].
  all: destruct (query_decode (req_body request)) as [| values];
         [intros [= <- _]; by left|].
  all: destruct (values !! "frameworkId") as [id|]; [|intros [= <- _]; by left].
  all: destruct (getFramework m id) as [framework|] eqn:Hframework;
         [|intros [= <- _]; by left].
  all: unfold _teardown; rewrite Hframework.
  all: destruct (authorizer m) as [authorize|].
  all: try (match goal with |- context [negb (?f ?s)] => destruct (f s) eqn:Hallowed end;
            simpl; [|intros [= <- _]; by left]).
  all: intros [= <- <-]; right.
  all: eexists id, framework, _; split; [done|]; split; [done|]; split; [done|].
  all: split; [done|]; split; [done|]; done.
Qed.

End Credentials.

Lemma authenticate_with_credentials_witness :
  ∃ c', @authenticate Forms.wire Forms.secured
          (Forms.form (Some "Basic ops:secret") EmptyString) = Some (ResultSome c') ∧
        principal c' = "ops" ∧ secret c' = "secret".
Proof.
  destruct (@authenticate_with_credentials Forms.wire Forms.secured
              (Forms.form (Some "Basic ops:secret") EmptyString)
              [mkCredential "ops" "secret"] eq_refl) as (_ & _ & Hcomplete).
  apply (Hcomplete "ops" "secret" (mkCredential "ops" "secret")).
  - exists "Basic ops:secret", "ops:secret", "ops:secret". repeat split.
  - apply list_elem_of_singleton. reflexivity.
  - reflexivity.
  - reflexivity.
Defined.

Lemma teardown_guarded_witness :
  let m' := removeFramework (MasterActions := Example.actions) "framework" Agent.master in
  m' = Agent.master ∨
  ∃ id framework credential,
    m' = removeFramework (MasterActions := Example.actions) id Agent.master ∧
    Ready OK = Ready OK ∧
    getFramework Agent.master id = Some framework ∧
    @authenticate Forms.wire Agent.master (Forms.form None "frameworkId=framework")
      = Some credential ∧
    (∀ e, credential ≠ ResultError e) ∧
    match authorizer Agent.master with
    | None => True
    | Some authorize =>
      authorize (mkShutdownFramework (principal_of credential) (fw_principal framework))
        = true
    end.
Proof.
  intros m'.
  refine (@teardown_guarded Forms.wire Example.actions Agent.master
            (Forms.form None "frameworkId=framework") m' (Ready OK) _).
  subst m'. reflexivity.
Defined.

(** ** Maintenance endpoints *)

Lemma validation_schedule_complete schedule ms :
  (∀ id, id ∈ scheduled schedule → mode (info (machine_at id ms)) ≠ DOWN) →
  validation_schedule schedule ms = TrySome tt.
Proof.
  intros Hall. unfold validation_schedule.
  destruct (find _ _) as [id|] eqn:Hfind; [|done].
  apply find_some in Hfind as [Hin Hdown]. apply bool_decide_eq_true in Hdown.
  destruct (Hall id); [by apply list_elem_of_In | done].
Qed.

Lemma saved_slaves id w machine machine' :
  machine_slaves machine = machine_slaves machine' → saved id w machine = saved id w machine'.
Proof. unfold saved. by intros ->. Qed.

Lemma known_after_slaves updated id machine :
  machine_slaves (known_after updated id machine) = machine_slaves machine.
Proof. unfold known_after. by destruct (updated !! id). Qed.

Section ScheduleEndpoint.
Context `{MaintenanceWire}.

Lemma maintenanceSchedule_get m request result :
  method request = "GET" →
  maintenanceSchedule m request result =
    respond m (response 200 (JSON_protobuf_Schedule
                               (match schedules m with
                                | [] => mkSchedule []
                                | front :: _ => front
                                end))).
Proof.
  intros Hget. unfold maintenanceSchedule. rewrite Hget.
  destruct (decide _) as [[Hne _] |]; [done|]. by destruct (decide _).
Qed.

(** X6: a schedule that has been posted and persisted is what a GET
    returns afterwards, whatever schedule was stored before; a GET
    changes nothing, and with no schedule stored it returns the empty
    schedule. *)
Theorem schedule_round_trip m posted fetched schedule result :
  method fetched = "GET" →
  (schedules m = [] →
     maintenanceSchedule m fetched result =
       respond m (response 200 (JSON_protobuf_Schedule (mkSchedule [])))) ∧
  (posts posted schedule →
   validation_schedule schedule (machines m) = TrySome tt →
   ∃ m', maintenanceSchedule m posted true = respond m' OK ∧
         maintenanceSchedule m' fetched result =
           respond m' (response 200 (JSON_protobuf_Schedule schedule))).
Proof.
  intros Hget. split.
  - intros Hnone. by rewrite (maintenanceSchedule_get _ _ _ Hget), Hnone.
  - intros Hposts Hvalid. rewrite (maintenanceSchedule_posts _ _ _ _ Hposts Hvalid).
    destruct (maintenanceSchedule_then_machines schedule
                (emit (RegistrarApply (UpdateSchedule schedule)) m))
      as (m' & -> & Hschedules & _).
    exists m'. split; [done|].
    by rewrite (maintenanceSchedule_get _ _ _ Hget), Hschedules.
Qed.

(** X7: posting the same schedule a second time is accepted and
    changes neither the machines nor the stored schedules. *)
Theorem schedule_update_idempotent m request schedule :
  posts request schedule →
  validation_schedule schedule (machines m) = TrySome tt →
  ∃ m1 m2,
    maintenanceSchedule m request true = respond m1 OK ∧
    maintenanceSchedule m1 request true = respond m2 OK ∧
    machines m2 = machines m1 ∧ schedules m2 = schedules m1.
Proof.
  intros Hposts Hvalid.
  destruct (maintenanceSchedule_then_machines schedule
              (emit (RegistrarApply (UpdateSchedule schedule)) m))
    as (m1 & Hrun1 & Hschedules1 & Hmachines1).
  assert (validation_schedule schedule (machines m1) = TrySome tt) as Hvalid1.
  { apply validation_schedule_complete. intros id Hin.
    destruct (window_of schedule id) as [w|] eqn:Hw.
    - unfold machine_at. rewrite Hmachines1, Hw. done.
    - apply window_of_None in Hw. done. }
  destruct (maintenanceSchedule_then_machines schedule
              (emit (RegistrarApply (UpdateSchedule schedule)) m1))
    as (m2 & Hrun2 & Hschedules2 & Hmachines2).
  exists m1, m2.
  rewrite (maintenanceSchedule_posts _ _ _ _ Hposts Hvalid).
  rewrite (maintenanceSchedule_posts _ _ _ _ Hposts Hvalid1).
  split; [done|]. split; [done|]. split; [|congruence].
  apply map_eq. intros id. rewrite Hmachines2. simpl machines.
  rewrite Hmachines1. simpl machines.
  destruct (window_of schedule id) as [w|]; simpl.
  - f_equal. apply saved_slaves. by rewrite known_after_slaves.
  - destruct (machines m !! id); simpl; [|done].
    by rewrite known_after_idempotent.
Qed.

(** X8: a schedule update never forgets a machine and never changes
    which agents run on it; a machine the master comes to know by the
    update is one that the schedule names, it carries its own id and no
    agents. *)
Theorem schedule_update_keeps_machines m request schedule m' r :
  posts request schedule →
  maintenanceSchedule m request true = Responded m' r →
  (∀ id machine, machines m !! id = Some machine →
     ∃ machine', machines m' !! id = Some machine' ∧
                 machine_slaves machine' = machine_slaves machine) ∧
  (∀ known machine', machines m !! known = None → machines m' !! known = Some machine' →
     known ∈ scheduled schedule ∧ id (info machine') = known ∧
     machine_slaves machine' = ∅).
Proof.
  intros Hposts.
  destruct (validation_schedule schedule (machines m)) as [e | []] eqn:Hvalid.
  - pose proof Hposts as (Hpost & json & Hjson & Hproto).
    unfold maintenanceSchedule. rewrite Hpost, Hjson, Hproto, Hvalid.
    destruct (decide _) as [[_ Hne] |]; [by destruct Hne|].
    destruct (decide _); [done|]. intros [= <- _]. split.
    + intros id machine Hm. by exists machine.
    + intros id machine' Hnone Hsome. congruence.
  - rewrite (maintenanceSchedule_posts _ _ _ _ Hposts Hvalid).
    destruct (maintenanceSchedule_then_machines schedule
                (emit (RegistrarApply (UpdateSchedule schedule)) m))
      as (m1 & -> & _ & Hmachines).
    intros [= <- _]. split.
    + intros id machine Hm. rewrite Hmachines. simpl machines. rewrite Hm. simpl.
      destruct (window_of schedule id); eexists; (split; [done|]); simpl;
        by rewrite known_after_slaves.
    + intros id machine' Hnone. rewrite Hmachines. simpl machines. rewrite Hnone. simpl.
      destruct (window_of schedule id) as [w|] eqn:Hw; [|done].
      intros [= <-]. apply window_of_elem in Hw as [Hw Hid]. split; [|done].
      unfold scheduled. apply list_elem_of_bind. eauto.
Qed.

End ScheduleEndpoint.

Lemma schedule_round_trip_witness :
  ∃ m', @maintenanceSchedule Cluster.wire Cluster.draining (Cluster.post "new") true
          = respond m' OK ∧
        @maintenanceSchedule Cluster.wire m' (mkRequest "GET" ∅ EmptyString) false
          = respond m' (response 200 "{}").
Proof.
  refine (proj2 (@schedule_round_trip Cluster.wire Cluster.draining (Cluster.post "new")
                   (mkRequest "GET" ∅ EmptyString) Cluster.new_schedule false eq_refl)
            _ eq_refl).
  split; [reflexivity|]. exists Cluster.new_schedule. split; reflexivity.
Defined.

Lemma schedule_update_idempotent_witness :
  ∃ m1 m2,
    @maintenanceSchedule Cluster.wire Cluster.draining (Cluster.post "new") true
      = respond m1 OK ∧
    @maintenanceSchedule Cluster.wire m1 (Cluster.post "new") true = respond m2 OK ∧
    machines m2 = machines m1 ∧ schedules m2 = schedules m1.
Proof.
  refine (@schedule_update_idempotent Cluster.wire Cluster.draining (Cluster.post "new")
            Cluster.new_schedule _ eq_refl).
  split; [reflexivity|]. exists Cluster.new_schedule. split; reflexivity.
Defined.

Lemma schedule_update_keeps_machines_witness :
  ∃ m' machine',
    @maintenanceSchedule Cluster.wire Cluster.draining (Cluster.post "new") true
      = respond m' OK ∧
    machines m' !! Cluster.M1 = Some machine' ∧
    machine_slaves machine' = {[ "agent" ]}.
Proof.
  destruct (maintenanceSchedule_then_machines Cluster.new_schedule
              (emit (RegistrarApply (UpdateSchedule Cluster.new_schedule))
                 Cluster.draining)) as (m' & Hrun & _).
  assert (@maintenanceSchedule Cluster.wire Cluster.draining (Cluster.post "new") true
          = respond m' OK) as Hanswered by exact Hrun.
  destruct (@schedule_update_keeps_machines Cluster.wire Cluster.draining
              (Cluster.post "new") Cluster.new_schedule m' (Ready OK)) as [Hkept _].
  - split; [reflexivity|]. exists Cluster.new_schedule. split; reflexivity.
  - exact Hanswered.
  - destruct (Hkept Cluster.M1 (Cluster.known Cluster.M1 DRAINING {[ "agent" ]}) eq_refl)
      as (machine' & Hmachine' & Hslaves).
    exists m', machine'. split; [exact Hanswered|]. split; [exact Hmachine'|].
    exact Hslaves.
Defined.

(** *** Machine down and machine up *)

Lemma shutdown_slaves_schedules slaveIds m m' :
  shutdown_slaves slaveIds m = Some m' → schedules m' = schedules m.
Proof.
  revert m. induction slaveIds as [| slaveId rest IH]; intros m; simpl.
  - by intros [= <-].
  - destruct (slaves m !! slaveId); [|discriminate]. intros Hrest.
    by rewrite (IH _ Hrest).
Qed.

Lemma shutdown_machines_schedules ids m m' :
  shutdown_machines ids m = Some m' → schedules m' = schedules m.
Proof.
  revert m. induction ids as [| id0 rest IH]; intros m; simpl.
  - by intros [= <-].
  - destruct (machines m !! id0); [|apply IH].
    destruct (shutdown_slaves _ m) as [m1|] eqn:Hinner; [|discriminate].
    intros Hrest. rewrite (IH _ Hrest). by eapply shutdown_slaves_schedules.
Qed.

Section MachineEndpoints.
Context `{MaintenanceWire}.

Lemma check_machines_complete expected complaint ids m :
  (∀ id, id ∈ ids →
     ∃ machine, machines m !! id = Some machine ∧ mode (info machine) = expected) →
  check_machines expected complaint ids m = None.
Proof.
  induction ids as [| id0 ids IH]; intros Hall; simpl; [done|].
  destruct (Hall id0) as (machine & -> & Hmode); [by left|].
  destruct (decide (mode (info machine) ≠ expected)); [done|].
  apply IH. intros id Hin. apply Hall. by right.
Qed.

Lemma machine_request_inv expected complaint m request ids :
  machine_request expected complaint m request = inr ids →
  lists request ids ∧ validation_machines ids = TrySome tt ∧
  check_machines expected complaint ids m = None.
Proof.
  unfold machine_request, lists.
  destruct (decide (method request ≠ "POST")) as [| Hpost]; [discriminate|].
  destruct (JSON_parse_Array _) as [| jsonIds] eqn:Hjson; [discriminate|].
  destruct (protobuf_parse_MachineIDs _) as [| ids'] eqn:Hproto; [discriminate|].
  destruct (validation_machines ids') as [| []] eqn:Hvalid; [discriminate|].
  destruct (check_machines _ _ _ _) eqn:Hcheck; [discriminate|].
  intros [= <-]. split; [|done]. split; [|eauto].
  by destruct (decide (method request = "POST")).
Qed.

Lemma machine_request_intro expected complaint m request ids :
  lists request ids → validation_machines ids = TrySome tt →
  check_machines expected complaint ids m = None →
  machine_request expected complaint m request = inr ids.
Proof.
  intros (Hpost & jsonIds & Hjson & Hproto) Hvalid Hcheck. unfold machine_request.
  destruct (decide _); [done|]. by rewrite Hjson, Hproto, Hvalid, Hcheck.
Qed.

Lemma machineUp_accepted m request ids :
  machine_request DOWN not_down m request = inr ids →
  ∃ m', machineUp m request true = respond m' OK ∧
        ∀ id, id ∈ ids → machine_is id UP None m'.
Proof.
  intros Hrequest. unfold machineUp. rewrite Hrequest. unfold machineUp_then.
  simpl negb. cbv iota.
  pose proof (reactivate_all ids (emit (RegistrarApply (StopMaintenance ids)) m, ∅))
    as (_ & _ & Hup).
  destruct (foldl reactivate _ ids) as [m1 updated]. simpl in Hup.
  eexists. split; [reflexivity|]. intros id Hin.
  destruct (Hup id (or_introl Hin)) as (machine & ? & ? & ?). by exists machine.
Qed.

(** X9: bringing machines down changes nothing about the stored
    schedules, forgets no machine, and leaves the id and the
    unavailability of every machine as they were. *)
Theorem machineDown_keeps_schedule m request ids m' :
  machine_request DRAINING not_draining m request = inr ids →
  machineDown m request true = respond m' OK →
  schedules m' = schedules m ∧
  ∀ known machine, machines m !! known = Some machine →
    ∃ machine', machines m' !! known = Some machine' ∧
                id (info machine') = id (info machine) ∧
                unavailability (info machine') = unavailability (info machine).
Proof.
  intros Hrequest. unfold machineDown. rewrite Hrequest. unfold machineDown_then.
  simpl negb. cbv iota.
  destruct (shutdown_machines ids _) as [m1|] eqn:Hloop; [|discriminate].
  intros [= <-].
  destruct (shutdown_machines_advanced _ _ _ Hloop) as [(_ & _ & _ & Hinfo) _].
  destruct (mark_all DOWN ids m1) as (_ & _ & Hschedules & Hmachines).
  split.
  - rewrite Hschedules. by rewrite (shutdown_machines_schedules _ _ _ Hloop).
  - intros known machine Hm. specialize (Hinfo known). simpl machines in Hinfo.
    rewrite Hm in Hinfo. rewrite Hmachines.
    destruct (machines m1 !! known) as [machine1|] eqn:Hm1; [|done].
    injection Hinfo as Hinfo. unfold machine_at. rewrite Hm1. simpl.
    destruct (decide (known ∈ ids)); eexists; (split; [done|]); simpl;
      by rewrite Hinfo.
Qed.

(** X10: when the registrar refuses, no maintenance endpoint leaves a
    changed master behind: it has either answered 400 or 200 without
    touching anything, or the master has aborted. *)
Theorem registrar_refusal_changes_nothing endpoint m request m' r :
  endpoint ∈ maintenance_endpoints →
  endpoint m request false = Responded m' r →
  m' = m ∧ ∃ answer, r = Ready answer ∧
                     (status answer = 400%nat ∨ status answer = 200%nat).
Proof.
  unfold maintenance_endpoints. rewrite !elem_of_cons, elem_of_nil.
  intros [-> | [-> | [-> | []]]].
  - unfold maintenanceSchedule.
    destruct (decide _); [intros [= <- <-]; split; [done|]; eexists; split; [done|]; by left|].
    destruct (decide _); [intros [= <- <-]; split; [done|]; eexists; split; [done|]; by right|].
    destruct (JSON_parse_Object _) as [| json];
      [intros [= <- <-]; split; [done|]; eexists; split; [done|]; by left|].
    destruct (protobuf_parse_Schedule _) as [| schedule];
      [intros [= <- <-]; split; [done|]; eexists; split; [done|]; by left|].
    destruct (validation_schedule _ _);
      [intros [= <- <-]; split; [done|]; eexists; split; [done|]; by left|].
    discriminate.
  - unfold machineDown.
    destruct (machine_request _ _ _ _) as [rejected | ids] eqn:Hrequest; [|discriminate].
    intros [= <- <-]. split; [done|]. eexists. split; [done|]. left.
    by eapply machine_request_rejected.
  - unfold machineUp.
    destruct (machine_request _ _ _ _) as [rejected | ids] eqn:Hrequest; [|discriminate].
    intros [= <- <-]. split; [done|]. eexists. split; [done|]. left.
    by eapply machine_request_rejected.
Qed.

(** X11: once a machine-down request has been answered 200, the same
    list of machines is accepted by machine-up, which brings every one
    of them UP without unavailability; and a second machine-down for
    the same, non-empty list is rejected with 400 and changes
    nothing. *)
Theorem machine_down_then_up m request ids m1 :
  machine_request DRAINING not_draining m request = inr ids →
  machineDown m request true = respond m1 OK →
  (∃ m2, machineUp m1 request true = respond m2 OK ∧
         ∀ id, id ∈ ids → machine_is id UP None m2) ∧
  (ids ≠ [] →
   ∃ rejected, machineDown m1 request true = respond m1 rejected ∧
               status rejected = 400%nat).
Proof.
  intros Hrequest Hdown.
  destruct (machine_request_inv _ _ _ _ _ Hrequest) as (Hlists & Hvalid & _).
  destruct (machineDown_accepted _ _ _ _ _ Hrequest Hdown) as (_ & _ & Hmode & Hknown).
  assert (∀ id, id ∈ ids →
            ∃ machine, machines m1 !! id = Some machine ∧ mode (info machine) = DOWN)
    as Hall.
  { intros id Hin. destruct (Hknown id Hin) as [machine Hmachine]. exists machine.
    split; [done|]. specialize (Hmode id). unfold mode_of in Hmode.
    rewrite Hmachine in Hmode. by rewrite decide_True in Hmode. }
  split.
  - assert (machine_request DOWN not_down m1 request = inr ids) as Hup.
    { apply machine_request_intro; [done | done |]. by apply check_machines_complete. }
    exact (machineUp_accepted m1 request ids Hup).
  - intros Hnonempty. destruct ids as [| id0 ids']; [done|].
    destruct (machine_request_lists DRAINING not_draining m1 request (id0 :: ids') id0
                Hlists) as [rejected Hrejected].
    + by left.
    + intros machine Hmachine. destruct (Hall id0) as (machine' & Hm' & Hmode');
        [by left|]. rewrite Hmachine in Hm'. injection Hm' as <-. by rewrite Hmode'.
    + exists rejected. unfold machineDown. rewrite Hrejected. split; [done|].
      by eapply machine_request_rejected.
Qed.

End MachineEndpoints.

Lemma cluster_down_answered :
  ∃ m', @machineDown Cluster.wire Cluster.draining (Cluster.post "m1") true
          = respond m' OK.
Proof. eexists. unfold respond. vm_compute. reflexivity. Qed.

Lemma machineDown_keeps_schedule_witness :
  ∃ m', @machineDown Cluster.wire Cluster.draining (Cluster.post "m1") true
          = respond m' OK ∧
        schedules m' = [Cluster.old_schedule].
Proof.
  destruct cluster_down_answered as [m' Hanswered].
  exists m'. split; [exact Hanswered|].
  exact (proj1 (@machineDown_keeps_schedule Cluster.wire Cluster.draining
                  (Cluster.post "m1") [Cluster.M1] m' eq_refl Hanswered)).
Defined.

Lemma registrar_refusal_changes_nothing_witness :
  Cluster.down = Cluster.down ∧
  ∃ answer,
    Ready (BadRequest
             ("Machine '" +:+ "m1" +:+ "' is not in DRAINING mode and cannot be brought down"))
      = Ready answer ∧
    (status answer = 400%nat ∨ status answer = 200%nat).
Proof.
  apply (@registrar_refusal_changes_nothing Cluster.wire (@machineDown Cluster.wire) Cluster.down
           (Cluster.post "m1")).
  - unfold maintenance_endpoints. rewrite !elem_of_cons. auto.
  - vm_compute. reflexivity.
Defined.

Lemma machine_down_then_up_witness :
  ∃ m1 m2,
    @machineDown Cluster.wire Cluster.draining (Cluster.post "m1") true = respond m1 OK ∧
    @machineUp Cluster.wire m1 (Cluster.post "m1") true = respond m2 OK ∧
    machine_is Cluster.M1 UP None m2.
Proof.
  destruct cluster_down_answered as [m1 Hdown].
  destruct (@machine_down_then_up Cluster.wire Cluster.draining (Cluster.post "m1")
              [Cluster.M1] m1 eq_refl Hdown) as [(m2 & Hup & Hmachines) _].
  exists m1, m2. split; [exact Hdown|]. split; [exact Hup|].
  apply Hmachines. apply list_elem_of_singleton. reflexivity.
Defined.

(** ** The maintenance status report *)

Section StatusReport.
Context {InverseOfferStatus : Type}.
Implicit Types result : gmap SlaveID (gmap FrameworkID InverseOfferStatus).
Implicit Types status : ClusterStatus InverseOfferStatus.

Lemma add_machines_down result status l :
  down_machines (foldl (add_machine result) status l)
  = (down_machines status
       ++ (filter (λ entry, mode (info entry.2) = DOWN) l).*1)%list.
Proof.
  revert status. induction l as [| entry l IH]; intros status; simpl.
  { by rewrite app_nil_r. }
  rewrite IH, filter_cons. unfold add_machine.
  destruct (decide (mode (info entry.2) = DOWN)) as [Hmode | Hmode].
  - rewrite Hmode. simpl. by rewrite <- app_assoc.
  - by destruct (mode (info entry.2)).
Qed.

Lemma add_machines_draining result status l :
  draining_machines (foldl (add_machine result) status l)
  = (draining_machines status
       ++ ((λ entry, mkDrainingMachine entry.1 (unwrap_statuses result entry.2))
             <$> filter (λ entry, mode (info entry.2) = DRAINING) l))%list.
Proof.
  revert status. induction l as [| entry l IH]; intros status; simpl.
  { by rewrite app_nil_r. }
  rewrite IH, filter_cons. unfold add_machine.
  destruct (decide (mode (info entry.2) = DRAINING)) as [Hmode | Hmode].
  - rewrite Hmode. simpl. by rewrite <- app_assoc.
  - by destruct (mode (info entry.2)).
Qed.

Lemma filtered_keys_NoDup {A} (P : MachineID * A → Prop) `{!∀ x, Decision (P x)}
    (machines : gmap MachineID A) :
  NoDup (filter P (map_to_list machines)).*1.
Proof.
  eapply sublist_NoDup; [apply (NoDup_fst_map_to_list machines)|].
  apply fmap_sublist, sublist_filter.
Qed.

Lemma elem_of_unwrap_statuses result (machine : Machine) reported :
  reported ∈ unwrap_statuses result machine ↔
  ∃ slave framework statuses,
    slave ∈ machine_slaves machine ∧ result !! slave = Some statuses ∧
    statuses !! framework = Some reported.
Proof.
  unfold unwrap_statuses. rewrite list_elem_of_bind. split.
  - intros (slave & Hin & Hslave%elem_of_elements).
    destruct (result !! slave) as [statuses|] eqn:Hresult; [|by apply elem_of_nil in Hin].
    apply list_elem_of_fmap in Hin as ([framework found] & -> & Hin).
    apply elem_of_map_to_list in Hin. by exists slave, framework, statuses.
  - intros (slave & framework & statuses & Hslave & Hresult & Hfound).
    exists slave. rewrite Hresult. split; [|by apply elem_of_elements].
    apply list_elem_of_fmap. exists (framework, reported). split; [done|].
    by apply elem_of_map_to_list.
Qed.

(** X12: a GET on the status endpoint never changes the master and
    reports exactly the tracked machines that are DOWN and exactly the
    tracked machines that are DRAINING; with a draining machine it
    reports exactly the statuses that the allocator holds, for any
    framework, for the agents of that machine. An UP or unknown machine
    is not reported, and no machine is reported twice. *)
Theorem maintenanceStatus_reports (render : ClusterStatus InverseOfferStatus → string)
    m request result :
  method request = "GET" →
  ∃ status,
    maintenanceStatus render m request result
      = respond m (response 200 (render status)) ∧
    (∀ id, id ∈ down_machines status ↔
           ∃ machine, machines m !! id = Some machine ∧ mode (info machine) = DOWN) ∧
    (∀ id, id ∈ draining_id <$> draining_machines status ↔
           ∃ machine, machines m !! id = Some machine ∧
                      mode (info machine) = DRAINING) ∧
    (∀ entry reported,
       entry ∈ draining_machines status →
       reported ∈ draining_statuses entry ↔
       ∃ machine slave framework statuses,
         machines m !! draining_id entry = Some machine ∧
         slave ∈ machine_slaves machine ∧ result !! slave = Some statuses ∧
         statuses !! framework = Some reported) ∧
    NoDup (down_machines status) ∧
    NoDup (draining_id <$> draining_machines status).
Proof.
  intros Hget. exists (cluster_status result m).
  split; [|split; [|split; [|split; [|split]]]].
  - unfold maintenanceStatus. by rewrite decide_False by (by intros []).
  - intros id. unfold cluster_status. rewrite add_machines_down. simpl.
    rewrite list_elem_of_fmap. split.
    + intros ([id' machine] & -> & Hin). apply list_elem_of_filter in Hin as [Hmode Hin].
      apply elem_of_map_to_list in Hin. by exists machine.
    + intros (machine & Hin & Hmode). exists (id, machine). split; [done|].
      apply list_elem_of_filter. split; [done|]. by apply elem_of_map_to_list.
  - intros id. unfold cluster_status. rewrite add_machines_draining. simpl.
    rewrite <- list_fmap_compose, list_elem_of_fmap. split.
    + intros ([id' machine] & -> & Hin). apply list_elem_of_filter in Hin as [Hmode Hin].
      apply elem_of_map_to_list in Hin. by exists machine.
    + intros (machine & Hin & Hmode). exists (id, machine). split; [done|].
      apply list_elem_of_filter. split; [done|]. by apply elem_of_map_to_list.
  - intros entry reported. unfold cluster_status. rewrite add_machines_draining. simpl.
    rewrite list_elem_of_fmap.
    intros ([id machine] & -> & Hin). apply list_elem_of_filter in Hin as [Hmode Hin].
    apply elem_of_map_to_list in Hin. simpl in *.
    rewrite elem_of_unwrap_statuses. split.
    + intros (slave & framework & statuses & ? & ? & ?).
      by exists machine, slave, framework, statuses.
    + intros (machine' & slave & framework & statuses & Hin' & ? & ? & ?).
      assert (machine' = machine) as -> by congruence.
      by exists slave, framework, statuses.
  - unfold cluster_status. rewrite add_machines_down. simpl.
    apply filtered_keys_NoDup.
  - unfold cluster_status. rewrite add_machines_draining. simpl.
    rewrite <- list_fmap_compose.
    apply (filtered_keys_NoDup (λ entry, mode (info entry.2) = DRAINING)).
Qed.

End StatusReport.

Lemma maintenanceStatus_reports_witness :
  ∃ status,
    maintenanceStatus Reports.render Cluster.draining Reports.get Reports.statuses
      = respond Cluster.draining (response 200 (Reports.render status)) ∧
    (∀ id, id ∈ down_machines status ↔
           ∃ machine, machines Cluster.draining !! id = Some machine ∧
                      mode (info machine) = DOWN) ∧
    (∀ id, id ∈ draining_id <$> draining_machines status ↔
           ∃ machine, machines Cluster.draining !! id = Some machine ∧
                      mode (info machine) = DRAINING) ∧
    (∀ entry reported,
       entry ∈ draining_machines status →
       reported ∈ draining_statuses entry ↔
       ∃ machine slave framework statuses,
         machines Cluster.draining !! draining_id entry = Some machine ∧
         slave ∈ machine_slaves machine ∧
         Reports.statuses !! slave = Some statuses ∧
         statuses !! framework = Some reported) ∧
    NoDup (down_machines status) ∧
    NoDup (draining_id <$> draining_machines status).
Proof.
  apply (maintenanceStatus_reports Reports.render Cluster.draining Reports.get
           Reports.statuses).
  reflexivity.
Defined.

(** ** The observe endpoint *)

Section ObserveEndpoint.
Context `{FormWire}.

Lemma getFormValue_supplied key values decoded :
  getFormValue key values = TrySome decoded ↔ supplied key values decoded.
Proof.
  unfold getFormValue, supplied. split.
  - destruct (values !! key) as [value|]; [|done].
    destruct (http_decode value) as [| decodedValue] eqn:Hdecode; [done|].
    destruct (decide (decodedValue = EmptyString)); [done|].
    intros [= <-]. by exists value.
  - intros (value & -> & -> & Hfilled). by rewrite decide_False.
Qed.

Lemma getFormValue_error key values e :
  getFormValue key values = TryError e → ¬ ∃ decoded, supplied key values decoded.
Proof.
  intros Herror [decoded Hsupplied]. apply getFormValue_supplied in Hsupplied. congruence.
Qed.

(** X13: observe never changes the master and answers 200 or 400; it
    answers 200 exactly when the body decodes to a form that carries
    monitor, hosts and level, each with a value that decodes to a
    non-empty string. *)
Theorem observe_answers render m request :
  ∃ answer,
    observe render m request = respond m answer ∧
    (status answer = 200%nat ∨ status answer = 400%nat) ∧
    (status answer = 200%nat ↔
     ∃ values monitor hosts level,
       form_decode (req_body request) = TrySome values ∧
       supplied MONITOR_KEY values monitor ∧
       supplied HOSTS_KEY values hosts ∧
       supplied LEVEL_KEY values level).
Proof.
  unfold observe, observed.
  destruct (form_decode (req_body request)) as [e | values] eqn:Hform.
  { eexists. split; [done|]. split; [by right|]. split; [done|].
    by intros (? & ? & ? & ? & ? & _). }
  destruct (getFormValue MONITOR_KEY values) as [e | monitor] eqn:Hmonitor.
  { eexists. split; [done|]. split; [by right|]. split; [done|].
    intros (? & monitor & ? & ? & [= <-] & Hsupplied & _).
    exfalso. eapply getFormValue_error; eauto. }
  destruct (getFormValue HOSTS_KEY values) as [e | hosts] eqn:Hhosts.
  { eexists. split; [done|]. split; [by right|]. split; [done|].
    intros (? & ? & hosts & ? & [= <-] & _ & Hsupplied & _).
    exfalso. eapply getFormValue_error; eauto. }
  destruct (getFormValue LEVEL_KEY values) as [e | level] eqn:Hlevel.
  { eexists. split; [done|]. split; [by right|]. split; [done|].
    intros (? & ? & ? & level & [= <-] & _ & _ & Hsupplied).
    exfalso. eapply getFormValue_error; eauto. }
  eexists. split; [done|]. split; [by left|]. split; [|done].
  intros _. exists values, monitor, hosts, level.
  by rewrite <- !getFormValue_supplied.
Qed.

(** X14: when the form carries the three fields, observe sends back a
    JSON object with exactly three members: the monitor as it was
    decoded, the hosts split at the commas, and whether the level, in
    upper case, is OK. The level itself is not sent back. *)
Theorem observe_echoes render m request values monitor hosts level :
  form_decode (req_body request) = TrySome values →
  supplied MONITOR_KEY values monitor →
  supplied HOSTS_KEY values hosts →
  supplied LEVEL_KEY values level →
  ∃ object,
    observe render m request = respond m (response 200 (render object)) ∧
    object !! "monitor" = Some (ObservedString monitor) ∧
    object !! "hosts" = Some (ObservedArray (strings_split hosts ",")) ∧
    object !! "isHealthy"
      = Some (ObservedBoolean (bool_decide (strings_upper level = "OK"))) ∧
    ∀ key, is_Some (object !! key) → key ∈ ["monitor"; "hosts"; "isHealthy"].
Proof.
  intros Hform Hmonitor%getFormValue_supplied Hhosts%getFormValue_supplied
    Hlevel%getFormValue_supplied.
  unfold observe, observed. rewrite Hform, Hmonitor, Hhosts, Hlevel.
  eexists. split; [done|].
  unfold MONITOR_KEY, HOSTS_KEY. split; [|split; [|split]].
  - by rewrite !lookup_insert_ne, lookup_insert by done.
  - by rewrite lookup_insert_ne, lookup_insert by done.
  - by rewrite lookup_insert.
  - intros key. rewrite !elem_of_cons.
    destruct (decide (key = "isHealthy")) as [-> |]; [auto|].
    destruct (decide (key = "hosts")) as [-> |]; [auto|].
    destruct (decide (key = "monitor")) as [-> |]; [auto|].
    rewrite !lookup_insert_ne, lookup_empty by done. by intros [].
Qed.

End ObserveEndpoint.

Lemma observe_echoes_witness :
  ∃ object,
    @observe Reports.forms Reports.keys Cluster.down Reports.report
      = respond Cluster.down (response 200 (Reports.keys object)) ∧
    object !! "monitor" = Some (ObservedString "disk") ∧
    object !! "hosts" = Some (ObservedArray ["a"; "b"]) ∧
    object !! "isHealthy" = Some (ObservedBoolean true) ∧
    ∀ key, is_Some (object !! key) → key ∈ ["monitor"; "hosts"; "isHealthy"].
Proof.
  apply (@observe_echoes Reports.forms Reports.keys Cluster.down Reports.report
           {[ "monitor" := "disk"; "hosts" := "a,b"; "level" := "ok" ]}
           "disk" "a,b" "ok").
  - vm_compute. reflexivity.
  - exists "disk". split; [reflexivity|]. split; [reflexivity|]. discriminate.
  - exists "a,b". split; [reflexivity|]. split; [reflexivity|]. discriminate.
  - exists "ok". split; [reflexivity|]. split; [reflexivity|]. discriminate.
Defined.

(** ** The order and the pages of the tasks endpoint *)

Section TaskOrder.
Context {Timestamp : Type} (less : Timestamp → Timestamp → bool).
Implicit Types lhs rhs : Task Timestamp.

(** X15: the descending comparison is the ascending one with its
    arguments exchanged, so a task without a status sorts first in
    ascending and last in descending order. *)
Theorem descending_is_converse lhs rhs :
  descending less lhs rhs = ascending less rhs lhs.
Proof.
  unfold descending, ascending.
  destruct (statuses lhs) as [| l0 ?], (statuses rhs) as [| r0 ?]; reflexivity.
Qed.

(** X16: over timestamps that [<] orders strictly and weakly, the
    ascending comparison is a strict weak order as well, which is what
    [std::sort] asks of it: no task is before itself, the comparison is
    transitive, and so is being unordered. *)
Theorem ascending_strict_weak_order :
  (∀ a, less a a = false) →
  (∀ a b c, less a b = true → less b c = true → less a c = true) →
  (∀ a b c, less a b = false → less b c = false → less a c = false) →
  (∀ task, ascending less task task = false) ∧
  (∀ t1 t2 t3, ascending less t1 t2 = true → ascending less t2 t3 = true →
               ascending less t1 t3 = true) ∧
  (∀ t1 t2 t3, ascending less t1 t2 = false → ascending less t2 t3 = false →
               ascending less t1 t3 = false).
Proof.
  intros Hirreflexive Htransitive Hunordered. unfold ascending. split; [|split].
  - intros task. destruct (statuses task); simpl; [done|]. apply Hirreflexive.
  - intros t1 t2 t3.
    destruct (statuses t1), (statuses t2), (statuses t3); simpl; try done.
    apply Htransitive.
  - intros t1 t2 t3.
    destruct (statuses t1), (statuses t2), (statuses t3); simpl; try done.
    apply Hunordered.
Qed.

End TaskOrder.

Lemma ascending_strict_weak_order_witness :
  (∀ task, ascending Z.ltb task task = false) ∧
  (∀ t1 t2 t3, ascending Z.ltb t1 t2 = true → ascending Z.ltb t2 t3 = true →
               ascending Z.ltb t1 t3 = true) ∧
  (∀ t1 t2 t3, ascending Z.ltb t1 t2 = false → ascending Z.ltb t2 t3 = false →
               ascending Z.ltb t1 t3 = false).
Proof.
  apply (ascending_strict_weak_order Z.ltb).
  - intros a. apply Z.ltb_irrefl.
  - intros a b c. rewrite !Z.ltb_lt. lia.
  - intros a b c. rewrite !Z.ltb_ge. lia.
Defined.

Section Pages.
Context {A : Type}.
Implicit Types sorted : list A.

Lemma slice_take_drop (i count : nat) sorted :
  slice i count sorted = take count (drop i sorted).
Proof.
  revert i. induction count as [| count IH]; intros i; simpl.
  { by rewrite take_0. }
  destruct (sorted !! i) as [x|] eqn:Hx.
  - rewrite (drop_S _ _ _ Hx). simpl. by rewrite IH.
  - apply lookup_ge_None in Hx. by rewrite drop_ge.
Qed.

(** X17: for an offset and a limit that fit a [size_t], the page is
    the first [limit] tasks after the first [offset] ones, as long as
    [offset + limit] fits as well; when that sum wraps around (a
    negative limit turned into a [size_t], after a positive offset),
    the page is empty. *)
Theorem page_is_a_window (offset limit : N) sorted :
  (offset < 2 ^ 64)%N →
  (limit < 2 ^ 64)%N →
  page offset limit sorted
  = if decide (offset + limit < 2 ^ 64)%N
    then take (N.to_nat limit) (drop (N.to_nat offset) sorted)
    else [].
Proof.
  intros Hoffset Hlimit. unfold page, size_add. rewrite slice_take_drop.
  destruct (decide (offset + limit < 2 ^ 64)%N) as [Hfits | Hwraps].
  - rewrite N.mod_small by done.
    destruct (decide (N.of_nat (length sorted) ≤ offset)%N) as [Hshort | Hlong].
    + rewrite drop_ge by lia. by rewrite !take_nil.
    + replace (N.to_nat (N.min (offset + limit) (N.of_nat (length sorted)) - offset))
        with (N.to_nat limit `min` length (drop (N.to_nat offset) sorted))%nat
        by (rewrite length_drop; lia).
      rewrite <- take_take. f_equal. by rewrite take_ge.
  - replace ((offset + limit) mod 2 ^ 64)%N with (offset + limit - 2 ^ 64)%N.
    + replace (N.to_nat (N.min (offset + limit - 2 ^ 64) (N.of_nat (length sorted))
                         - offset)) with 0%nat by lia.
      by rewrite take_0.
    + symmetry. rewrite <- (N.mod_small (offset + limit - 2 ^ 64) (2 ^ 64)) by lia.
      rewrite <- (N.Div0.mod_add (offset + limit - 2 ^ 64) 1 (2 ^ 64)).
      f_equal. lia.
Qed.

End Pages.

Lemma page_is_a_window_witness :
  page 1 2 ["t1"; "t2"; "t3"; "t4"] = ["t2"; "t3"] ∧
  page 1 (2 ^ 64 - 1) ["t1"; "t2"; "t3"; "t4"] = [].
Proof.
  split.
  - rewrite (page_is_a_window 1 2) by done. reflexivity.
  - rewrite (page_is_a_window 1 (2 ^ 64 - 1)) by done. reflexivity.
Defined.

(** ** The mapping between agents and frameworks *)

Section Mapping.
Context {Timestamp : Type}.
Implicit Types mapping : SlaveFrameworkMapping.
Implicit Types frameworks : gmap FrameworkID (FrameworkTasks Timestamp).

Lemma relate_slaves frameworkId mapping slaveId f s :
  s ∈ mapping_slaves (relate frameworkId mapping slaveId) f ↔
  s ∈ mapping_slaves mapping f ∨ (f = frameworkId ∧ s = slaveId).
Proof.
  unfold mapping_slaves, relate. simpl.
  destruct (decide (f = frameworkId)) as [-> | Hne].
  - rewrite lookup_insert_eq.
    destruct (frameworksToSlaves mapping !! frameworkId); simpl; set_solver.
  - rewrite lookup_insert_ne by done. naive_solver.
Qed.

Lemma relate_frameworks frameworkId mapping slaveId f s :
  f ∈ mapping_frameworks (relate frameworkId mapping slaveId) s ↔
  f ∈ mapping_frameworks mapping s ∨ (f = frameworkId ∧ s = slaveId).
Proof.
  unfold mapping_frameworks, relate. simpl.
  destruct (decide (s = slaveId)) as [-> | Hne].
  - rewrite lookup_insert_eq.
    destruct (slavesToFrameworks mapping !! slaveId); simpl; set_solver.
  - rewrite lookup_insert_ne by done. naive_solver.
Qed.

Lemma relate_all_slaves {X} (agent : X → SlaveID) frameworkId (l : list X) mapping f s :
  s ∈ mapping_slaves
        (foldl (λ mapping x, relate frameworkId mapping (agent x)) mapping l) f ↔
  s ∈ mapping_slaves mapping f ∨ (f = frameworkId ∧ ∃ x, x ∈ l ∧ agent x = s).
Proof.
  revert mapping. induction l as [| x l IH]; intros mapping; simpl.
  { split; [auto|]. intros [? | (_ & ? & []%elem_of_nil & _)]. done. }
  rewrite IH, relate_slaves. split.
  - intros [[? | [-> ->]] | (-> & y & ? & ?)]; [by left|right..].
    + split; [done|]. exists x. split; [left|done].
    + split; [done|]. exists y. split; [by right|done].
  - intros [? | (-> & y & [-> | ?]%elem_of_cons & ?)]; [by left; left| |].
    + left. by right.
    + right. split; [done|]. by exists y.
Qed.

Lemma relate_all_frameworks {X} (agent : X → SlaveID) frameworkId (l : list X)
    mapping f s :
  f ∈ mapping_frameworks
        (foldl (λ mapping x, relate frameworkId mapping (agent x)) mapping l) s ↔
  f ∈ mapping_frameworks mapping s ∨ (f = frameworkId ∧ ∃ x, x ∈ l ∧ agent x = s).
Proof.
  revert mapping. induction l as [| x l IH]; intros mapping; simpl.
  { split; [auto|]. intros [? | (_ & ? & []%elem_of_nil & _)]. done. }
  rewrite IH, relate_frameworks. split.
  - intros [[? | [-> ->]] | (-> & y & ? & ?)]; [by left|right..].
    + split; [done|]. exists x. split; [left|done].
    + split; [done|]. exists y. split; [by right|done].
  - intros [? | (-> & y & [-> | ?]%elem_of_cons & ?)]; [by left; left| |].
    + left. by right.
    + right. split; [done|]. by exists y.
Qed.

Lemma runs_on_lists (framework : FrameworkTasks Timestamp) s :
  runs_on framework s ↔
  (∃ x, x ∈ (map_to_list (pendingTasks framework)).*2 ∧ taskinfo_slave_id x = s) ∨
  (∃ x, x ∈ (map_to_list (tasks framework)).*2 ∧ task_slave_id x = s) ∨
  (∃ x, x ∈ completedTasks framework ∧ task_slave_id x = s).
Proof.
  unfold runs_on, held, pending. split.
  - intros [? | (task & [? | ?]%elem_of_app & ?)]; [by left| |].
    + right. left. by exists task.
    + right. right. by exists task.
  - intros [? | [(task & ? & ?) | (task & ? & ?)]]; [by left| |].
    + right. exists task. split; [|done]. apply elem_of_app. by left.
    + right. exists task. split; [|done]. apply elem_of_app. by right.
Qed.

Lemma map_framework_slaves mapping (entry : FrameworkID * FrameworkTasks Timestamp) f s :
  s ∈ mapping_slaves (map_framework mapping entry) f ↔
  s ∈ mapping_slaves mapping f ∨ (f = entry.1 ∧ runs_on entry.2 s).
Proof.
  unfold map_framework.
  rewrite (relate_all_slaves task_slave_id), (relate_all_slaves task_slave_id),
    (relate_all_slaves taskinfo_slave_id), runs_on_lists.
  naive_solver.
Qed.

Lemma map_framework_frameworks mapping (entry : FrameworkID * FrameworkTasks Timestamp)
    f s :
  f ∈ mapping_frameworks (map_framework mapping entry) s ↔
  f ∈ mapping_frameworks mapping s ∨ (f = entry.1 ∧ runs_on entry.2 s).
Proof.
  unfold map_framework.
  rewrite (relate_all_frameworks task_slave_id), (relate_all_frameworks task_slave_id),
    (relate_all_frameworks taskinfo_slave_id), runs_on_lists.
  naive_solver.
Qed.

Lemma map_frameworks_slaves (l : list (FrameworkID * FrameworkTasks Timestamp))
    mapping f s :
  s ∈ mapping_slaves (foldl map_framework mapping l) f ↔
  s ∈ mapping_slaves mapping f ∨ ∃ framework, (f, framework) ∈ l ∧ runs_on framework s.
Proof.
  revert mapping. induction l as [| [id framework] l IH]; intros mapping; simpl.
  { split; [auto|]. intros [? | (? & []%elem_of_nil & _)]. done. }
  rewrite IH, map_framework_slaves. simpl. split.
  - intros [[? | [-> ?]] | (other & ? & ?)]; [by left|right..].
    + exists framework. split; [left|done].
    + exists other. split; [by right|done].
  - intros [? | (other & [[= -> ->] | ?]%elem_of_cons & ?)]; [by left; left| |].
    + left. by right.
    + right. by exists other.
Qed.

Lemma map_frameworks_frameworks (l : list (FrameworkID * FrameworkTasks Timestamp))
    mapping f s :
  f ∈ mapping_frameworks (foldl map_framework mapping l) s ↔
  f ∈ mapping_frameworks mapping s ∨
  ∃ framework, (f, framework) ∈ l ∧ runs_on framework s.
Proof.
  revert mapping. induction l as [| [id framework] l IH]; intros mapping; simpl.
  { split; [auto|]. intros [? | (? & []%elem_of_nil & _)]. done. }
  rewrite IH, map_framework_frameworks. simpl. split.
  - intros [[? | [-> ?]] | (other & ? & ?)]; [by left|right..].
    + exists framework. split; [left|done].
    + exists other. split; [by right|done].
  - intros [? | (other & [[= -> ->] | ?]%elem_of_cons & ?)]; [by left; left| |].
    + left. by right.
    + right. by exists other.
Qed.

(** X18: the agents that the mapping gives for a framework are exactly
    the agents on which the framework has a pending, an active or a
    completed task; an unknown framework has none. *)
Theorem mapping_slaves_run_tasks frameworks frameworkId slaveId :
  slaveId ∈ mapping_slaves (slaveFrameworkMapping frameworks) frameworkId ↔
  ∃ framework, frameworks !! frameworkId = Some framework ∧ runs_on framework slaveId.
Proof.
  unfold slaveFrameworkMapping. rewrite map_frameworks_slaves.
  unfold mapping_slaves at 1. simpl. rewrite lookup_empty.
  setoid_rewrite elem_of_map_to_list. set_solver.
Qed.

(** X19: the two directions of the mapping agree: an agent is among
    the agents of a framework exactly when the framework is among the
    frameworks of the agent. *)
Theorem mapping_is_symmetric frameworks frameworkId slaveId :
  slaveId ∈ mapping_slaves (slaveFrameworkMapping frameworks) frameworkId ↔
  frameworkId ∈ mapping_frameworks (slaveFrameworkMapping frameworks) slaveId.
Proof.
  unfold slaveFrameworkMapping.
  rewrite map_frameworks_slaves, map_frameworks_frameworks.
  unfold mapping_slaves at 1, mapping_frameworks at 1. simpl.
  rewrite !lookup_empty. set_solver.
Qed.

End Mapping.

(** ** The task state summaries *)

Section StateSummaries.
Context {Timestamp : Type}.
Implicit Types summaries : TaskStateSummaries.
Implicit Types frameworks : gmap FrameworkID (FrameworkTasks Timestamp).

Lemma increment_of_nat n :
  increment (N.of_nat n mod 2 ^ 64) = (N.of_nat (S n) mod 2 ^ 64)%N.
Proof.
  unfold increment, size_add. rewrite N.Div0.add_mod_idemp_l. f_equal. lia.
Qed.

Lemma counter_count state (task : Task Timestamp) s :
  counter state (count task s)
  = if decide (task_state task = state) then increment (counter state s)
    else counter state s.
Proof. unfold count. destruct (task_state task), state; reflexivity. Qed.

Lemma counter_count_staging state s :
  counter state (count_staging s)
  = if decide (state = TASK_STAGING) then increment (counter state s)
    else counter state s.
Proof. destruct state; reflexivity. Qed.

Lemma account_framework f a update summaries f' :
  summary_at f' (frameworkTaskSummaries (account f a update summaries))
  = if decide (f' = f) then update (summary_at f' (frameworkTaskSummaries summaries))
    else summary_at f' (frameworkTaskSummaries summaries).
Proof.
  unfold account, summary_at. simpl. destruct (decide (f' = f)) as [-> |].
  - by rewrite lookup_insert_eq.
  - by rewrite lookup_insert_ne.
Qed.

Lemma account_slave f a update summaries a' :
  summary_at a' (slaveTaskSummaries (account f a update summaries))
  = if decide (a' = a) then update (summary_at a' (slaveTaskSummaries summaries))
    else summary_at a' (slaveTaskSummaries summaries).
Proof.
  unfold account, summary_at. simpl. destruct (decide (a' = a)) as [-> |].
  - by rewrite lookup_insert_eq.
  - by rewrite lookup_insert_ne.
Qed.

Section Accounting.
Context {X : Type} (agent : X → SlaveID)
  (update : X → TaskStateSummary → TaskStateSummary)
  (P : X → Prop) `{!∀ x, Decision (P x)} (state : TaskState).
Hypothesis counter_update : ∀ x s,
  counter state (update x s)
  = if decide (P x) then increment (counter state s) else counter state s.

Lemma account_all_framework f (l : list X) summaries f' n :
  counter state (summary_at f' (frameworkTaskSummaries summaries))
  = (N.of_nat n mod 2 ^ 64)%N →
  counter state
    (summary_at f'
       (frameworkTaskSummaries
          (foldl (λ summaries x, account f (agent x) (update x) summaries) summaries l)))
  = (N.of_nat (n + if decide (f' = f) then length (filter P l) else 0) mod 2 ^ 64)%N.
Proof.
  revert summaries n. induction l as [| x l IH]; intros summaries n Hn; simpl.
  { rewrite Hn. do 2 f_equal. destruct (decide (f' = f)); simpl; lia. }
  rewrite filter_cons.
  destruct (decide (f' = f)) as [Hf | Hf].
  - destruct (decide (P x)) as [Hx | Hx].
    + rewrite (IH _ (S n)).
      * destruct (decide (f' = f)); [|done]. do 2 f_equal. simpl. lia.
      * rewrite account_framework. destruct (decide (f' = f)); [|done].
        rewrite counter_update. destruct (decide (P x)); [|done].
        rewrite Hn. apply increment_of_nat.
    + rewrite (IH _ n).
      * by destruct (decide (f' = f)).
      * rewrite account_framework. destruct (decide (f' = f)); [|done].
        rewrite counter_update. by destruct (decide (P x)).
  - rewrite (IH _ n).
    + by destruct (decide (f' = f)).
    + rewrite account_framework. by destruct (decide (f' = f)).
Qed.

Lemma account_all_slave f (l : list X) summaries a' n :
  counter state (summary_at a' (slaveTaskSummaries summaries))
  = (N.of_nat n mod 2 ^ 64)%N →
  counter state
    (summary_at a'
       (slaveTaskSummaries
          (foldl (λ summaries x, account f (agent x) (update x) summaries) summaries l)))
  = (N.of_nat (n + length (filter (λ x, P x ∧ agent x = a') l)) mod 2 ^ 64)%N.
Proof.
  revert summaries n. induction l as [| x l IH]; intros summaries n Hn; simpl.
  { rewrite Hn. do 2 f_equal. lia. }
  rewrite filter_cons.
  destruct (decide (P x ∧ agent x = a')) as [[Hx Ha] | Hx].
  - rewrite (IH _ (S n)).
    + do 2 f_equal. simpl. lia.
    + rewrite account_slave. destruct (decide (a' = agent x)); [|done].
      rewrite counter_update. destruct (decide (P x)); [|done].
      rewrite Hn. apply increment_of_nat.
  - rewrite (IH _ n); [done|].
    rewrite account_slave. destruct (decide (a' = agent x)) as [Ha |]; [|done].
    rewrite counter_update. destruct (decide (P x)); [|done].
    by destruct Hx.
Qed.

End Accounting.

Lemma length_filter_const {X} (Q : Prop) `{!Decision Q} (l : list X) :
  length (filter (λ _, Q) l) = if decide Q then length l else 0%nat.
Proof.
  induction l as [| x l IH]; simpl; [by destruct (decide Q)|].
  rewrite filter_cons. destruct (decide Q); simpl; by rewrite ?IH.
Qed.

Lemma summarize_framework_framework state summaries
    (entry : FrameworkID * FrameworkTasks Timestamp) f' n :
  counter state (summary_at f' (frameworkTaskSummaries summaries))
  = (N.of_nat n mod 2 ^ 64)%N →
  counter state
    (summary_at f' (frameworkTaskSummaries (summarize_framework summaries entry)))
  = (N.of_nat (n + if decide (f' = entry.1) then tasks_in state entry.2 else 0)
     mod 2 ^ 64)%N.
Proof.
  intros Hn. unfold summarize_framework.
  erewrite (account_all_framework task_slave_id count (λ task, task_state task = state));
    [| apply counter_count
     | erewrite (account_all_framework task_slave_id count
                   (λ task, task_state task = state));
       [reflexivity | apply counter_count
       | erewrite (account_all_framework taskinfo_slave_id (λ _, count_staging)
                     (λ _, state = TASK_STAGING));
         [reflexivity | intros; apply counter_count_staging | exact Hn]]].
  do 2 f_equal. unfold tasks_in, held, pending.
  rewrite filter_app, length_app, length_filter_const.
  destruct (decide (f' = entry.1)); lia.
Qed.

Lemma summarize_framework_slave state summaries
    (entry : FrameworkID * FrameworkTasks Timestamp) a' n :
  counter state (summary_at a' (slaveTaskSummaries summaries))
  = (N.of_nat n mod 2 ^ 64)%N →
  counter state
    (summary_at a' (slaveTaskSummaries (summarize_framework summaries entry)))
  = (N.of_nat (n + tasks_in_on state a' entry.2) mod 2 ^ 64)%N.
Proof.
  intros Hn. unfold summarize_framework.
  erewrite (account_all_slave task_slave_id count (λ task, task_state task = state));
    [| apply counter_count
     | erewrite (account_all_slave task_slave_id count
                   (λ task, task_state task = state));
       [reflexivity | apply counter_count
       | erewrite (account_all_slave taskinfo_slave_id (λ _, count_staging)
                     (λ _, state = TASK_STAGING));
         [reflexivity | intros; apply counter_count_staging | exact Hn]]].
  do 2 f_equal. unfold tasks_in_on, held, pending.
  rewrite filter_app, length_app.
  assert (∀ l : list TaskInfo,
            length (filter (λ x, state = TASK_STAGING ∧ taskinfo_slave_id x = a') l)
            = if decide (state = TASK_STAGING)
              then length (filter (λ x, taskinfo_slave_id x = a') l) else 0%nat)
    as ->.
  { intros l. induction l as [| x l IH]; simpl; [by destruct (decide _)|].
    rewrite !filter_cons.
    destruct (decide (state = TASK_STAGING)) as [Hs | Hs].
    - destruct (decide (taskinfo_slave_id x = a')).
      + rewrite decide_True by done. simpl. by rewrite IH.
      + rewrite decide_False by naive_solver. done.
    - rewrite decide_False by naive_solver. done. }
  lia.
Qed.

Lemma summarize_all_framework state (l : list (FrameworkID * FrameworkTasks Timestamp))
    summaries f' n :
  counter state (summary_at f' (frameworkTaskSummaries summaries))
  = (N.of_nat n mod 2 ^ 64)%N →
  counter state
    (summary_at f' (frameworkTaskSummaries (foldl summarize_framework summaries l)))
  = (N.of_nat
       (n + sum_list ((λ entry, if decide (f' = entry.1) then tasks_in state entry.2
                                else 0%nat) <$> l))
     mod 2 ^ 64)%N.
Proof.
  revert summaries n. induction l as [| entry l IH]; intros summaries n Hn.
  { simpl. rewrite Hn. do 2 f_equal. lia. }
  rewrite fmap_cons. cbn [foldl sum_list].
  erewrite IH; [| by apply summarize_framework_framework].
  do 2 f_equal. exact (eq_sym (Nat.add_assoc _ _ _)).
Qed.

Lemma summarize_all_slave state (l : list (FrameworkID * FrameworkTasks Timestamp))
    summaries a' n :
  counter state (summary_at a' (slaveTaskSummaries summaries))
  = (N.of_nat n mod 2 ^ 64)%N →
  counter state
    (summary_at a' (slaveTaskSummaries (foldl summarize_framework summaries l)))
  = (N.of_nat (n + sum_list ((λ entry, tasks_in_on state a' entry.2) <$> l))
     mod 2 ^ 64)%N.
Proof.
  revert summaries n. induction l as [| entry l IH]; intros summaries n Hn.
  { simpl. rewrite Hn. do 2 f_equal. lia. }
  rewrite fmap_cons. cbn [foldl sum_list].
  erewrite IH; [| by apply summarize_framework_slave].
  do 2 f_equal. exact (eq_sym (Nat.add_assoc _ _ _)).
Qed.

Lemma sum_at_key {V} (g : V → nat) (key : string) (l : list (string * V)) :
  NoDup l.*1 →
  sum_list ((λ entry, if decide (key = entry.1) then g entry.2 else 0%nat) <$> l)
  = from_option g 0%nat ((list_to_map l : gmap string V) !! key).
Proof.
  induction l as [| [k v] l IH]; [done|].
  rewrite !fmap_cons. intros [Hfresh Hrest]%NoDup_cons.
  change (list_to_map ((k, v) :: l)) with (<[k:=v]> (list_to_map l : gmap string V)).
  cbn [sum_list_with fst snd]. rewrite IH by done. unfold Datatypes.id.
  destruct (decide (key = k)) as [-> | Hne].
  - rewrite lookup_insert_eq.
    rewrite (not_elem_of_list_to_map_1 l k) by done. simpl. lia.
  - by rewrite lookup_insert_ne.
Qed.

(** X20: for every state, the summary of a framework counts the tasks
    of the framework that are in this state, a pending launch counted
    as staging, in 64-bit arithmetic; a framework that the master does
    not know has the empty summary. *)
Theorem framework_summary_counts frameworks frameworkId state :
  counter state (summaries_framework (taskStateSummaries frameworks) frameworkId)
  = (N.of_nat (from_option (tasks_in state) 0%nat (frameworks !! frameworkId))
     mod 2 ^ 64)%N.
Proof.
  transitivity
    (counter state
       (summary_at frameworkId
          (frameworkTaskSummaries (taskStateSummaries frameworks)))).
  { unfold summaries_framework, summary_at. by destruct (_ !! _). }
  unfold taskStateSummaries.
  rewrite (summarize_all_framework state _ _ _ 0) by (by destruct state).
  rewrite (sum_at_key (tasks_in state)) by apply NoDup_fst_map_to_list.
  by rewrite list_to_map_to_list.
Qed.

(** X21: for every state, the summary of an agent counts the tasks in
    this state that any framework has on the agent, a pending launch
    counted as staging, in 64-bit arithmetic. *)
Theorem slave_summary_counts frameworks slaveId state :
  counter state (summaries_slave (taskStateSummaries frameworks) slaveId)
  = (N.of_nat (sum_list (tasks_in_on state slaveId <$> (map_to_list frameworks).*2))
     mod 2 ^ 64)%N.
Proof.
  transitivity
    (counter state
       (summary_at slaveId (slaveTaskSummaries (taskStateSummaries frameworks)))).
  { unfold summaries_slave, summary_at. by destruct (_ !! _). }
  unfold taskStateSummaries.
  rewrite (summarize_all_slave state _ _ _ 0) by (by destruct state).
  by rewrite <- list_fmap_compose.
Qed.

End StateSummaries.
